(** * customized-mcp: the PostgreSQL reader and the spreadsheet reader

  A shallow embedding of the two MCP servers of the repository:

  - [postgresql-reader-mcp/dist/index.js]: the connection registry
    ([getConnection], [addConnection], [removeConnection]), the read-only
    guard ([isReadOnlyQuery]), [escapeIdentifier] and the tool handlers;
  - the spreadsheet reader: [validateFilePath] and the tools that call it.

  Modelling decisions.

  - A JavaScript string is a sequence of UTF-16 code units.  The embedding
    covers the strings whose code units lie in U+0000..U+00FF and writes
    them as [string]: an [ascii] is read as the code unit of that number.
    On these strings [trim] and [toLowerCase] act unit by unit and stay in
    the range, so the primitives below are the ECMAScript ones restricted
    to it.
  - The [Map] named [connections] keeps insertion order, which the error
    message of [getConnection] and [handleListConnections] expose; it is an
    association list with unique keys.
  - The driver ([pg]'s [Pool]), the file system and the spreadsheet parser
    are outside the repository.  What they answer is an input of the
    handler that awaits them.
  - [JSON.stringify (v, null, 2)] is a function of the value [v]; handlers
    return the value.
  - A number is a double.  The embedding covers the integral doubles, the
    infinities and [NaN], which is what lengths, ports, limits and
    [parseInt] give; a difference is rounded as the format rounds it.
  - A handler is one call run from its first statement to its return.
    Where a claim is about what another call sees meanwhile, the handler is
    cut at its [await] ([InFlight]): the part before it, and the part that
    goes on with the driver's answer. *)

From Stdlib Require Import Strings.String Strings.Ascii Lists.List.
From Stdlib Require Import ZArith NArith Bool Lia Numbers.DecimalString.
From Stdlib Require Import Floats.SpecFloat.
Import ListNotations.
Open Scope string_scope.

(** ** JavaScript string primitives *)

Module JSString.

Definition code (c : ascii) : N := N_of_ascii c.

Definition between (lo hi : N) (c : ascii) : bool :=
  (N.leb lo (code c) && N.leb (code c) hi)%bool.

(** ECMAScript [WhiteSpace] and [LineTerminator] below U+0100: TAB, LF, VT,
    FF, CR, SP and NBSP. *)
Definition isWhiteSpace (c : ascii) : bool :=
  (between 9 13 c || N.eqb (code c) 32 || N.eqb (code c) 160)%bool.

Fixpoint trimStart (s : string) : string :=
  match s with
  | EmptyString => EmptyString
  | String c s' => if isWhiteSpace c then trimStart s' else s
  end.

Fixpoint trimEnd (s : string) : string :=
  match s with
  | EmptyString => EmptyString
  | String c s' =>
      match trimEnd s' with
      | EmptyString => if isWhiteSpace c then EmptyString else String c EmptyString
      | t => String c t
      end
  end.

Definition trim (s : string) : string := trimEnd (trimStart s).

(** Unicode simple lower-casing below U+0100: A-Z, and the Latin-1 capitals
    U+00C0..U+00DE without the multiplication sign U+00D7. *)
Definition isUpper (c : ascii) : bool :=
  (between 65 90 c || (between 192 222 c && negb (N.eqb (code c) 215)))%bool.

Definition lowerChar (c : ascii) : ascii :=
  if isUpper c then ascii_of_N (code c + 32) else c.

Fixpoint toLowerCase (s : string) : string :=
  match s with
  | EmptyString => EmptyString
  | String c s' => String (lowerChar c) (toLowerCase s')
  end.

Fixpoint startsWith (s p : string) {struct p} : bool :=
  match p, s with
  | EmptyString, _ => true
  | String a p', String b s' => (Ascii.eqb a b && startsWith s' p')%bool
  | String _ _, EmptyString => false
  end.

Fixpoint includes (s p : string) : bool :=
  (startsWith s p ||
     match s with
     | EmptyString => false
     | String _ s' => includes s' p
     end)%bool.

(** [Array.prototype.join]. *)
Fixpoint join (sep : string) (l : list string) : string :=
  match l with
  | [] => EmptyString
  | [x] => x
  | x :: rest => x ++ sep ++ join sep rest
  end.

(** [String (n)] and template interpolation of an integral number. *)
Definition ofInteger (n : Z) : string := NilZero.string_of_int (Z.to_int n).

Definition head (s : string) : option ascii :=
  match s with
  | EmptyString => None
  | String c _ => Some c
  end.

(** The last code unit of [s], or [d] when [s] is empty. *)
Fixpoint lastOr (d : option ascii) (s : string) : option ascii :=
  match s with
  | EmptyString => d
  | String c s' => lastOr (Some c) s'
  end.

Definition allWhiteSpace (s : string) : Prop :=
  forall c, In c (list_ascii_of_string s) -> isWhiteSpace c = true.

End JSString.

(** ** The regular expressions the code uses

  The expression built per keyword (a word boundary, the keyword, a word
  boundary, flag [i]) and the global expression that matches one double
  quote are sequences of two kinds of atoms: the assertion [\b] and a literal character.  The
  matcher is the backtracking matcher of ECMAScript restricted to them
  (a sequence of atoms has a single way to match at a position). *)

Module RegExp.
Import JSString.

Inductive atom : Type :=
| WordBoundary
| Lit (c : ascii).

Record t : Type := mk { source : list atom; ignoreCase : bool }.

(** [IsWordChar]: the basic word characters [A-Za-z0-9_]. *)
Definition isWordChar (c : ascii) : bool :=
  (between 48 57 c || between 65 90 c || between 97 122 c || N.eqb (code c) 95)%bool.

Definition wordAt (o : option ascii) : bool :=
  match o with
  | Some c => isWordChar c
  | None => false
  end.

(** [Canonicalize] without the [u] flag: the upper-case mapping when it is
    a single code unit, except that a unit of 128 or more never maps below
    128.  The result is a code unit number: U+00FF maps to U+0178 and
    U+00B5 to U+039C, U+00DF (whose upper case is two units) to itself. *)
Definition Canonicalize (c : ascii) : N :=
  if between 97 122 c then code c - 32
  else if (between 224 254 c && negb (N.eqb (code c) 247))%bool then code c - 32
  else if N.eqb (code c) 255 then 376
  else if N.eqb (code c) 181 then 924
  else code c.

Definition charMatches (ic : bool) (p c : ascii) : bool :=
  if ic then N.eqb (Canonicalize p) (Canonicalize c) else Ascii.eqb p c.

(** Match the atoms at the current position, [prev] being the code unit
    before it; the number of code units consumed. *)
Fixpoint matchHere (ic : bool) (pat : list atom) (prev : option ascii)
                   (s : string) : option nat :=
  match pat with
  | [] => Some 0
  | WordBoundary :: pat' =>
      if xorb (wordAt prev) (wordAt (head s))
      then matchHere ic pat' prev s
      else None
  | Lit p :: pat' =>
      match s with
      | EmptyString => None
      | String c s' =>
          if charMatches ic p c
          then option_map S (matchHere ic pat' (Some c) s')
          else None
      end
  end.

Fixpoint search (ic : bool) (pat : list atom) (prev : option ascii)
                (s : string) : bool :=
  match matchHere ic pat prev s with
  | Some _ => true
  | None =>
      match s with
      | EmptyString => false
      | String c s' => search ic pat (Some c) s'
      end
  end.

(** [RegExp.prototype.test] of an expression without the [g] and [y]
    flags: the search starts at index 0. *)
Definition test (r : t) (s : string) : bool :=
  search (ignoreCase r) (source r) None s.

(** [String.prototype.replace] with a global expression and a replacement
    text without [$]: every match, left to right, is replaced; an empty
    match keeps the code unit after it.  [skip] counts the code units of
    the last match still to be dropped. *)
Fixpoint replaceFrom (ic : bool) (pat : list atom) (repl : string)
                     (prev : option ascii) (skip : nat) (s : string) : string :=
  match s with
  | EmptyString =>
      match matchHere ic pat prev EmptyString with
      | Some _ => repl
      | None => EmptyString
      end
  | String c s' =>
      match skip with
      | S k => replaceFrom ic pat repl (Some c) k s'
      | O =>
          match matchHere ic pat prev s with
          | Some (S k) => repl ++ replaceFrom ic pat repl (Some c) k s'
          | Some O => repl ++ String c (replaceFrom ic pat repl (Some c) 0 s')
          | None => String c (replaceFrom ic pat repl (Some c) 0 s')
          end
      end
  end.

Definition replaceAll (r : t) (repl : string) (s : string) : string :=
  replaceFrom (ignoreCase r) (source r) repl None 0 s.

Definition literal (s : string) : list atom := map Lit (list_ascii_of_string s).

Definition isLowerLetter (c : ascii) : bool := between 97 122 c.

(** A text of lower-case letters, as every keyword of the guard is. *)
Fixpoint lowerLetters (kw : string) : bool :=
  match kw with
  | EmptyString => true
  | String p kw' => (isLowerLetter p && lowerLetters kw')%bool
  end.

Definition isSome {A} (o : option A) : bool :=
  match o with Some _ => true | None => false end.

Definition wordPattern (kw : string) : list atom :=
  [WordBoundary] ++ literal kw ++ [WordBoundary].

(** A whole-word,
    case-insensitive occurrence of [kw] in [s], the code unit before [s]
    being [prev]: the words of the specification for what the keyword
    expression finds. *)
Definition occursAfter (prev : option ascii) (kw s : string) : Prop :=
  exists pre mid post,
    s = pre ++ mid ++ post /\ toLowerCase mid = kw /\
    wordAt (lastOr prev pre) = false /\ wordAt (head post) = false.

End RegExp.

(** ** The read-only guard and identifier escaping *)

Module Guard.
Import JSString.

Definition forbiddenKeywords : list string :=
  [ "insert"; "update"; "delete"; "drop"; "create"; "alter";
    "truncate"; "grant"; "revoke"; "copy"; "execute"; "call" ].

(** The expression of the loop body: [\b], the keyword, [\b], with the
    flag [i]; the keywords are letters only, so each of their characters
    is a literal of the expression. *)
Definition keywordRegex (keyword : string) : RegExp.t :=
  RegExp.mk ([RegExp.WordBoundary] ++ RegExp.literal keyword ++ [RegExp.WordBoundary]) true.

(** The [for ... of] loop of [isReadOnlyQuery]: [false] at the first
    keyword whose expression matches. *)
Fixpoint scanKeywords (keywords : list string) (normalizedSql : string) : bool :=
  match keywords with
  | [] => true
  | keyword :: rest =>
      if RegExp.test (keywordRegex keyword) normalizedSql
      then false
      else scanKeywords rest normalizedSql
  end.

Definition isReadOnlyQuery (sql : string) : bool :=
  let normalizedSql := toLowerCase (trim sql) in
  if (negb (startsWith normalizedSql "select") &&
      negb (startsWith normalizedSql "with") &&
      negb (startsWith normalizedSql "explain"))%bool
  then false
  else scanKeywords forbiddenKeywords normalizedSql.

Definition permittedLeading : list string := [ "select"; "with"; "explain" ].

(** The specification's two conditions on a statement. *)
Definition startsWithPermitted (normalized : string) : Prop :=
  exists kw rest, In kw permittedLeading /\ normalized = kw ++ rest.

Definition wholeWordIn (kw sql : string) : Prop := RegExp.occursAfter None kw sql.

Definition dquote : ascii := "034"%char.

(** The identifier between two double quotes, after a global replace of
    each double quote by two. *)
Definition escapeIdentifier (identifier : string) : string :=
  String dquote
    (RegExp.replaceAll (RegExp.mk [RegExp.Lit dquote] false)
       (String dquote (String dquote EmptyString)) identifier
     ++ String dquote EmptyString).

(** The statement's first word: its longest prefix of word characters. *)
Fixpoint leadingWord (s : string) : string :=
  match s with
  | EmptyString => EmptyString
  | String c s' => if RegExp.isWordChar c then String c (leadingWord s') else EmptyString
  end.

(** The specification's words for the escaping: every double quote of the
    identifier doubled, every other code unit kept, the whole between two
    double quotes. *)
Fixpoint doubleQuotes (s : string) : string :=
  match s with
  | EmptyString => EmptyString
  | String c s' =>
      if Ascii.eqb c dquote
      then String dquote (String dquote (doubleQuotes s'))
      else String c (doubleQuotes s')
  end.

Definition quoted (s : string) : string :=
  String dquote (doubleQuotes s ++ String dquote EmptyString).

(** How SQL reads a quoted identifier back: the text between the opening
    double quote and the first double quote that is not doubled, which must
    end the input. *)
Fixpoint readQuotedBody (s : string) : option string :=
  match s with
  | EmptyString => None
  | String c s' =>
      if Ascii.eqb c dquote
      then match s' with
           | EmptyString => Some EmptyString
           | String d s'' =>
               if Ascii.eqb d dquote
               then option_map (String dquote) (readQuotedBody s'')
               else None
           end
      else option_map (String c) (readQuotedBody s')
  end.

Definition readQuotedIdentifier (s : string) : option string :=
  match s with
  | EmptyString => None
  | String c s' => if Ascii.eqb c dquote then readQuotedBody s' else None
  end.

End Guard.

(** ** Values, errors and the world the handlers run in *)

Module JS.

(** The numbers of the handlers: the integral ones (lengths, ports and
    limits, the counts [parseInt] reads), the two infinities, which
    [parseInt] returns for a numeral beyond the largest double, and [NaN].
    The two zeros are the one [Num 0]: [===], [-], [String] and
    [JSON.stringify] give the same on both. *)
Inductive number : Type :=
| Num (z : Z)
| NaN
| Infinity (negative : bool).

#[local] Unset Elimination Schemes.
(** What a handler passes to [JSON.stringify]. *)
Inductive value : Type :=
| VUndefined
| VNull
| VBool (b : bool)
| VNum (n : number)
| VStr (s : string)
| VArr (items : list value)
| VObj (fields : list (string * value)).
#[local] Set Elimination Schemes.

(** [new Error (message)], and what a promise of the driver rejects with. *)
Record Error : Type := mkError { message : string }.

Inductive completion (A : Type) : Type :=
| Return (a : A)
| Throw (e : Error).
Arguments Return {A} a.
Arguments Throw {A} e.

(** Property access [o.name] on an object; [undefined] when absent. *)
Fixpoint field (name : string) (fields : list (string * value)) : value :=
  match fields with
  | [] => VUndefined
  | (k, v) :: rest => if String.eqb k name then v else field name rest
  end.

Definition keys (v : value) : list string :=
  match v with
  | VObj fields => map fst fields
  | _ => []
  end.

(** The double nearest to the integer [z], a tie going to the even
    significand.  An integer of at most 53 bits is a double.  A longer one
    keeps its 53 leading bits, rounded by the bits that are dropped; when
    that reaches 2^1024 the result is an infinity. *)
Definition toDouble (z : Z) : number :=
  let a := Z.abs z in
  let dropped := (Z.log2 a + 1 - 53)%Z in
  if (dropped <=? 0)%Z then Num z
  else
    let q := Z.shiftr a dropped in
    let r := (a - Z.shiftl q dropped)%Z in
    let half := Z.shiftl 1 (dropped - 1) in
    let q' := if ((half <? r) || ((half =? r) && Z.odd q))%Z%bool then (q + 1)%Z else q in
    let m := Z.shiftl q' dropped in
    if (2 ^ 1024 <=? m)%Z then Infinity (z <? 0)%Z
    else Num (Z.sgn z * m).

(** The binary64 format of the library, for comparison: the double an
    integer rounds to, and the number an integral double is. *)
Definition binary64 (z : Z) : spec_float := binary_normalize 53 1024 z 0 false.

Definition ofBinary64 (f : spec_float) : number :=
  match f with
  | S754_zero _ => Num 0
  | S754_infinity s => Infinity s
  | S754_nan => NaN
  | S754_finite s m e => Num ((if s then -1 else 1) * Z.shiftl (Z.pos m) e)
  end.

(** Integers that are doubles, and integers that round. *)
Definition someDoubles : list Z :=
  [ 0; 1; -1; 3; 1000; 2 ^ 53; 2 ^ 53 + 2; - (2 ^ 53); 2 ^ 60; 2 ^ 60 + 256;
    2 ^ 1023; (2 ^ 53 - 1) * 2 ^ 971; - ((2 ^ 53 - 1) * 2 ^ 971) ]%Z.

Definition someIntegers : list Z :=
  (someDoubles
   ++ [ 2 ^ 53 + 1; 2 ^ 53 + 3; 2 ^ 54 + 2; 2 ^ 54 + 6; 2 ^ 60 - 1; 1 - 2 ^ 60;
        2 ^ 1024 - 2 ^ 970 - 1; 2 ^ 1024 - 2 ^ 970; 2 ^ 1024; - (2 ^ 1024);
        123456789012345678901234567890 ]%Z
   ++ map (fun i => (2 ^ 53 - 50 + Z.of_nat i)%Z) (seq 0 400))%list.

(** [a - b] on numbers: the difference of two integral doubles is their
    exact difference rounded to a double; an infinity less a finite number,
    or less the other infinity, is itself; an infinity less itself is
    [NaN]. *)
Definition sub (a b : number) : number :=
  match a, b with
  | Num x, Num y => toDouble (x - y)
  | Num _, Infinity s => Infinity (negb s)
  | Infinity s, Num _ => Infinity s
  | Infinity s, Infinity t => if Bool.eqb s t then NaN else Infinity s
  | _, _ => NaN
  end.

(** [a === b] on numbers: [NaN] equals nothing, itself included. *)
Definition strictEq (a b : number) : bool :=
  match a, b with
  | Num x, Num y => Z.eqb x y
  | Infinity s, Infinity t => Bool.eqb s t
  | _, _ => false
  end.

End JS.

(** ** The connection registry *)

Module Registry.
Import JSString JS.

(** The configuration [addConnection] builds for [new Pool]. *)
Record PoolConfig : Type := mkPoolConfig {
  pc_host : string;
  pc_port : Z;
  pc_database : string;
  pc_user : string;
  pc_password : string;
  pc_max : Z;
  pc_idleTimeoutMillis : Z;
  pc_connectionTimeoutMillis : Z
}.

(** The handle: a pool is known by the configuration it was built from. *)
Record Pool : Type := newPool { options : PoolConfig }.

(** The [config] object kept beside the pool. *)
Record DisplayConfig : Type := mkDisplay {
  host : string;
  port : Z;
  database : string;
  user : string
}.

Record Entry : Type := mkEntry { pool : Pool; config : DisplayConfig }.

(** The [Map] [connections], in insertion order. *)
Definition Connections : Type := list (string * Entry).

Fixpoint Map_get (m : Connections) (name : string) : option Entry :=
  match m with
  | [] => None
  | (k, e) :: rest => if String.eqb k name then Some e else Map_get rest name
  end.

Definition Map_has (m : Connections) (name : string) : bool :=
  match Map_get m name with
  | Some _ => true
  | None => false
  end.

(** [Map.prototype.set]: the value of an existing key is replaced where it
    stands, a new key goes last. *)
Fixpoint Map_set (m : Connections) (name : string) (e : Entry) : Connections :=
  match m with
  | [] => [(name, e)]
  | (k, e') :: rest =>
      if String.eqb k name then (k, e) :: rest else (k, e') :: Map_set rest name e
  end.

(** [Map.prototype.delete]; keys are unique, so at most one entry goes. *)
Definition Map_delete (m : Connections) (name : string) : Connections :=
  filter (fun ke => negb (String.eqb (fst ke) name)) m.

Definition Map_keys (m : Connections) : list string := map fst m.

(** A request the code sent to the driver. *)
Inductive Call : Type :=
| Query (p : Pool) (sql : string) (params : option (list value))
| End (p : Pool).

(** A row of a result: column name and value. *)
Definition Row : Type := list (string * value).

Record QueryResult : Type := mkResult { rowCount : value; rows : list Row }.

(** The process state: the registry and the requests sent so far. *)
Record World : Type := mkWorld { connections : Connections; sent : list Call }.

(** What lies outside the repository.  The driver answers the n-th request
    sent ([queryAnswer] when it is a query, [endAnswer] when it is the end
    of a pool); [parseInt] is the built-in; [notAString] is the [TypeError]
    raised when [replace] is called on a value that is not a string, and
    [noFirstRow] the one raised when [count] is read off the first row of
    a result without rows. *)
Record Outside : Type := mkOutside {
  queryAnswer : nat -> completion QueryResult;
  endAnswer : nat -> completion unit;
  parseInt : value -> number;
  notAString : value -> Error;
  noFirstRow : Error
}.

(** Handlers are state-passing computations that return or throw. *)
Definition M (A : Type) : Type := World -> completion A * World.

Definition ret {A} (a : A) : M A := fun w => (Return a, w).
Definition throw {A} (e : Error) : M A := fun w => (Throw e, w).
Definition bind {A B} (m : M A) (k : A -> M B) : M B :=
  fun w =>
    match m w with
    | (Return a, w') => k a w'
    | (Throw e, w') => (Throw e, w')
    end.
Definition tryCatch {A} (m : M A) (handler : Error -> M A) : M A :=
  fun w =>
    match m w with
    | (Return a, w') => (Return a, w')
    | (Throw e, w') => handler e w'
    end.

Definition readConnections : M Connections := fun w => (Return (connections w), w).
Definition writeConnections (m : Connections) : M unit :=
  fun w => (Return tt, mkWorld m (sent w)).

End Registry.

(** ** The handlers of the PostgreSQL reader *)

Module Server.
Import JSString JS Registry Guard.

Declare Scope js_scope.
Delimit Scope js_scope with js.
Notation "x <- m ;; k" := (bind m (fun x => k))
  (at level 61, m at next level, right associativity) : js_scope.
Notation "m ;;; k" := (bind m (fun _ => k))
  (at level 61, right associativity) : js_scope.
Local Open Scope js_scope.

Section Handlers.
Variable out : Outside.

(** [await pool.query (sql, params)]: the request is logged and the driver's
    answer to it comes back; [params] is [None] when the call passes none. *)
Definition pool_query (p : Pool) (sql : string) (params : option (list value)) : M QueryResult :=
  fun w => (queryAnswer out (length (sent w)),
            mkWorld (connections w) (sent w ++ [Query p sql params])).

(** [await pool.end ()]. *)
Definition pool_end (p : Pool) : M unit :=
  fun w => (endAnswer out (length (sent w)),
            mkWorld (connections w) (sent w ++ [End p])).

Definition available (m : Connections) : string :=
  let joined := join ", " (Map_keys m) in
  if String.eqb joined "" then "(none)" else joined.

Definition NotFoundError (name : string) (m : Connections) : Error :=
  mkError ("Connection '" ++ name ++ "' not found. Available connections: "
           ++ available m).

Definition DuplicateNameError (name : string) : Error :=
  mkError ("Connection '" ++ name
           ++ "' already exists. Remove it first or use a different name.").

Definition RemoveNotFoundError (name : string) : Error :=
  mkError ("Connection '" ++ name ++ "' not found.").

Definition NotReadOnlyError : Error :=
  mkError "Only read-only queries (SELECT, WITH, EXPLAIN) are allowed. Modification statements are not permitted.".

Definition getConnection (name : string) : M Pool :=
  m <- readConnections ;;
  match Map_get m name with
  | None => throw (NotFoundError name m)
  | Some conn => ret (pool conn)
  end.

Definition addConnection (name host : string) (port : Z)
                         (database user password : string) : M unit :=
  m <- readConnections ;;
  if Map_has m name then throw (DuplicateNameError name)
  else
    let config := mkPoolConfig host port database user password 5 30000 5000 in
    let pool := newPool config in
    writeConnections (Map_set m name (mkEntry pool (mkDisplay host port database user))).

Definition connections_delete (name : string) : M unit :=
  m <- readConnections ;; writeConnections (Map_delete m name).

Definition removeConnection (name : string) : M unit :=
  m <- readConnections ;;
  match Map_get m name with
  | None => throw (RemoveNotFoundError name)
  | Some conn => pool_end (pool conn) ;;; connections_delete name
  end.

Definition orDefault {A} (d : A) (o : option A) : A :=
  match o with
  | Some a => a
  | None => d
  end.

(** An argument that is [undefined] takes the default of the parameter. *)
Definition handleAddConnection (name host : string) (port : option Z)
                               (database user password : string) : M value :=
  let port := orDefault 5432%Z port in
  addConnection name host port database user password ;;;
  tryCatch
    (pool <- getConnection name ;;
     pool_query pool "SELECT 1" None ;;;
     ret (VObj [ ("success", VBool true);
                 ("message", VStr ("Connection '" ++ name ++ "' added successfully"));
                 ("connection", VObj [ ("name", VStr name);
                                       ("host", VStr host);
                                       ("port", VNum (Num port));
                                       ("database", VStr database);
                                       ("user", VStr user) ]) ]))
    (fun error => connections_delete name ;;; throw error).

Definition handleRemoveConnection (name : string) : M value :=
  removeConnection name ;;;
  ret (VObj [ ("success", VBool true);
              ("message", VStr ("Connection '" ++ name ++ "' removed successfully")) ]).

Definition handleListConnections : M value :=
  m <- readConnections ;;
  ret (VArr (map (fun ke : string * Entry =>
                    let (name, info) := ke in
                    VObj [ ("name", VStr name);
                           ("host", VStr (host (config info)));
                           ("port", VNum (Num (port (config info))));
                           ("database", VStr (database (config info)));
                           ("user", VStr (user (config info))) ])
                 m)).

Definition handleQuery (connection sql : string) (params : option (list value))
                       (limit : option Z) : M value :=
  let params := orDefault [] params in
  let limit := orDefault 100%Z limit in
  if negb (isReadOnlyQuery sql) then throw NotReadOnlyError
  else
    let effectiveLimit := Z.min (Z.max 1 limit) 1000 in
    db <- getConnection connection ;;
    let querySql := trim sql in
    let querySql :=
      if negb (includes (toLowerCase querySql) "limit")
      then querySql ++ " LIMIT " ++ ofInteger effectiveLimit
      else querySql in
    result <- pool_query db querySql (Some params) ;;
    ret (VObj [ ("rowCount", rowCount result);
                ("rows", VArr (map VObj (rows result))) ]).

(** [escapeIdentifier] on a value of the request or of a row: [replace] is
    a method of strings only. *)
Definition escapeIdentifierOf (v : value) : completion string :=
  match v with
  | VStr s => Return (escapeIdentifier s)
  | _ => Throw (notAString out v)
  end.

(** [r => parseInt (r.rows[0].count)] after a query. *)
Definition firstCount (r : completion QueryResult) : completion number :=
  match r with
  | Throw e => Throw e
  | Return res =>
      match rows res with
      | [] => Throw (noFirstRow out)
      | row :: _ => Return (parseInt out (field "count" row))
      end
  end.

(** A promise: the computation runs, and how it completes is kept for
    whoever awaits it. *)
Definition settle {A} (m : M A) : M (completion A) :=
  fun w => let (c, w') := m w in (Return c, w').

Definition await {A} (c : completion A) : M A :=
  match c with
  | Return a => ret a
  | Throw e => throw e
  end.

(** The body of the loop of [handleCompareRowCounts] for one table: both
    count queries are sent; [Promise.all] rejects with the source's
    rejection, the target's having been turned into [null]; the [catch]
    records the error. *)
Definition compareTable (sourceDb targetDb : Pool) (schema : string)
                        (table : value) : M value :=
  tryCatch
    (quotedTable <- await (escapeIdentifierOf table) ;;
     let countQuery := "SELECT COUNT(*) as count FROM " ++ escapeIdentifier schema
                       ++ "." ++ quotedTable in
     sourceAnswer <- settle (pool_query sourceDb countQuery None) ;;
     targetAnswer <- settle (pool_query targetDb countQuery None) ;;
     sourceCount <- await (firstCount sourceAnswer) ;;
     let targetCount :=
       match firstCount targetAnswer with
       | Return n => Some n
       | Throw _ => None
       end in
     ret (VObj [ ("table", table);
                 ("source_count", VNum sourceCount);
                 ("target_count",
                   match targetCount with Some n => VNum n | None => VNull end);
                 ("difference",
                   match targetCount with
                   | Some n => VNum (sub n sourceCount)
                   | None => VNull
                   end);
                 ("match",
                   VBool match targetCount with
                         | Some n => strictEq sourceCount n
                         | None => false
                         end) ]))
    (fun error => ret (VObj [ ("table", table); ("error", VStr (message error)) ])).

Fixpoint compareLoop (sourceDb targetDb : Pool) (schema : string)
                     (tableList : list value) : M (list value) :=
  match tableList with
  | [] => ret []
  | table :: rest =>
      c <- compareTable sourceDb targetDb schema table ;;
      cs <- compareLoop sourceDb targetDb schema rest ;;
      ret (c :: cs)
  end.

(** The specification's words for the record of one table: the source's
    failure is an error entry, the target's a [null] count, and otherwise
    both counts, their difference and whether they match. *)
Definition comparisonOf (table : value)
                        (sourceAnswer targetAnswer : completion QueryResult) : value :=
  match firstCount sourceAnswer, firstCount targetAnswer with
  | Throw e, _ => VObj [ ("table", table); ("error", VStr (message e)) ]
  | Return sourceCount, Throw _ =>
      VObj [ ("table", table); ("source_count", VNum sourceCount);
             ("target_count", VNull); ("difference", VNull); ("match", VBool false) ]
  | Return sourceCount, Return targetCount =>
      VObj [ ("table", table); ("source_count", VNum sourceCount);
             ("target_count", VNum targetCount);
             ("difference", VNum (sub targetCount sourceCount));
             ("match", VBool (strictEq sourceCount targetCount)) ]
  end.

(** The records of the tables [names], the first request for them being
    the [n]-th: each table has the answers to its own two requests. *)
Fixpoint comparisonsFrom (n : nat) (names : list string) : list value :=
  match names with
  | [] => []
  | table :: rest =>
      comparisonOf (VStr table) (queryAnswer out n) (queryAnswer out (S n))
      :: comparisonsFrom (S (S n)) rest
  end.

(** The requests sent for the tables [names]. *)
Definition countQueryFor (schema table : string) : string :=
  "SELECT COUNT(*) as count FROM " ++ escapeIdentifier schema ++ "."
  ++ escapeIdentifier table.

Definition requestsFor (sourceDb targetDb : Pool) (schema : string)
                       (names : list string) : list Call :=
  flat_map (fun table => [ Query sourceDb (countQueryFor schema table) None;
                           Query targetDb (countQueryFor schema table) None ]) names.

Definition fieldOf (name : string) (v : value) : value :=
  match v with
  | VObj fields => field name fields
  | _ => VUndefined
  end.

(** [c.match === true], [c.match === false] and the truthiness of
    [c.error], which is a text or [undefined]. *)
Definition matchIs (b : bool) (c : value) : bool :=
  match fieldOf "match" c with
  | VBool b' => Bool.eqb b b'
  | _ => false
  end.

Definition hasError (c : value) : bool :=
  match fieldOf "error" c with
  | VStr s => negb (String.eqb s "")
  | _ => false
  end.

Definition count (f : value -> bool) (l : list value) : value :=
  VNum (Num (Z.of_nat (length (filter f l)))).

Definition handleCompareRowCounts (sourceConnection targetConnection : string)
                                  (tables : option (list value))
                                  (schema : option string) : M value :=
  let tables := orDefault [] tables in
  let schema := orDefault "public" schema in
  sourceDb <- getConnection sourceConnection ;;
  targetDb <- getConnection targetConnection ;;
  tableList <-
    (if Nat.eqb (length tables) 0
     then
       tablesResult <-
         pool_query sourceDb
           "SELECT table_name FROM information_schema.tables WHERE table_schema = $1 AND table_type = 'BASE TABLE' ORDER BY table_name"
           (Some [VStr schema]) ;;
       ret (map (field "table_name") (rows tablesResult))
     else ret tables) ;;
  comparisons <- compareLoop sourceDb targetDb schema tableList ;;
  ret (VObj [ ("source_connection", VStr sourceConnection);
              ("target_connection", VStr targetConnection);
              ("schema", VStr schema);
              ("summary",
                VObj [ ("total_tables", VNum (Num (Z.of_nat (length comparisons))));
                       ("matching", count (matchIs true) comparisons);
                       ("mismatching", count (matchIs false) comparisons);
                       ("errors", count hasError comparisons) ]);
              ("comparisons", VArr comparisons) ]).

(** The requests of the tools modelled here, with the arguments the
    dispatcher reads; an absent argument is [None]. *)
Inductive ToolCall : Type :=
| add_connection (name host : string) (port : option Z)
                 (database user password : string)
| remove_connection (name : string)
| list_connections
| query (connection sql : string) (params : option (list value)) (limit : option Z)
| compare_row_counts (source_connection target_connection : string)
                     (tables : option (list value)) (schema : option string).

(** The response: the value whose JSON text is the content, or the error
    text with the error flag. *)
Inductive ToolResult : Type :=
| Content (v : value)
| IsError (text : string).

(** [args?.port || 5432]: an absent port and the port 0 become 5432. *)
Definition portOr5432 (port : option Z) : Z :=
  match port with
  | Some p => if Z.eqb p 0 then 5432%Z else p
  | None => 5432%Z
  end.

Definition dispatch (c : ToolCall) : M value :=
  match c with
  | add_connection name host port database user password =>
      handleAddConnection name host (Some (portOr5432 port)) database user password
  | remove_connection name => handleRemoveConnection name
  | list_connections => handleListConnections
  | query connection sql params limit => handleQuery connection sql params limit
  | compare_row_counts s t tables schema => handleCompareRowCounts s t tables schema
  end.

(** The [try]/[catch] of the request handler. *)
Definition callTool (c : ToolCall) (w : World) : ToolResult * World :=
  match dispatch c w with
  | (Return v, w') => (Content v, w')
  | (Throw e, w') => (IsError ("Error: " ++ message e), w')
  end.

Fixpoint serve (calls : list ToolCall) (w : World) : list ToolResult * World :=
  match calls with
  | [] => ([], w)
  | c :: rest =>
      let (r, w1) := callTool c w in
      let (rs, w2) := serve rest w1 in
      (r :: rs, w2)
  end.

End Handlers.

(** The specification's words for the list in the not-found message: the
    registered names, or the marker when the registry is empty. *)
Definition enumerated (m : Connections) : string :=
  match m with
  | [] => "(none)"
  | _ => join ", " (Map_keys m)
  end.

Definition emptyWorld : World := mkWorld [] [].

(** What enumeration shows of the registry. *)
Definition display (m : Connections) : list (string * DisplayConfig) :=
  map (fun ke => (fst ke, config (snd ke))) m.

(** A request with its password put aside: two requests that differ only
    in the password are the same after it. *)
Definition forgetPassword (c : ToolCall) : ToolCall :=
  match c with
  | add_connection name host port database user _ =>
      add_connection name host port database user ""
  | _ => c
  end.

(** The specification's words for the row cap and for containment. *)
Definition rowCap (n : Z) : Z := Z.min (Z.max 1 n) 1000.

Definition contains (s part : string) : Prop :=
  exists pre post, s = pre ++ part ++ post.

(** Two states look the same from outside: the same names with the same
    display configuration, and as many requests sent. *)
Definition low (w1 w2 : World) : Prop :=
  display (connections w1) = display (connections w2)
  /\ length (sent w1) = length (sent w2).

(** Two computations that, from states that look the same, complete the
    same way (results related by [RA], the same error) in states that look
    the same. *)
Definition related {A} (RA : A -> A -> Prop) (m1 m2 : M A) : Prop :=
  forall w1 w2, low w1 w2 ->
    match m1 w1, m2 w2 with
    | (Return a1, w1'), (Return a2, w2') => RA a1 a2 /\ low w1' w2'
    | (Throw e1, w1'), (Throw e2, w2') => e1 = e2 /\ low w1' w2'
    | _, _ => False
    end.

(** An example: two connections, and a driver that answers the first and
    third requests with a count, rejects the second and the fourth. *)
Definition examplePool (host password : string) : Pool :=
  newPool (mkPoolConfig host 5432 "shop" "reader" password 5 30000 5000).

Definition exampleWorld : World :=
  mkWorld [ ("src", mkEntry (examplePool "old-db" "s3cret") (mkDisplay "old-db" 5432 "shop" "reader"));
            ("tgt", mkEntry (examplePool "new-db" "hunter2") (mkDisplay "new-db" 5432 "shop" "reader")) ]
          [].

Definition exampleDriver : Outside :=
  mkOutside (fun n => if Nat.even n
                      then Return (mkResult (VNum (Num 1)) [[("count", VStr "3")]])
                      else Throw (mkError "relation does not exist"))
            (fun _ => Return tt)
            (fun v => match v with VStr "3" => Num 3 | _ => NaN end)
            (fun _ => mkError "identifier.replace is not a function")
            (mkError "Cannot read properties of undefined (reading 'count')").

(** A driver that accepts every request and answers a query with no row. *)
Definition agreeable : Outside :=
  mkOutside (fun _ => Return (mkResult (VNum (Num 0)) []))
            (fun _ => Return tt)
            (fun _ => NaN)
            (fun _ => mkError "identifier.replace is not a function")
            (mkError "Cannot read properties of undefined (reading 'count')").

End Server.

(** ** The other tools of the PostgreSQL reader *)

Module Tools.
Import JSString JS Registry Guard Server.
Local Open Scope js_scope.

(** The statements the introspection tools send, as the template literals
    have them, line breaks and indentation included. *)
Definition listSchemasSql : string :=
"
    SELECT schema_name
    FROM information_schema.schemata
    WHERE schema_name NOT IN ('pg_catalog', 'information_schema', 'pg_toast')
    ORDER BY schema_name
  ".

Definition listTablesSql : string :=
"
    SELECT table_name, table_type
    FROM information_schema.tables
    WHERE table_schema = $1
    ORDER BY table_name
  ".

Definition describeTableSql : string :=
"
    SELECT
      c.column_name,
      c.data_type,
      c.character_maximum_length,
      c.numeric_precision,
      c.numeric_scale,
      c.is_nullable,
      c.column_default,
      (
        SELECT 'PRIMARY KEY'
        FROM information_schema.table_constraints tc
        JOIN information_schema.key_column_usage kcu
          ON tc.constraint_name = kcu.constraint_name
          AND tc.table_schema = kcu.table_schema
        WHERE tc.constraint_type = 'PRIMARY KEY'
          AND tc.table_schema = c.table_schema
          AND tc.table_name = c.table_name
          AND kcu.column_name = c.column_name
      ) as constraint_type
    FROM information_schema.columns c
    WHERE c.table_schema = $1 AND c.table_name = $2
    ORDER BY c.ordinal_position
  ".

Definition getIndexesSql : string :=
"
    SELECT
      i.relname as index_name,
      am.amname as index_type,
      pg_get_indexdef(i.oid) as index_definition,
      ix.indisunique as is_unique,
      ix.indisprimary as is_primary
    FROM pg_class t
    JOIN pg_index ix ON t.oid = ix.indrelid
    JOIN pg_class i ON i.oid = ix.indexrelid
    JOIN pg_am am ON i.relam = am.oid
    JOIN pg_namespace n ON n.oid = t.relnamespace
    WHERE t.relname = $1 AND n.nspname = $2
    ORDER BY i.relname
  ".

Definition getForeignKeysSql : string :=
"
    SELECT
      tc.constraint_name,
      kcu.column_name,
      ccu.table_schema AS foreign_table_schema,
      ccu.table_name AS foreign_table_name,
      ccu.column_name AS foreign_column_name
    FROM information_schema.table_constraints AS tc
    JOIN information_schema.key_column_usage AS kcu
      ON tc.constraint_name = kcu.constraint_name
      AND tc.table_schema = kcu.table_schema
    JOIN information_schema.constraint_column_usage AS ccu
      ON ccu.constraint_name = tc.constraint_name
      AND ccu.table_schema = tc.table_schema
    WHERE tc.constraint_type = 'FOREIGN KEY'
      AND tc.table_schema = $1
      AND tc.table_name = $2
    ORDER BY tc.constraint_name
  ".

Definition columnQuery : string :=
"
    SELECT
      c.column_name,
      c.data_type,
      c.character_maximum_length,
      c.numeric_precision,
      c.numeric_scale,
      c.is_nullable,
      c.column_default
    FROM information_schema.columns c
    WHERE c.table_schema = $1 AND c.table_name = $2
    ORDER BY c.ordinal_position
  ".

(** [String (v)], as a template literal converts a value: a number in
    decimal (the integers of the model are below 10^21), an array by its
    elements joined by commas, [null] and [undefined] among them giving the
    empty text, any other object by its tag. *)
Fixpoint toString (v : value) : string :=
  match v with
  | VUndefined => "undefined"
  | VNull => "null"
  | VBool b => if b then "true" else "false"
  | VNum (Num z) => ofInteger z
  | VNum NaN => "NaN"
  | VNum (Infinity negative) => if negative then "-Infinity" else "Infinity"
  | VStr s => s
  | VArr items =>
      join ","
        (map (fun x => match x with
                       | VUndefined | VNull => ""
                       | _ => toString x
                       end) items)
  | VObj _ => "[object Object]"
  end.

(** [a === b] on values.  The values compared come from different rows, so
    two arrays or objects are two objects, never the same one. *)
Definition strictEqual (a b : value) : bool :=
  match a, b with
  | VUndefined, VUndefined => true
  | VNull, VNull => true
  | VBool x, VBool y => Bool.eqb x y
  | VNum x, VNum y => strictEq x y
  | VStr x, VStr y => String.eqb x y
  | _, _ => false
  end.

(** [SameValueZero], the equality of the keys of a [Map]: as [===], but
    [NaN] equals itself. *)
Definition sameValueZero (a b : value) : bool :=
  match a, b with
  | VNum NaN, VNum NaN => true
  | _, _ => strictEqual a b
  end.

(** A [Map] from column names to rows, in insertion order. *)
Definition ColumnMap : Type := list (value * Row).

Fixpoint ColumnMap_get (m : ColumnMap) (k : value) : option Row :=
  match m with
  | [] => None
  | (k', r) :: rest => if sameValueZero k' k then Some r else ColumnMap_get rest k
  end.

Definition ColumnMap_has (m : ColumnMap) (k : value) : bool :=
  match ColumnMap_get m k with
  | Some _ => true
  | None => false
  end.

Fixpoint ColumnMap_set (m : ColumnMap) (k : value) (r : Row) : ColumnMap :=
  match m with
  | [] => [(k, r)]
  | (k', r') :: rest =>
      if sameValueZero k' k then (k', r) :: rest else (k', r') :: ColumnMap_set rest k r
  end.

(** [new Map (rows.map (r => [r.column_name, r]))]. *)
Definition columnsOf (rows : list Row) : ColumnMap :=
  fold_left (fun m r => ColumnMap_set m (field "column_name" r) r) rows [].

(** The [diffs] of two columns of the same name. *)
Definition columnDiffs (sourceCol targetCol : Row) : list string :=
  List.app
    (if negb (strictEqual (field "data_type" sourceCol) (field "data_type" targetCol))
     then [ "data_type: " ++ toString (field "data_type" sourceCol) ++ " -> "
            ++ toString (field "data_type" targetCol) ]
     else [])
    (List.app
       (if negb (strictEqual (field "is_nullable" sourceCol) (field "is_nullable" targetCol))
        then [ "is_nullable: " ++ toString (field "is_nullable" sourceCol) ++ " -> "
               ++ toString (field "is_nullable" targetCol) ]
        else [])
       (if negb (strictEqual (field "character_maximum_length" sourceCol)
                             (field "character_maximum_length" targetCol))
        then [ "max_length: " ++ toString (field "character_maximum_length" sourceCol)
               ++ " -> " ++ toString (field "character_maximum_length" targetCol) ]
        else [])).

(** The first loop of [handleCompareSchemas], over the columns of the
    source: the names pushed to [onlyInSource] and the records pushed to
    [differences], in the order of the pushes. *)
Fixpoint checkSource (targetColumns : ColumnMap) (entries : ColumnMap)
  : list value * list value :=
  match entries with
  | [] => ([], [])
  | (colName, sourceCol) :: rest =>
      let (onlyInSource, differences) := checkSource targetColumns rest in
      match ColumnMap_get targetColumns colName with
      | None => (colName :: onlyInSource, differences)
      | Some targetCol =>
          let diffs := columnDiffs sourceCol targetCol in
          if Nat.ltb 0 (length diffs)
          then (onlyInSource,
                VObj [ ("column", colName); ("differences", VArr (map VStr diffs)) ]
                :: differences)
          else (onlyInSource, differences)
      end
  end.

(** The second loop, over the names of the target. *)
Definition checkTarget (sourceColumns targetColumns : ColumnMap) : list value :=
  filter (fun colName => negb (ColumnMap_has sourceColumns colName))
         (map fst targetColumns).

(** [Promise.all] of two promises: both values, or the rejection that came
    first; [targetFirst] tells which one did when both reject. *)
Definition promiseAll2 {A} (targetFirst : bool) (a b : completion A) : completion (A * A) :=
  match a, b with
  | Return x, Return y => Return (x, y)
  | Throw e, Return _ => Throw e
  | Return _, Throw e => Throw e
  | Throw ea, Throw eb => Throw (if targetFirst then eb else ea)
  end.

(** The limit of [handleGetTableSample]. *)
Definition sampleLimit (limit : option Z) : Z :=
  Z.min (Z.max 1 (orDefault 10%Z limit)) 100.

Section Handlers.
Variable out : Outside.

Definition handleListSchemas (connection : string) : M value :=
  db <- getConnection connection ;;
  result <- pool_query out db listSchemasSql None ;;
  ret (VArr (map VObj (rows result))).

Definition handleListTables (connection : string) (schema : option string) : M value :=
  let schema := orDefault "public" schema in
  db <- getConnection connection ;;
  result <- pool_query out db listTablesSql (Some [VStr schema]) ;;
  ret (VArr (map VObj (rows result))).

Definition handleDescribeTable (connection table : string) (schema : option string)
  : M value :=
  let schema := orDefault "public" schema in
  db <- getConnection connection ;;
  result <- pool_query out db describeTableSql (Some [VStr schema; VStr table]) ;;
  ret (VArr (map VObj (rows result))).

Definition handleGetTableSample (connection table : string) (schema : option string)
                                (limit : option Z) : M value :=
  let schema := orDefault "public" schema in
  let effectiveLimit := sampleLimit limit in
  db <- getConnection connection ;;
  let query := "SELECT * FROM " ++ escapeIdentifier schema ++ "."
               ++ escapeIdentifier table ++ " LIMIT $1" in
  result <- pool_query out db query (Some [VNum (Num effectiveLimit)]) ;;
  ret (VArr (map VObj (rows result))).

Definition handleGetTableCount (connection table : string) (schema : option string)
  : M value :=
  let schema := orDefault "public" schema in
  db <- getConnection connection ;;
  let query := "SELECT COUNT(*) as count FROM " ++ escapeIdentifier schema ++ "."
               ++ escapeIdentifier table in
  result <- pool_query out db query None ;;
  n <- await (firstCount out (Return result)) ;;
  ret (VObj [ ("count", VNum n) ]).

Definition handleGetIndexes (connection table : string) (schema : option string)
  : M value :=
  let schema := orDefault "public" schema in
  db <- getConnection connection ;;
  result <- pool_query out db getIndexesSql (Some [VStr table; VStr schema]) ;;
  ret (VArr (map VObj (rows result))).

Definition handleGetForeignKeys (connection table : string) (schema : option string)
  : M value :=
  let schema := orDefault "public" schema in
  db <- getConnection connection ;;
  result <- pool_query out db getForeignKeysSql (Some [VStr schema; VStr table]) ;;
  ret (VArr (map VObj (rows result))).

Definition handleCompareSchemas (targetFirst : bool)
                                (sourceConnection targetConnection table : string)
                                (schema : option string) : M value :=
  let schema := orDefault "public" schema in
  sourceDb <- getConnection sourceConnection ;;
  targetDb <- getConnection targetConnection ;;
  sourceAnswer <- settle (pool_query out sourceDb columnQuery
                            (Some [VStr schema; VStr table])) ;;
  targetAnswer <- settle (pool_query out targetDb columnQuery
                            (Some [VStr schema; VStr table])) ;;
  results <- await (promiseAll2 targetFirst sourceAnswer targetAnswer) ;;
  let sourceColumns := columnsOf (rows (fst results)) in
  let targetColumns := columnsOf (rows (snd results)) in
  let (onlyInSource, differences) := checkSource targetColumns sourceColumns in
  let onlyInTarget := checkTarget sourceColumns targetColumns in
  let isIdentical :=
    (Nat.eqb (length differences) 0 && Nat.eqb (length onlyInSource) 0
     && Nat.eqb (length onlyInTarget) 0)%bool in
  ret (VObj [ ("table", VStr table);
              ("schema", VStr schema);
              ("source_connection", VStr sourceConnection);
              ("target_connection", VStr targetConnection);
              ("is_identical", VBool isIdentical);
              ("source_column_count", VNum (Num (Z.of_nat (length sourceColumns))));
              ("target_column_count", VNum (Num (Z.of_nat (length targetColumns))));
              ("only_in_source", VArr onlyInSource);
              ("only_in_target", VArr onlyInTarget);
              ("differences", VArr differences) ]).

(** The handler of [SIGINT]: the pools are ended one after the other, in
    the order of the registry; the process exits when the loop is through. *)
Fixpoint endAll (entries : Connections) : M unit :=
  match entries with
  | [] => ret tt
  | (_, conn) :: rest => pool_end out (pool conn) ;;; endAll rest
  end.

Definition onSIGINT : M unit :=
  m <- readConnections ;; endAll m.

End Handlers.

(** How SQL reads a quoted identifier at the head of a text: the
    identifier and the text after its closing double quote. *)
Fixpoint lexQuotedBody (s : string) : option (string * string) :=
  match s with
  | EmptyString => None
  | String c s' =>
      if Ascii.eqb c dquote
      then match s' with
           | String d s'' =>
               if Ascii.eqb d dquote
               then match lexQuotedBody s'' with
                    | Some (body, rest) => Some (String dquote body, rest)
                    | None => None
                    end
               else Some (EmptyString, s')
           | EmptyString => Some (EmptyString, EmptyString)
           end
      else match lexQuotedBody s' with
           | Some (body, rest) => Some (String c body, rest)
           | None => None
           end
  end.

Definition lexQuoted (s : string) : option (string * string) :=
  match s with
  | EmptyString => None
  | String c s' => if Ascii.eqb c dquote then lexQuotedBody s' else None
  end.

(** A qualified name at the head of a text: a quoted identifier, a dot, a
    quoted identifier. *)
Definition lexQualified (s : string) : option (string * string * string) :=
  match lexQuoted s with
  | Some (schema, String "." rest) =>
      match lexQuoted rest with
      | Some (table, rest') => Some (schema, table, rest')
      | None => None
      end
  | _ => None
  end.

End Tools.

(** ** Calls in flight

    An [async] handler runs until it awaits the driver and goes on when the
    driver has answered; the calls that arrive meanwhile run in between. *)

Module InFlight.
Import JSString JS Registry Guard Server.
Local Open Scope js_scope.

(** [pool.query (sql, params)] up to its promise: the request is sent; its
    rank among the requests sent is what its answer is known by. *)
Definition pool_query_sent (p : Pool) (sql : string) (params : option (list value)) : M nat :=
  fun w => (Return (length (sent w)),
            mkWorld (connections w) (sent w ++ [Query p sql params])).

(** A call at an [await]: the request it waits for, and how it goes on with
    the answer. *)
Record Suspended (A : Type) : Type := suspend {
  awaited : nat;
  resume : completion QueryResult -> M A
}.
Arguments suspend {A} awaited resume.
Arguments awaited {A} s.
Arguments resume {A} s.

(** [handleAddConnection] from the answer of the probe on: the rest of the
    [try] block and the [catch]. *)
Definition handleAddConnection_resume (name host : string) (port : Z)
                                      (database user : string)
                                      (answer : completion QueryResult) : M value :=
  tryCatch
    (await answer ;;;
     ret (VObj [ ("success", VBool true);
                 ("message", VStr ("Connection '" ++ name ++ "' added successfully"));
                 ("connection", VObj [ ("name", VStr name);
                                       ("host", VStr host);
                                       ("port", VNum (Num port));
                                       ("database", VStr database);
                                       ("user", VStr user) ]) ]))
    (fun error => connections_delete name ;;; throw error).

(** [handleAddConnection] up to the [await] of the probe. *)
Definition handleAddConnection_start (name host : string) (port : option Z)
                                     (database user password : string)
  : M (Suspended value) :=
  let port := orDefault 5432%Z port in
  addConnection name host port database user password ;;;
  tryCatch
    (pool <- getConnection name ;;
     request <- pool_query_sent pool "SELECT 1" None ;;
     ret (suspend request (handleAddConnection_resume name host port database user)))
    (fun error => connections_delete name ;;; throw error).

(** A call that no other call runs into: it goes on at once, with the
    driver's answer to the request it waits for. *)
Definition runThrough {A} (out : Outside) (m : M (Suspended A)) : M A :=
  s <- m ;; resume s (queryAnswer out (awaited s)).

End InFlight.

(** ** Predicates on handlers *)

Module Laws.
Import JS Registry Server.

(** A computation that leaves the registry as it finds it. *)
Definition frame {A} (m : M A) : Prop :=
  forall w, connections (snd (m w)) = connections w.

(** The names of a registry are pairwise different. *)
Definition unique (m : Connections) : Prop := NoDup (Map_keys m).

(** How one tool call may change the registry: not at all, by one entry
    put last under a name that was not there, or by the removal of a name. *)
Definition step (m m' : Connections) : Prop :=
  m' = m
  \/ (exists name e, Map_get m name = None /\ m' = (m ++ [(name, e)])%list)
  \/ (exists name, m' = Map_delete m name).

(** A record of [handleCompareRowCounts] that is an error entry: it has the
    key [error]. *)
Definition isErrorEntry (c : value) : bool :=
  existsb (String.eqb "error") (keys c).

(** A record of the loop is counted in at most one of the three totals, and
    in one of the first two exactly when it is no error entry. *)
Definition countedOnce (c : value) : Prop :=
  (if matchIs true c then 1 else 0) + (if matchIs false c then 1 else 0)
  + (if isErrorEntry c then 1 else 0) = 1
  /\ (hasError c = true -> isErrorEntry c = true).

(** A column map whose keys are pairwise different under the equality of
    keys, as [Map] keeps them. *)
Fixpoint distinct (m : Tools.ColumnMap) : Prop :=
  match m with
  | [] => True
  | (k, _) :: rest =>
      (forall k2 r2, In (k2, r2) rest -> Tools.sameValueZero k k2 = false)
      /\ distinct rest
  end.

(** An example for the comparison of schemas: a driver that answers the
    requests of even rank with the column [id] and the others with the
    column [key]. *)
Definition columnsDriver : Outside :=
  mkOutside (fun n => Return (mkResult (VNum (Num 1))
                        [ [ ("column_name", VStr (if Nat.even n then "id" else "key"));
                            ("data_type", VStr "integer") ] ]))
            (fun _ => Return tt) (fun _ => NaN) (fun _ => mkError "") (mkError "").

(** A record of [handleCompareRowCounts] says [match] exactly when its two
    counts are the same number, which [NaN] never is; its [difference] is
    the number 0 exactly when they are the same finite number, and [NaN]
    when they are the same infinity. *)
Definition matchIsSameCount (c : value) : Prop :=
  (matchIs true c = true
   <-> exists n, n <> NaN /\ fieldOf "source_count" c = VNum n
                 /\ fieldOf "target_count" c = VNum n)
  /\ (fieldOf "difference" c = VNum (Num 0)
      <-> exists z, fieldOf "source_count" c = VNum (Num z)
                    /\ fieldOf "target_count" c = VNum (Num z))
  /\ (forall negative,
        fieldOf "source_count" c = VNum (Infinity negative) ->
        fieldOf "target_count" c = VNum (Infinity negative) ->
        fieldOf "difference" c = VNum NaN).

(** The message of an error entry, read off the record: a record of the
    two keys [table] and [error], the second a text. *)
Definition errorMessageOf (c : value) : option string :=
  match c with
  | VObj [ (k1, _); (k2, VStr text) ] =>
      if (String.eqb k1 "table" && String.eqb k2 "error")%bool then Some text else None
  | _ => None
  end.

Definition errorWithText (c : value) : bool :=
  match errorMessageOf c with
  | Some text => negb (String.eqb text "")
  | None => false
  end.

Definition errorWithoutText (c : value) : bool :=
  match errorMessageOf c with
  | Some text => String.eqb text ""
  | None => false
  end.

(** The verdict of a comparison, read off the record: a record of the five
    keys of a comparison, the last a boolean. *)
Definition verdictOf (c : value) : option bool :=
  match c with
  | VObj [ (k1, _); (k2, _); (k3, _); (k4, _); (k5, VBool b) ] =>
      if (String.eqb k1 "table" && String.eqb k2 "source_count"
          && String.eqb k3 "target_count" && String.eqb k4 "difference"
          && String.eqb k5 "match")%bool
      then Some b else None
  | _ => None
  end.

Definition hasVerdict (b : bool) (c : value) : bool :=
  match verdictOf c with
  | Some b' => Bool.eqb b b'
  | None => false
  end.

(** How SQL reads an unsigned decimal numeral: the value of a run of
    digits that is not empty and has no leading zero, the numeral 0
    apart. *)
Definition digitValue (c : ascii) : option Z :=
  let n := N_of_ascii c in
  if (N.leb 48 n && N.leb n 57)%bool then Some (Z.of_N n - 48)%Z else None.

Fixpoint readDigits (acc : Z) (s : string) : option Z :=
  match s with
  | EmptyString => Some acc
  | String c s' =>
      match digitValue c with
      | Some d => readDigits (10 * acc + d) s'
      | None => None
      end
  end.

Definition readNumeral (s : string) : option Z :=
  match s with
  | EmptyString => None
  | String c s' =>
      match digitValue c, s' with
      | Some 0%Z, EmptyString => Some 0%Z
      | Some 0%Z, String _ _ => None
      | _, _ => readDigits 0 s
      end
  end.


(** A driver that rejects the first request with an error without message
    and answers the others with the count 3. *)
Definition silentDriver : Outside :=
  mkOutside (fun n => if Nat.eqb n 0
                      then Throw (mkError "")
                      else Return (mkResult (VNum (Num 1)) [[("count", VStr "3")]]))
            (fun _ => Return tt)
            (fun v => match v with VStr "3" => Num 3 | _ => NaN end)
            (fun _ => mkError "identifier.replace is not a function")
            (mkError "Cannot read properties of undefined (reading 'count')").

(** A driver whose counts are the numeral 2 followed by 308 zeros, beyond
    the largest double: [parseInt] reads it as the infinity. *)
Definition hugeCount : string := String.concat "" ("2" :: repeat "0" 308).

Definition overflowDriver : Outside :=
  mkOutside (fun _ => Return (mkResult (VNum (Num 1)) [[("count", VStr hugeCount)]]))
            (fun _ => Return tt)
            (fun v => match v with
                      | VStr text => if String.eqb text hugeCount then Infinity false else NaN
                      | _ => NaN
                      end)
            (fun _ => mkError "identifier.replace is not a function")
            (mkError "Cannot read properties of undefined (reading 'count')").

(** The text of the statement that lists the tables of a schema. *)
Definition listingSql : string :=
  "SELECT table_name FROM information_schema.tables WHERE table_schema = $1 AND table_type = 'BASE TABLE' ORDER BY table_name".

(** A row whose column name can be a key that is found again, and whose
    three compared cells are equal to themselves under [===]: texts,
    integers, booleans, [null] and [undefined] are, [NaN] and objects are
    not. *)
Definition plainColumn (row : Row) : bool :=
  (Tools.sameValueZero (field "column_name" row) (field "column_name" row)
   && Tools.strictEqual (field "data_type" row) (field "data_type" row)
   && Tools.strictEqual (field "is_nullable" row) (field "is_nullable" row)
   && Tools.strictEqual (field "character_maximum_length" row)
                        (field "character_maximum_length" row))%bool.

End Laws.

(** ** The spreadsheet reader *)

Module Spreadsheet.
Import JSString JS.

(** A workbook of the parser: the names of its sheets and, by property
    access, its sheets ([undefined] being one of the things a [WorkSheet]
    variable may hold). *)
Record WorkBook (WorkSheet : Type) : Type := mkWorkBook {
  SheetNames : list string;
  Sheets : string -> WorkSheet
}.
Arguments SheetNames {WorkSheet} w.
Arguments Sheets {WorkSheet} w.

(** A decoded range: start and end, row and column. *)
Record Range : Type := mkRange { s_r : Z; s_c : Z; e_r : Z; e_c : Z }.

(** What lies outside the repository: [path.resolve], [fs.existsSync],
    [path.extname]; of the parser [XLSX.readFile], [XLSX.utils.sheet_to_json]
    (the flag tells whether [header: 1] is passed), [decode_range],
    [encode_cell]; and the reading of a sheet: its [!ref] and the [v] of the
    cell at an address, when there is a cell. *)
Record Outside (WorkSheet : Type) : Type := mkOutside {
  resolve : string -> string;
  existsSync : string -> bool;
  extname : string -> string;
  readFile : string -> completion (WorkBook WorkSheet);
  sheet_to_json : bool -> WorkSheet -> completion value;
  decode_range : string -> completion Range;
  encode_cell : Z -> Z -> string;
  ref : WorkSheet -> option string;
  cell_v : WorkSheet -> string -> option value
}.
Arguments resolve {WorkSheet} o.
Arguments existsSync {WorkSheet} o.
Arguments extname {WorkSheet} o.
Arguments readFile {WorkSheet} o.
Arguments sheet_to_json {WorkSheet} o.
Arguments decode_range {WorkSheet} o.
Arguments encode_cell {WorkSheet} o.
Arguments ref {WorkSheet} o.
Arguments cell_v {WorkSheet} o.

Definition supportedExtensions : list string := [ ".xlsx"; ".xls"; ".csv"; ".ods" ].

(** [Array.prototype.includes] on texts. *)
Definition Array_includes (l : list string) (x : string) : bool :=
  existsb (String.eqb x) l.

Definition FileNotFoundError (resolvedPath : string) : Error :=
  mkError ("File not found: " ++ resolvedPath).

Definition UnsupportedFormatError (ext : string) : Error :=
  mkError ("Unsupported file format: " ++ ext ++ ". Supported formats: "
           ++ join ", " supportedExtensions).

Definition SheetNotFoundError (targetSheet : string) (names : list string) : Error :=
  mkError ("Sheet " ++ String Guard.dquote targetSheet ++ String Guard.dquote
           " not found. Available sheets: " ++ join ", " names).

(** The integers from [lo] up to [hi], as a [for] loop visits them. *)
Definition upTo (lo hi : Z) : list Z :=
  map (fun i => (lo + Z.of_nat i)%Z) (seq 0 (Z.to_nat (hi - lo + 1))).

(** [x || d] on a text that may be absent. *)
Definition textOr (d : string) (x : option string) : string :=
  match x with
  | Some t => if String.eqb t "" then d else t
  | None => d
  end.

Section Tools.
Variable WorkSheet : Type.
Variable out : Outside WorkSheet.

Definition validateFilePath (filePath : string) : completion string :=
  let resolvedPath := resolve out filePath in
  if negb (existsSync out resolvedPath) then Throw (FileNotFoundError resolvedPath)
  else
    let ext := toLowerCase (extname out resolvedPath) in
    if negb (Array_includes supportedExtensions ext)
    then Throw (UnsupportedFormatError ext)
    else Return resolvedPath.

(** [sheetName || workbook.SheetNames[0]]; with no sheet at all the name is
    [undefined], which no list of names includes. *)
Definition targetSheetOf (workbook : WorkBook WorkSheet) (sheetName : option string) : string :=
  textOr (hd "undefined" (SheetNames workbook)) sheetName.

Definition getWorksheet (workbook : WorkBook WorkSheet) (sheetName : option string)
  : completion WorkSheet :=
  let targetSheet := targetSheetOf workbook sheetName in
  if negb (Array_includes (SheetNames workbook) targetSheet)
  then Throw (SheetNotFoundError targetSheet (SheetNames workbook))
  else Return (Sheets workbook targetSheet).

(** The tools log the paths they hand to the parser. *)
Definition T (A : Type) : Type := list string -> completion A * list string.

Definition XLSX_readFile (resolvedPath : string) : T (WorkBook WorkSheet) :=
  fun parsed => (readFile out resolvedPath, (parsed ++ [resolvedPath])%list).

Definition lift {A} (c : completion A) : T A := fun parsed => (c, parsed).

Definition andThen {A B} (m : T A) (k : A -> T B) : T B :=
  fun parsed =>
    match m parsed with
    | (Return a, parsed') => k a parsed'
    | (Throw e, parsed') => (Throw e, parsed')
    end.

(** The [try]/[catch] every tool wraps its body in. *)
Definition tool (body : T value) (parsed : list string) : Server.ToolResult * list string :=
  match body parsed with
  | (Return v, parsed') => (Server.Content v, parsed')
  | (Throw e, parsed') => (Server.IsError ("Error: " ++ message e), parsed')
  end.

Definition read_spreadsheet (filePath : string) (sheetName : option string)
                            (useHeader : bool) :=
  tool (andThen (lift (validateFilePath filePath)) (fun resolvedPath =>
        andThen (XLSX_readFile resolvedPath) (fun workbook =>
        andThen (lift (getWorksheet workbook sheetName)) (fun worksheet =>
        lift (sheet_to_json out (negb useHeader) worksheet))))).

Definition list_sheets (filePath : string) :=
  tool (andThen (lift (validateFilePath filePath)) (fun resolvedPath =>
        andThen (XLSX_readFile resolvedPath) (fun workbook =>
        lift (Return
                (VObj [ ("sheets", VArr (map VStr (SheetNames workbook)));
                        ("count", VNum (Num (Z.of_nat (length (SheetNames workbook))))) ]))))).

Definition cellOr_null (worksheet : WorkSheet) (row col : Z) : value :=
  match cell_v out worksheet (encode_cell out row col) with
  | Some v => v
  | None => VNull
  end.

Definition get_cell_range (filePath : string) (sheetName : option string)
                          (range : string) :=
  tool (andThen (lift (validateFilePath filePath)) (fun resolvedPath =>
        andThen (XLSX_readFile resolvedPath) (fun workbook =>
        andThen (lift (getWorksheet workbook sheetName)) (fun worksheet =>
        andThen (lift (decode_range out range)) (fun rangeObj =>
        lift (Return
                (VObj [ ("range", VStr range);
                        ("data",
                          VArr (map (fun row =>
                                       VArr (map (cellOr_null worksheet row)
                                               (upTo (s_c rangeObj) (e_c rangeObj))))
                                  (upTo (s_r rangeObj) (e_r rangeObj)))) ]))))))).

Definition get_sheet_info (filePath : string) (sheetName : option string) :=
  tool (andThen (lift (validateFilePath filePath)) (fun resolvedPath =>
        andThen (XLSX_readFile resolvedPath) (fun workbook =>
        let targetSheet := targetSheetOf workbook sheetName in
        andThen (lift (getWorksheet workbook sheetName)) (fun worksheet =>
        let range := ref out worksheet in
        andThen
          (lift (match range with
                 | Some r =>
                     if String.eqb r "" then Return (0%Z, 0%Z, "", "")
                     else
                       match decode_range out r with
                       | Throw e => Throw e
                       | Return rangeObj =>
                           Return ((e_r rangeObj - s_r rangeObj + 1)%Z,
                                   (e_c rangeObj - s_c rangeObj + 1)%Z,
                                   encode_cell out (s_r rangeObj) (s_c rangeObj),
                                   encode_cell out (e_r rangeObj) (e_c rangeObj))
                       end
                 | None => Return (0%Z, 0%Z, "", "")
                 end))
          (fun '(rowCount, colCount, startCell, endCell) =>
        lift (Return
                (VObj [ ("sheetName", VStr targetSheet);
                        ("usedRange", VStr (textOr "empty" range));
                        ("startCell", VStr (textOr "N/A" (Some startCell)));
                        ("endCell", VStr (textOr "N/A" (Some endCell)));
                        ("rowCount", VNum (Num rowCount));
                        ("columnCount", VNum (Num colCount));
                        ("totalSheets",
                          VNum (Num (Z.of_nat (length (SheetNames workbook))))) ]))))))).

End Tools.
(** The paths a tool may hand to the parser for an argument [filePath]:
    the resolved path when the validation passes, none otherwise. *)
Definition mayParse {WorkSheet} (out : Outside WorkSheet) (filePath : string) : list string :=
  match validateFilePath WorkSheet out filePath with
  | Return resolvedPath => [resolvedPath]
  | Throw _ => []
  end.

(** An example: a file system with the single file [/data/Report.XLSX], the
    working directory being [/data], and a parser that finds one sheet. *)
Definition exampleOutside : Outside unit :=
  mkOutside unit
    (fun p => "/data/" ++ p)
    (String.eqb "/data/Report.XLSX")
    (fun p => if String.eqb p "/data/Report.XLSX" then ".XLSX"
              else if String.eqb p "/data/notes.txt" then ".txt" else "")
    (fun _ => Return (mkWorkBook unit ["Sheet1"] (fun _ => tt)))
    (fun _ _ => Return (VArr []))
    (fun _ => Return (mkRange 0 0 0 0))
    (fun _ _ => "A1")
    (fun _ => None)
    (fun _ _ => None).

End Spreadsheet.

(** ** An example for the ranges *)

Module Samples.
Import JS Spreadsheet.

(** A parser whose every cell holds 7 and whose every range is the two
    rows and three columns from the origin. *)
Definition gridOutside : Outside unit :=
  mkOutside unit (fun p => p) (fun _ => true) (fun _ => ".csv")
    (fun _ => Return (mkWorkBook unit ["Sheet1"] (fun _ => tt)))
    (fun _ _ => Return (VArr []))
    (fun _ => Return (mkRange 0 0 1 2))
    (fun _ _ => "cell")
    (fun _ => None)
    (fun _ _ => Some (VNum (Num 7))).

(** The same parser on sheets whose used range is that range. *)
Definition usedOutside : Outside unit :=
  mkOutside unit (fun p => p) (fun _ => true) (fun _ => ".csv")
    (fun _ => Return (mkWorkBook unit ["Sheet1"] (fun _ => tt)))
    (fun _ _ => Return (VArr []))
    (fun _ => Return (mkRange 0 0 1 2))
    (fun r c => if Z.eqb r 0 then "A1" else "C2")
    (fun _ => Some "A1:C2")
    (fun _ _ => Some (VNum (Num 7))).

(** A parser that decodes every range as one that ends, row 1, before it
    starts, row 3. *)
Definition reversedOutside : Outside unit :=
  mkOutside unit (fun p => p) (fun _ => true) (fun _ => ".csv")
    (fun _ => Return (mkWorkBook unit ["Sheet1"] (fun _ => tt)))
    (fun _ _ => Return (VArr []))
    (fun _ => Return (mkRange 3 0 1 0))
    (fun _ _ => "cell")
    (fun _ => Some "A4:A2")
    (fun _ _ => Some (VNum (Num 7))).

End Samples.

(* ================================================================== *)
(** * Properties *)

(** ** Strings *)

Module StringFacts.
Import JSString.

Lemma append_assoc (a b c : string) : (a ++ b) ++ c = a ++ (b ++ c).
Proof. induction a as [|x a IH]; simpl; [reflexivity | now rewrite IH]. Qed.

Lemma append_empty_r (a : string) : a ++ "" = a.
Proof. induction a as [|x a IH]; simpl; [reflexivity | now rewrite IH]. Qed.

Lemma length_append (a b : string) :
  String.length (a ++ b) = String.length a + String.length b.
Proof. induction a as [|x a IH]; simpl; [reflexivity | now rewrite IH]. Qed.

Lemma toLowerCase_append (a b : string) :
  toLowerCase (a ++ b) = toLowerCase a ++ toLowerCase b.
Proof. induction a as [|x a IH]; simpl; [reflexivity | now rewrite IH]. Qed.

Lemma toLowerCase_length (a : string) :
  String.length (toLowerCase a) = String.length a.
Proof. induction a as [|x a IH]; simpl; [reflexivity | now rewrite IH]. Qed.

Lemma startsWith_spec (s p : string) :
  startsWith s p = true <-> exists rest, s = p ++ rest.
Proof.
  revert s; induction p as [|a p IH]; intros s; simpl.
  - split; [intros _; now exists s | reflexivity].
  - destruct s as [|b s].
    + split; [discriminate | intros [rest H]; discriminate].
    + rewrite andb_true_iff, Ascii.eqb_eq, IH. split.
      * intros [-> [rest ->]]. now exists rest.
      * intros [rest H]. injection H as -> ->. split; [reflexivity | now exists rest].
Qed.

Lemma includes_spec (s p : string) :
  includes s p = true <-> exists pre post, s = pre ++ p ++ post.
Proof.
  induction s as [|c s IH]; simpl.
  - rewrite orb_false_r, startsWith_spec. split.
    + intros [rest H]. now exists "", rest.
    + intros [pre [post H]]. destruct pre; [now exists post | discriminate].
  - rewrite orb_true_iff, startsWith_spec, IH. split.
    + intros [[rest H] | [pre [post H]]].
      * now exists "", rest.
      * exists (String c pre), post. simpl. now rewrite H.
    + intros [pre [post H]]. destruct pre as [|d pre]; simpl in H.
      * left. now exists post.
      * right. injection H as _ H. now exists pre, post.
Qed.

Lemma lastOr_append (d : option ascii) (a b : string) :
  lastOr d (a ++ b) = lastOr (lastOr d a) b.
Proof. revert d; induction a as [|x a IH]; intros d; simpl; [reflexivity | apply IH]. Qed.

(** [trimEnd] unfolded one code unit. *)
Lemma trimEnd_cons (c : ascii) (s : string) :
  trimEnd (String c s) =
    if (isWhiteSpace c && String.eqb (trimEnd s) "")%bool
    then "" else String c (trimEnd s).
Proof.
  simpl. destruct (trimEnd s); simpl.
  - destruct (isWhiteSpace c); reflexivity.
  - now rewrite andb_false_r.
Qed.

(** What [trim] removes is white space on both sides, and nothing else:
    the trimmed text is a contiguous part of the input. *)
Lemma trimStart_split (s : string) :
  exists ws, s = ws ++ trimStart s /\ allWhiteSpace ws.
Proof.
  induction s as [|c s [ws [H1 H2]]]; simpl.
  - exists "". split; [reflexivity | intros c []].
  - destruct (isWhiteSpace c) eqn:E.
    + exists (String c ws). split; [simpl; now rewrite <- H1 |].
      intros d [<- | Hd]; [exact E | now apply H2].
    + exists "". split; [reflexivity | intros d []].
Qed.

Lemma trimEnd_split (s : string) :
  exists ws, s = trimEnd s ++ ws /\ allWhiteSpace ws.
Proof.
  induction s as [|c s [ws [H1 H2]]].
  - exists "". split; [reflexivity | intros c []].
  - rewrite trimEnd_cons. destruct (isWhiteSpace c) eqn:E; simpl.
    + destruct (String.eqb (trimEnd s) "") eqn:E'.
      * apply String.eqb_eq in E'. rewrite E' in H1. simpl in H1.
        exists (String c ws). split; [now rewrite <- H1 |].
        intros d [<- | Hd]; [exact E | now apply H2].
      * exists ws. split; [simpl; now rewrite <- H1 | exact H2].
    + exists ws. split; [simpl; now rewrite <- H1 | exact H2].
Qed.

Lemma trim_split (s : string) :
  exists ws1 ws2, s = ws1 ++ trim s ++ ws2 /\ allWhiteSpace ws1 /\ allWhiteSpace ws2.
Proof.
  destruct (trimStart_split s) as [ws1 [H1 A1]].
  destruct (trimEnd_split (trimStart s)) as [ws2 [H2 A2]].
  exists ws1, ws2. unfold trim. now rewrite <- H2, <- H1.
Qed.

End StringFacts.

(** ** Numbers *)

Module NumberFacts.
Import JS.

(** Rounding to a double gives 0 for 0 only. *)
Lemma toDouble_zero (d : Z) : toDouble d = Num 0 <-> d = 0%Z.
Proof.
  unfold toDouble. cbv zeta.
  destruct (Z.leb_spec (Z.log2 (Z.abs d) + 1 - 53) 0) as [Hs | Hl].
  - split; [intros H; now injection H | intros ->; reflexivity].
  - set (a := Z.abs d) in *. set (k := (Z.log2 a + 1 - 53)%Z) in *.
    assert (0 < a)%Z as Ha.
    { destruct (Z.lt_ge_cases 0 a) as [H | H]; [exact H |].
      subst k. rewrite (Z.log2_nonpos a) in Hl by lia. lia. }
    assert (d <> 0%Z) as Hd by lia.
    assert (1 <= Z.shiftr a k)%Z as Hq.
    { rewrite Z.shiftr_div_pow2 by lia.
      pose proof (Z.log2_spec a Ha) as [Hlo _].
      assert (2 ^ k <= 2 ^ Z.log2 a)%Z by (apply Z.pow_le_mono_r; lia).
      assert (0 < 2 ^ k)%Z by (apply Z.pow_pos_nonneg; lia).
      apply Z.div_le_lower_bound; lia. }
    match goal with
    | |- context [Z.shiftl ?q' k] => set (q2 := q') in *
    end.
    assert (1 <= q2)%Z as Hq2.
    { subst q2. match goal with |- (_ <= (if ?c then _ else _))%Z => destruct c end; lia. }
    assert (0 < Z.shiftl q2 k)%Z as Hm.
    { rewrite Z.shiftl_mul_pow2 by lia.
      assert (0 < 2 ^ k)%Z by (apply Z.pow_pos_nonneg; lia). nia. }
    destruct (2 ^ 1024 <=? Z.shiftl q2 k)%Z.
    + split; [discriminate | intros; contradiction].
    + split; [| intros; contradiction].
      intros H. injection H as H. apply Z.mul_eq_0 in H as [H | H]; [| lia].
      exact (proj1 (Z.sgn_null_iff d) H).
Qed.

(** An integer of at most 53 bits is its own double. *)
Lemma toDouble_small (z : Z) : (Z.abs z < 2 ^ 53)%Z -> toDouble z = Num z.
Proof.
  intros H. unfold toDouble. cbv zeta.
  destruct (Z.leb_spec (Z.log2 (Z.abs z) + 1 - 53) 0) as [Hs | Hl]; [reflexivity |].
  assert (Z.log2 (Z.abs z) < 53)%Z; [| lia].
  destruct (Z.eq_dec (Z.abs z) 0) as [E | E]; [rewrite E; simpl; lia |].
  apply Z.log2_lt_pow2; lia.
Qed.

(** Two numbers are [===] when they are the same number and not [NaN]. *)
Lemma strictEq_same (a b : number) :
  strictEq a b = true <-> a = b /\ a <> NaN.
Proof.
  destruct a as [x | | s], b as [y | | t]; cbn [strictEq];
    try (split; [discriminate | intros [H1 H2]; congruence]).
  - rewrite Z.eqb_eq. split; [intros ->; split; [reflexivity | discriminate] |].
    intros [H _]. now injection H.
  - split; [intros H; apply Bool.eqb_prop in H; subst; split; [reflexivity | discriminate] |].
    intros [H _]. injection H as ->. apply Bool.eqb_reflx.
Qed.

(** A difference is 0 for the same finite number on both sides only. *)
Lemma sub_zero (a b : number) :
  sub a b = Num 0 <-> exists z, a = Num z /\ b = Num z.
Proof.
  destruct a as [x | | s], b as [y | | t]; cbn [sub];
    try (split; [discriminate | intros [z [H1 H2]]; discriminate]).
  - rewrite toDouble_zero. split.
    + intros H. exists x. split; [reflexivity |]. f_equal. lia.
    + intros [z [H1 H2]]. injection H1 as ->. injection H2 as ->. lia.
  - split; [destruct (Bool.eqb s t); discriminate |].
    intros [z [H1 H2]]; discriminate.
Qed.

Lemma sub_same_infinity (s : bool) : sub (Infinity s) (Infinity s) = NaN.
Proof. cbn [sub]. now rewrite Bool.eqb_reflx. Qed.

(** On the sample integers the rounding is the library's rounding to
    binary64, and on the sample doubles the subtraction is the library's
    subtraction of binary64. *)
Lemma toDouble_is_binary64_rounding :
  map toDouble someIntegers = map (fun z => ofBinary64 (binary64 z)) someIntegers.
Proof. vm_compute. reflexivity. Qed.

Lemma sub_is_binary64_subtraction :
  map (fun x => map (fun y => sub (Num x) (Num y)) someDoubles) someDoubles
  = map (fun x => map (fun y => ofBinary64 (SFsub 53 1024 (binary64 x) (binary64 y)))
                    someDoubles) someDoubles.
Proof. vm_compute. reflexivity. Qed.

(** Beyond 2^53 the difference is rounded: 2^60 less 1 is 2^60. *)
Example sub_rounds : sub (Num (2 ^ 60)) (Num 1) = Num (2 ^ 60).
Proof. vm_compute. reflexivity. Qed.

Example sub_infinities :
  sub (Infinity false) (Infinity false) = NaN
  /\ strictEq (Infinity false) (Infinity false) = true
  /\ strictEq NaN NaN = false.
Proof. repeat split. Qed.

End NumberFacts.

(** ** Regular expressions *)

Module RegExpFacts.
Import JSString RegExp StringFacts.

(** Facts about single code units are checked on the 256 of them. *)
Ltac each_unit c :=
  destruct c as [[] [] [] [] [] [] [] []]; vm_compute; try reflexivity; try discriminate.

Lemma isWordChar_lowerChar (c : ascii) : isWordChar (lowerChar c) = isWordChar c.
Proof. each_unit c. Qed.

Lemma Canonicalize_lowerChar (c : ascii) : Canonicalize (lowerChar c) = Canonicalize c.
Proof. each_unit c. Qed.

Lemma isWhiteSpace_lowerChar (c : ascii) : isWhiteSpace (lowerChar c) = isWhiteSpace c.
Proof. each_unit c. Qed.

Lemma whiteSpace_not_word (c : ascii) : isWhiteSpace c = true -> isWordChar c = false.
Proof. each_unit c. Qed.

Lemma lowerLetter_word (c : ascii) : isLowerLetter c = true -> isWordChar c = true.
Proof. each_unit c. Qed.

Lemma lowerLetter_not_space (c : ascii) : isLowerLetter c = true -> isWhiteSpace c = false.
Proof. each_unit c. Qed.

Lemma lowerLetter_code (c : ascii) :
  isLowerLetter (lowerChar c) = true -> (Canonicalize c + 32 = code (lowerChar c))%N.
Proof. each_unit c. Qed.

Lemma capital_code (c : ascii) :
  (N.leb 65 (Canonicalize c) && N.leb (Canonicalize c) 90)%bool = true ->
  (code (lowerChar c) = Canonicalize c + 32)%N.
Proof. each_unit c. Qed.

Lemma lowerLetter_Canonicalize (p : ascii) :
  isLowerLetter p = true ->
  (N.leb 65 (Canonicalize p) && N.leb (Canonicalize p) 90)%bool = true
  /\ (code p = Canonicalize p + 32)%N.
Proof. each_unit p; intros _; split; reflexivity. Qed.

Lemma code_inj (a b : ascii) : code a = code b -> a = b.
Proof.
  unfold code. intros H.
  rewrite <- (ascii_N_embedding a), <- (ascii_N_embedding b). now rewrite H.
Qed.

(** Under the flag [i] a lower-case letter of the pattern matches exactly
    the code units that lower-case to it. *)
Lemma charMatches_letter (p c : ascii) :
  isLowerLetter p = true ->
  charMatches true p c = true <-> lowerChar c = p.
Proof.
  intros Hp. unfold charMatches. rewrite N.eqb_eq.
  destruct (lowerLetter_Canonicalize p Hp) as [Hr Hc]. split.
  - intros E. rewrite E in Hr. apply code_inj.
    rewrite (capital_code c Hr), Hc. now rewrite E.
  - intros <-. pose proof (lowerLetter_code c Hp) as H. lia.
Qed.

Lemma isSome_option_map {A B} (f : A -> B) (o : option A) :
  isSome (option_map f o) = isSome o.
Proof. now destruct o. Qed.

Lemma literal_cons (p : ascii) (kw : string) :
  literal (String p kw) = Lit p :: literal kw.
Proof. reflexivity. Qed.

(** The literal part of an expression matches the text that lower-cases
    to the keyword, and the rest of the expression goes on after it. *)
Lemma matchHere_literal (kw : string) (rest : list atom) :
  lowerLetters kw = true ->
  forall prev s,
    isSome (matchHere true (literal kw ++ rest) prev s) = true <->
    exists mid post,
      s = mid ++ post /\ toLowerCase mid = kw /\
      isSome (matchHere true rest (lastOr prev mid) post) = true.
Proof.
  induction kw as [|p kw IH]; intros Hkw prev s.
  - simpl. split.
    + intros H. exists "", s. auto.
    + intros [mid [post [-> [Hm H]]]]. destruct mid; [exact H | discriminate].
  - simpl in Hkw. apply andb_true_iff in Hkw as [Hp Hkw].
    rewrite literal_cons. cbn [app matchHere]. destruct s as [|c s].
    + split; [discriminate |].
      intros [mid [post [E [Hm _]]]]. destruct mid; discriminate.
    + destruct (charMatches true p c) eqn:Ec.
      * apply (charMatches_letter p c Hp) in Ec.
        rewrite isSome_option_map, (IH Hkw). split.
        -- intros [mid [post [-> [Hm H]]]].
           exists (String c mid), post. simpl. rewrite Ec, Hm. auto.
        -- intros [mid [post [E [Hm H]]]]. destruct mid as [|d mid]; [discriminate |].
           simpl in E, Hm, H. injection E as <- ->. injection Hm as _ Hm.
           now exists mid, post.
      * split; [discriminate |].
        intros [mid [post [E [Hm _]]]]. destruct mid as [|d mid]; [discriminate |].
        simpl in E, Hm. injection E as <- _. injection Hm as Hm _.
        apply (charMatches_letter p c Hp) in Hm. congruence.
Qed.

Lemma toLowerCase_head_word (mid kw : string) (p : ascii) :
  toLowerCase mid = String p kw -> isLowerLetter p = true ->
  wordAt (head mid) = true.
Proof.
  destruct mid as [|c mid]; [discriminate |]. simpl. intros H Hp.
  injection H as H _. rewrite <- isWordChar_lowerChar, H. now apply lowerLetter_word.
Qed.

Lemma toLowerCase_last_word (kw : string) :
  lowerLetters kw = true ->
  forall mid d, toLowerCase mid = kw -> kw <> "" -> wordAt (lastOr d mid) = true.
Proof.
  induction kw as [|p kw IH]; intros Hkw mid d H Hne; [congruence |].
  destruct mid as [|c mid]; [discriminate |]. simpl in *.
  injection H as Hc Hm. apply andb_true_iff in Hkw as [Hp Hkw].
  destruct kw as [|q kw].
  - destruct mid; [| discriminate]. simpl.
    rewrite <- isWordChar_lowerChar, Hc. now apply lowerLetter_word.
  - apply (IH Hkw); [exact Hm | discriminate].
Qed.

Lemma matchHere_wordPattern (kw : string) :
  lowerLetters kw = true -> kw <> "" ->
  forall prev s,
    isSome (matchHere true (wordPattern kw) prev s) = true <->
    exists mid post,
      s = mid ++ post /\ toLowerCase mid = kw /\
      wordAt prev = false /\ wordAt (head post) = false.
Proof.
  intros Hkw Hne prev s. unfold wordPattern. cbn [app matchHere].
  destruct kw as [|p kw]; [congruence |].
  pose proof Hkw as Hkw'. simpl in Hkw'. apply andb_true_iff in Hkw' as [Hp _].
  split.
  - destruct (xorb (wordAt prev) (wordAt (head s))) eqn:Ex; [| discriminate].
    intros H. apply (matchHere_literal _ _ Hkw) in H as [mid [post [-> [Hm H]]]].
    exists mid, post. split; [reflexivity |]. split; [exact Hm |].
    pose proof (toLowerCase_head_word _ _ _ Hm Hp) as Hh.
    assert (head (mid ++ post) = head mid) as Eh by (destruct mid; [discriminate | reflexivity]).
    rewrite Eh, Hh in Ex. split; [now destruct (wordAt prev) |].
    simpl in H.
    rewrite (toLowerCase_last_word _ Hkw mid prev Hm Hne) in H.
    destruct (wordAt (head post)); [discriminate | reflexivity].
  - intros [mid [post [-> [Hm [Hprev Hpost]]]]].
    pose proof (toLowerCase_head_word _ _ _ Hm Hp) as Hh.
    assert (head (mid ++ post) = head mid) as Eh by (destruct mid; [discriminate | reflexivity]).
    rewrite Eh, Hh, Hprev. simpl xorb. cbv iota.
    apply (matchHere_literal _ _ Hkw). exists mid, post.
    split; [reflexivity |]. split; [exact Hm |]. simpl.
    now rewrite (toLowerCase_last_word _ Hkw mid prev Hm Hne), Hpost.
Qed.

Lemma search_isSome (ic : bool) (pat : list atom) (prev : option ascii) (s : string) :
  search ic pat prev s =
    (isSome (matchHere ic pat prev s) ||
       match s with
       | EmptyString => false
       | String c s' => search ic pat (Some c) s'
       end)%bool.
Proof. destruct s; simpl; destruct (matchHere ic pat prev _); reflexivity. Qed.

(** The search finds the keyword expression exactly where the text has a
    whole-word occurrence of the keyword. *)
Lemma search_wordPattern (kw : string) :
  lowerLetters kw = true -> kw <> "" ->
  forall s prev,
    search true (wordPattern kw) prev s = true <-> occursAfter prev kw s.
Proof.
  intros Hkw Hne. induction s as [|c s IH]; intros prev; rewrite search_isSome.
  - rewrite orb_false_r, (matchHere_wordPattern kw Hkw Hne). split.
    + intros [mid [post [E H]]]. exists "", mid, post. simpl. tauto.
    + intros [pre [mid [post [E [Hm [H1 H2]]]]]].
      destruct pre; [| discriminate]. simpl in *. now exists mid, post.
  - rewrite orb_true_iff, (matchHere_wordPattern kw Hkw Hne), IH. split.
    + intros [[mid [post [E H]]] | [pre [mid [post [E H]]]]].
      * exists "", mid, post. simpl. tauto.
      * exists (String c pre), mid, post. simpl. rewrite E. tauto.
    + intros [pre [mid [post [E [Hm [H1 H2]]]]]]. destruct pre as [|d pre].
      * left. simpl in *. now exists mid, post.
      * right. simpl in E. injection E as <- ->. simpl in H1.
        now exists pre, mid, post.
Qed.

End RegExpFacts.

(** ** The read-only guard *)

Module GuardFacts.
Import JSString RegExp StringFacts RegExpFacts Guard.

(** The guard on a few statements: a denylisted word inside a longer word is
    no match, letter case does not matter, a statement starting with another
    word is rejected. *)
Example guard_updated_at : isReadOnlyQuery "SELECT updated_at FROM t" = true.
Proof. reflexivity. Qed.

Example guard_mixed_case : isReadOnlyQuery "select 1; GrAnT all" = false.
Proof. reflexivity. Qed.

Example guard_show : isReadOnlyQuery "SHOW tables" = false.
Proof. reflexivity. Qed.

Lemma matchHere_prev (ic : bool) (pat : list atom) (p q : option ascii) (s : string) :
  wordAt p = wordAt q -> matchHere ic pat p s = matchHere ic pat q s.
Proof.
  revert s; induction pat as [|a pat IH]; intros s H; [reflexivity |].
  destruct a; simpl.
  - rewrite H. destruct (xorb _ _); [now apply IH | reflexivity].
  - reflexivity.
Qed.

Lemma search_prev (ic : bool) (pat : list atom) (p q : option ascii) (s : string) :
  wordAt p = wordAt q -> search ic pat p s = search ic pat q s.
Proof.
  intros H. destruct s; simpl; now rewrite (matchHere_prev ic pat p q _ H).
Qed.

Lemma matchHere_toLowerCase (pat : list atom) :
  forall (prev : option ascii) (s : string),
    matchHere true pat (option_map lowerChar prev) (toLowerCase s)
    = matchHere true pat prev s.
Proof.
  induction pat as [|a pat IH]; intros prev s; [reflexivity |].
  destruct a; cbn [matchHere].
  - assert (wordAt (option_map lowerChar prev) = wordAt prev) as ->
        by (destruct prev; simpl; try apply isWordChar_lowerChar; reflexivity).
    assert (wordAt (head (toLowerCase s)) = wordAt (head s)) as ->
        by (destruct s; simpl; try apply isWordChar_lowerChar; reflexivity).
    now rewrite IH.
  - destruct s as [|d s]; [reflexivity |]. cbn [toLowerCase].
    unfold charMatches. rewrite Canonicalize_lowerChar.
    change (Some (lowerChar d)) with (option_map lowerChar (Some d)).
    now rewrite (IH (Some d) s).
Qed.

Lemma search_toLowerCase (pat : list atom) (s : string) :
  forall prev,
    search true pat (option_map lowerChar prev) (toLowerCase s) = search true pat prev s.
Proof.
  induction s as [|c s IH]; intros prev.
  - cbn [toLowerCase search]. now rewrite <- (matchHere_toLowerCase pat prev "").
  - cbn [toLowerCase search].
    rewrite <- (matchHere_toLowerCase pat prev (String c s)). cbn [toLowerCase].
    change (Some (lowerChar c)) with (option_map lowerChar (Some c)).
    now rewrite (IH (Some c)).
Qed.

Lemma search_trimStart (pat : list atom) (s : string) :
  search true (WordBoundary :: pat) None (trimStart s)
  = search true (WordBoundary :: pat) None s.
Proof.
  induction s as [|c s IH]; [reflexivity |].
  cbn [trimStart]. destruct (isWhiteSpace c) eqn:E; [| reflexivity].
  rewrite IH. symmetry. rewrite search_isSome. cbn [matchHere head wordAt].
  rewrite (whiteSpace_not_word c E). cbn [xorb isSome orb].
  apply search_prev. simpl. now rewrite (whiteSpace_not_word c E).
Qed.

Lemma trimEnd_append (a b : string) :
  trimEnd b <> "" -> trimEnd (a ++ b) = a ++ trimEnd b.
Proof.
  intros H. induction a as [|x a IH]; [reflexivity |].
  cbn [append]. rewrite trimEnd_cons, IH.
  destruct (String.eqb (a ++ trimEnd b) "") eqn:E.
  - apply String.eqb_eq in E. destruct a; [now simpl in E | discriminate].
  - now rewrite andb_false_r.
Qed.

Lemma trimEnd_letters (kw : string) :
  lowerLetters kw = true ->
  forall mid post, toLowerCase mid = kw ->
    trimEnd (mid ++ post) = mid ++ trimEnd post.
Proof.
  induction kw as [|p kw IH]; intros Hkw mid post Hm.
  - destruct mid; [reflexivity | discriminate].
  - destruct mid as [|c mid]; [discriminate |]. simpl in Hkw, Hm.
    apply andb_true_iff in Hkw as [Hp Hkw]. injection Hm as Hc Hm.
    cbn [append]. rewrite trimEnd_cons, (IH Hkw mid post Hm).
    assert (isWhiteSpace c = false) as ->; [| reflexivity].
    rewrite <- isWhiteSpace_lowerChar, Hc. now apply lowerLetter_not_space.
Qed.

Lemma head_trimEnd_word (s : string) :
  wordAt (head s) = false -> wordAt (head (trimEnd s)) = false.
Proof.
  destruct s as [|c s]; [reflexivity |]. rewrite trimEnd_cons.
  destruct (_ && _)%bool; [reflexivity | exact (fun H => H)].
Qed.

Lemma head_append_space (post ws : string) :
  allWhiteSpace ws -> wordAt (head post) = false -> wordAt (head (post ++ ws)) = false.
Proof.
  intros Hws H. destruct post as [|c post]; [| exact H]. simpl.
  destruct ws as [|w ws]; [reflexivity |]. simpl.
  apply whiteSpace_not_word, Hws. now left.
Qed.

(** Trailing white space neither adds nor hides a whole-word occurrence. *)
Lemma occursAfter_trimEnd (kw : string) (prev : option ascii) (s : string) :
  lowerLetters kw = true -> kw <> "" ->
  occursAfter prev kw (trimEnd s) <-> occursAfter prev kw s.
Proof.
  intros Hkw Hne. split.
  - intros [pre [mid [post [E [Hm [H1 H2]]]]]].
    destruct (trimEnd_split s) as [ws [Es Hws]].
    exists pre, mid, (post ++ ws). split.
    + rewrite Es, E. now rewrite !append_assoc.
    + split; [exact Hm |]. split; [exact H1 | now apply head_append_space].
  - intros [pre [mid [post [E [Hm [H1 H2]]]]]].
    exists pre, mid, (trimEnd post). split.
    + rewrite E. rewrite trimEnd_append.
      * now rewrite (trimEnd_letters kw Hkw mid post Hm).
      * rewrite (trimEnd_letters kw Hkw mid post Hm).
        destruct mid; [simpl in Hm; congruence | discriminate].
    + split; [exact Hm |]. split; [exact H1 | now apply head_trimEnd_word].
Qed.

(** The keyword expression tested on the normalized text finds exactly the
    whole-word, case-insensitive occurrences in the statement as given. *)
Lemma test_keywordRegex (kw sql : string) :
  lowerLetters kw = true -> kw <> "" ->
  test (keywordRegex kw) (toLowerCase (trim sql)) = true <-> wholeWordIn kw sql.
Proof.
  intros Hkw Hne. unfold test, keywordRegex, wholeWordIn. cbn [ignoreCase source].
  change ([WordBoundary] ++ literal kw ++ [WordBoundary])%list with (wordPattern kw).
  change (@None ascii) with (option_map lowerChar None) at 1.
  rewrite (search_toLowerCase (wordPattern kw) (trim sql) None).
  rewrite (search_wordPattern kw Hkw Hne). unfold trim.
  rewrite (occursAfter_trimEnd kw None _ Hkw Hne).
  rewrite <- (search_wordPattern kw Hkw Hne).
  unfold wordPattern. cbn [app]. rewrite search_trimStart.
  apply (search_wordPattern kw Hkw Hne).
Qed.

Lemma scanKeywords_spec (kws : list string) (n : string) :
  scanKeywords kws n = true <->
  forall kw, In kw kws -> test (keywordRegex kw) n = false.
Proof.
  induction kws as [|k kws IH]; simpl.
  - split; [intros _ kw [] | reflexivity].
  - destruct (test (keywordRegex k) n) eqn:E.
    + split; [discriminate |]. intros H. rewrite <- E. symmetry. apply H. now left.
    + rewrite IH. split.
      * intros H kw [<- | Hin]; [exact E | now apply H].
      * intros H kw Hin. apply H. now right.
Qed.

Lemma forbiddenKeywords_letters (kw : string) :
  In kw forbiddenKeywords -> lowerLetters kw = true /\ kw <> "".
Proof.
  unfold forbiddenKeywords. simpl.
  intros H; repeat (destruct H as [<- | H]; [split; [reflexivity | discriminate] |]).
  destruct H.
Qed.

Lemma leading_check (n : string) :
  (negb (startsWith n "select") && negb (startsWith n "with") &&
   negb (startsWith n "explain"))%bool = false <-> startsWithPermitted n.
Proof.
  unfold startsWithPermitted, permittedLeading. split.
  - intros H.
    destruct (startsWith n "select") eqn:E1;
      [apply startsWith_spec in E1 as [r ->]; exists "select", r; simpl; auto |].
    destruct (startsWith n "with") eqn:E2;
      [apply startsWith_spec in E2 as [r ->]; exists "with", r; simpl; auto |].
    destruct (startsWith n "explain") eqn:E3;
      [apply startsWith_spec in E3 as [r ->]; exists "explain", r; simpl; auto |].
    discriminate.
  - intros [kw [rest [Hin ->]]].
    assert (startsWith (kw ++ rest) kw = true) as H
        by (apply startsWith_spec; now exists rest).
    simpl in Hin. destruct Hin as [<- | [<- | [<- | []]]]; rewrite H; simpl;
      rewrite ?andb_false_r; reflexivity.
Qed.

(** The guard is the conjunction of its two conditions. *)
Lemma isReadOnlyQuery_iff (sql : string) :
  isReadOnlyQuery sql = true <->
  startsWithPermitted (toLowerCase (trim sql)) /\
  (forall kw, In kw forbiddenKeywords -> ~ wholeWordIn kw sql).
Proof.
  unfold isReadOnlyQuery. cbv zeta.
  destruct (_ && _)%bool eqn:E.
  - split; [discriminate |]. intros [H _].
    apply leading_check in H. congruence.
  - apply leading_check in E. rewrite scanKeywords_spec. split.
    + intros H. split; [exact E |]. intros kw Hin Hocc.
      destruct (forbiddenKeywords_letters kw Hin) as [Hkw Hne].
      apply (test_keywordRegex kw sql Hkw Hne) in Hocc.
      rewrite (H kw Hin) in Hocc. discriminate.
    + intros [_ H] kw Hin.
      destruct (forbiddenKeywords_letters kw Hin) as [Hkw Hne].
      destruct (test (keywordRegex kw) (toLowerCase (trim sql))) eqn:Et; [| reflexivity].
      apply (test_keywordRegex kw sql Hkw Hne) in Et. now apply H in Et.
Qed.

(** C1.  The guard permits a statement if and only if its trimmed,
    lower-cased form starts with one of [select], [with], [explain] and no
    keyword of the denylist occurs in the statement as a whole word, case
    ignored.  The five statements named by the specification are classified
    as it says. *)
Theorem isReadOnlyQuery_characterisation :
  (forall sql,
     isReadOnlyQuery sql = true <->
     startsWithPermitted (toLowerCase (trim sql)) /\
     (forall kw, In kw forbiddenKeywords -> ~ wholeWordIn kw sql))
  /\ isReadOnlyQuery "SELECT 1" = true
  /\ isReadOnlyQuery "  select * from t" = true
  /\ isReadOnlyQuery "DROP TABLE t" = false
  /\ isReadOnlyQuery "SELECT * FROM t; DELETE FROM t" = false
  /\ isReadOnlyQuery "SELECT 'update me' FROM t" = false.
Proof.
  split; [exact isReadOnlyQuery_iff | repeat split; reflexivity].
Qed.

Lemma trim_letters (kw : string) (rest : string) :
  lowerLetters kw = true -> kw <> "" ->
  trim (kw ++ rest) = kw ++ trimEnd rest.
Proof.
  intros Hkw Hne. unfold trim.
  assert (toLowerCase kw = kw) as Hl.
  { clear Hne. induction kw as [|p kw IH]; [reflexivity |]. simpl in *.
    apply andb_true_iff in Hkw as [Hp Hkw]. rewrite (IH Hkw). f_equal.
    revert Hp. clear. each_unit p. }
  destruct kw as [|p kw]; [congruence |].
  assert (trimStart (String p kw ++ rest) = String p kw ++ rest) as ->.
  { simpl in *. apply andb_true_iff in Hkw as [Hp _].
    now rewrite (lowerLetter_not_space p Hp). }
  now apply (trimEnd_letters (String p kw) Hkw).
Qed.

Lemma startsWithPermitted_prefix (kw rest : string) :
  In kw permittedLeading -> startsWithPermitted (toLowerCase (trim (kw ++ rest))).
Proof.
  intros Hin. exists kw, (toLowerCase (trimEnd rest)). split; [exact Hin |].
  simpl in Hin.
  destruct Hin as [<- | [<- | [<- | []]]];
    (rewrite trim_letters; [| reflexivity | discriminate]);
    now rewrite toLowerCase_append.
Qed.

(** C9.  The leading-keyword check is a prefix test on characters, with no
    word boundary after the keyword: whatever text follows the characters
    [select], [with] or [explain], the statement is permitted as soon as no
    keyword of the denylist occurs in it as a whole word.  So
    [withdrawal of funds], whose first word is none of the three permitted
    keywords, is permitted. *)
Theorem leading_keyword_is_a_raw_prefix :
  (forall kw rest,
      In kw permittedLeading ->
      (forall f, In f forbiddenKeywords -> ~ wholeWordIn f (kw ++ rest)) ->
      isReadOnlyQuery (kw ++ rest) = true)
  /\ isReadOnlyQuery "withdrawal of funds" = true
  /\ leadingWord (toLowerCase (trim "withdrawal of funds")) = "withdrawal"
  /\ existsb (String.eqb "withdrawal") permittedLeading = false.
Proof.
  split; [| repeat split; reflexivity].
  intros kw rest Hin Hno. apply isReadOnlyQuery_iff. split; [| exact Hno].
  now apply startsWithPermitted_prefix.
Qed.

(** [with] followed by [drawal of funds]. *)
Lemma withdrawal_example : isReadOnlyQuery ("with" ++ "drawal of funds") = true.
Proof.
  apply (proj1 leading_keyword_is_a_raw_prefix "with" "drawal of funds").
  - simpl. auto.
  - intros f Hin Hocc. destruct (forbiddenKeywords_letters f Hin) as [Hl Hne].
    apply (search_wordPattern f Hl Hne) in Hocc. simpl in Hin.
    repeat (destruct Hin as [<- | Hin]; [vm_compute in Hocc; discriminate Hocc |]).
    destruct Hin.
Defined.

(** The global replace of [escapeIdentifier] doubles each double quote. *)
Lemma replaceAll_dquote (prev : option ascii) (s : string) :
  replaceFrom false [Lit dquote] (String dquote (String dquote "")) prev 0 s
  = doubleQuotes s.
Proof.
  revert prev; induction s as [|c s IH]; intros prev; [reflexivity |].
  cbn [replaceFrom matchHere charMatches doubleQuotes].
  rewrite (Ascii.eqb_sym c dquote).
  destruct (Ascii.eqb dquote c); simpl; now rewrite IH.
Qed.

Lemma readQuotedBody_doubleQuotes (s : string) :
  readQuotedBody (doubleQuotes s ++ String dquote "") = Some s.
Proof.
  induction s as [|c s IH]; [reflexivity |].
  cbn [doubleQuotes]. destruct (Ascii.eqb c dquote) eqn:E.
  - apply Ascii.eqb_eq in E. subst c. cbn [append readQuotedBody].
    rewrite Ascii.eqb_refl, IH. reflexivity.
  - cbn [append readQuotedBody]. rewrite E, IH. reflexivity.
Qed.

(** C6.  [escapeIdentifier] returns the identifier between two double
    quotes with every double quote in it doubled and every other code unit
    as it was, so that the result reads back as the identifier; the
    identifier made of [the], one double quote and [table] escapes to: a
    double quote, [the], two double quotes, [table], a double quote. *)
Theorem escapeIdentifier_quotes_and_doubles :
  (forall s, escapeIdentifier s = quoted s)
  /\ (forall s, readQuotedIdentifier (escapeIdentifier s) = Some s)
  /\ escapeIdentifier ("the" ++ String dquote "table")
     = String dquote "the" ++ String dquote (String dquote "table") ++ String dquote "".
Proof.
  assert (forall s, escapeIdentifier s = quoted s) as H.
  { intros s. unfold escapeIdentifier, quoted, replaceAll. cbn [ignoreCase source].
    now rewrite replaceAll_dquote. }
  split; [exact H |]. split; [| reflexivity].
  intros s. rewrite H. unfold quoted, readQuotedIdentifier.
  rewrite Ascii.eqb_refl. apply readQuotedBody_doubleQuotes.
Qed.

End GuardFacts.

(** ** The registry *)

Module RegistryFacts.
Import JSString JS Registry Server InFlight.

Lemma Map_get_has (m : Connections) (name : string) :
  Map_has m name = false <-> Map_get m name = None.
Proof. unfold Map_has. destruct (Map_get m name); split; congruence. Qed.

Lemma Map_set_absent (m : Connections) (name : string) (e : Entry) :
  Map_get m name = None -> Map_set m name e = (m ++ [(name, e)])%list.
Proof.
  induction m as [|[k e'] m IH]; simpl; [reflexivity |].
  destruct (String.eqb k name); [discriminate |]. intros H. now rewrite IH.
Qed.

Lemma Map_delete_absent (m : Connections) (name : string) :
  Map_get m name = None -> Map_delete m name = m.
Proof.
  induction m as [|[k e'] m IH]; simpl; [reflexivity |].
  destruct (String.eqb k name); [discriminate |]. intros H. simpl. now rewrite IH.
Qed.

Lemma Map_delete_added (m : Connections) (name : string) (e : Entry) :
  Map_get m name = None -> Map_delete (m ++ [(name, e)])%list name = m.
Proof.
  intros H. unfold Map_delete. rewrite filter_app. simpl.
  rewrite String.eqb_refl. simpl. rewrite app_nil_r. now apply Map_delete_absent.
Qed.

Lemma Map_get_added (m : Connections) (name : string) (e : Entry) :
  Map_get m name = None -> Map_get (m ++ [(name, e)])%list name = Some e.
Proof.
  induction m as [|[k e'] m IH]; simpl.
  - now rewrite String.eqb_refl.
  - destruct (String.eqb k name); [discriminate | exact IH].
Qed.

Lemma Map_get_deleted (m : Connections) (name : string) :
  Map_get (Map_delete m name) name = None.
Proof.
  induction m as [|[k e'] m IH]; simpl; [reflexivity |].
  destruct (String.eqb k name) eqn:E; simpl; [exact IH | now rewrite E].
Qed.

Lemma append_empty (a b : string) : a ++ b = "" -> a = "" /\ b = "".
Proof. destruct a; simpl; [auto | discriminate]. Qed.

(** The joined names are the empty text only for no name at all and for the
    single empty name. *)
Lemma join_empty (names : list string) :
  join ", " names = "" <-> names = [] \/ names = [""].
Proof.
  split.
  - destruct names as [|x [|y rest]]; simpl; intros H.
    + now left.
    + right. now rewrite H.
    + apply append_empty in H as [_ H]. discriminate.
  - intros [-> | ->]; reflexivity.
Qed.

Lemma available_enumerated (m : Connections) :
  Map_keys m <> [""] -> available m = enumerated m.
Proof.
  intros H. unfold available, enumerated. cbv zeta.
  destruct (String.eqb (join ", " (Map_keys m)) "") eqn:E.
  - apply String.eqb_eq, join_empty in E as [E | E]; [| contradiction].
    destruct m; [reflexivity | discriminate].
  - destruct m; [discriminate | reflexivity].
Qed.

Section WithOutside.
Variable out : Outside.

(** C3, as the code has it.  A failed add leaves the registry as it was,
    for a call that no other call runs into: [handleAddConnection] is that
    call.  When the name is registered the call throws the duplicate-name
    error before anything is sent, and the whole state is the one before
    the call.  When it is not, the call registers the new entry, sends the
    probe and awaits its answer: the entry is in the registry for as long
    as the probe is awaited.  Resumed with a rejection the call deletes
    the name from the registry as it then is and throws the probe's error;
    when the registry is still the one it left, that gives back the
    registry before the call.  And whatever makes [handleAddConnection]
    throw, the registry after it is the registry before it. *)
Theorem handleAddConnection_atomic_on_failure
    (w : World) (name host : string) (port : option Z) (database user password : string) :
  let entry :=
    mkEntry (newPool (mkPoolConfig host (orDefault 5432%Z port) database user password
                        5 30000 5000))
            (mkDisplay host (orDefault 5432%Z port) database user) in
  runThrough out (handleAddConnection_start name host port database user password) w
  = handleAddConnection out name host port database user password w
  /\ (Map_has (connections w) name = true ->
      handleAddConnection_start name host port database user password w
      = (Throw (DuplicateNameError name), w)
      /\ handleAddConnection out name host port database user password w
         = (Throw (DuplicateNameError name), w))
  /\ (Map_has (connections w) name = false ->
      exists s,
        handleAddConnection_start name host port database user password w
        = (Return s,
           mkWorld (connections w ++ [(name, entry)])%list
                   (sent w ++ [Query (pool entry) "SELECT 1" None])%list)
        /\ awaited s = length (sent w)
        /\ (forall e w2,
              resume s (Throw e) w2
              = (Throw e, mkWorld (Map_delete (connections w2) name) (sent w2)))
        /\ (forall e w2,
              connections w2 = (connections w ++ [(name, entry)])%list ->
              connections (snd (resume s (Throw e) w2)) = connections w)
        /\ (forall e,
              queryAnswer out (length (sent w)) = Throw e ->
              exists w',
                handleAddConnection out name host port database user password w
                = (Throw e, w')
                /\ connections w' = connections w))
  /\ (forall e w',
        handleAddConnection out name host port database user password w = (Throw e, w') ->
        connections w' = connections w).
Proof.
  cbv zeta.
  unfold runThrough, handleAddConnection_start, handleAddConnection_resume,
    handleAddConnection, addConnection, bind, readConnections, tryCatch.
  cbv zeta. destruct (Map_has (connections w) name) eqn:Hhas.
  - split; [reflexivity |]. split; [intros _; split; reflexivity |].
    split; [discriminate |].
    unfold throw. intros e w' H. now injection H as _ <-.
  - apply Map_get_has in Hhas. rewrite (Map_set_absent _ _ _ Hhas).
    unfold writeConnections, getConnection, bind, readConnections. cbn [connections sent].
    rewrite (Map_get_added _ _ _ Hhas).
    unfold ret, pool_query, pool_query_sent, connections_delete, bind, readConnections,
      writeConnections, throw. cbn [connections sent Registry.pool awaited resume].
    split.
    { destruct (queryAnswer out (length (sent w))) as [r | e0]; reflexivity. }
    split; [discriminate |].
    split.
    { intros _. eexists. split; [reflexivity |]. cbn [awaited resume await throw].
      split; [reflexivity |]. split; [reflexivity |]. split.
      - intros e w2 H. unfold throw. cbn [snd connections]. rewrite H.
        now apply Map_delete_added.
      - intros e He. rewrite He. cbn [await throw connections sent].
        rewrite (Map_delete_added _ _ _ Hhas). eexists. split; reflexivity. }
    destruct (queryAnswer out (length (sent w))) as [r | e0].
    + intros e w' H. discriminate.
    + cbn [connections sent]. rewrite (Map_delete_added _ _ _ Hhas).
      intros e w' H. now injection H as _ <-.
Qed.

(** C4.  After a remove of a registered name whose pool ended, the name is
    gone and [getConnection] throws the not-found error; for an absent name
    [getConnection] throws the not-found error, whose message lists the
    registered names, or the marker for an empty registry, whenever the
    registry is not the one whose only name is the empty text.  For that
    registry, which is not empty, the message shows the marker: adding a
    connection named by the empty text and asking for another name answers
    that none is available. *)
Theorem getConnection_not_found
    (w : World) (name : string) :
  (forall conn,
      Map_get (connections w) name = Some conn ->
      endAnswer out (length (sent w)) = Return tt ->
      exists w',
        removeConnection out name w = (Return tt, w')
        /\ connections w' = Map_delete (connections w) name
        /\ getConnection name w' = (Throw (NotFoundError name (connections w')), w'))
  /\ (Map_get (connections w) name = None ->
      getConnection name w = (Throw (NotFoundError name (connections w)), w)
      /\ message (NotFoundError name (connections w))
         = "Connection '" ++ name ++ "' not found. Available connections: "
           ++ available (connections w)
      /\ (Map_keys (connections w) <> [""] ->
          available (connections w) = enumerated (connections w)))
  /\ (exists w1,
        callTool agreeable (add_connection "" "h" None "d" "u" "p") emptyWorld
        = (Content
             (VObj [ ("success", VBool true);
                     ("message", VStr "Connection '' added successfully");
                     ("connection",
                       VObj [ ("name", VStr ""); ("host", VStr "h");
                              ("port", VNum (Num 5432)); ("database", VStr "d");
                              ("user", VStr "u") ]) ]), w1)
        /\ Map_keys (connections w1) = [""]
        /\ enumerated (connections w1) = ""
        /\ fst (callTool agreeable (query "x" "SELECT 1" None None) w1)
           = IsError "Error: Connection 'x' not found. Available connections: (none)").
Proof.
  split; [| split].
  - intros conn Hget Hend.
    unfold removeConnection, bind, readConnections, pool_end, connections_delete,
      writeConnections. rewrite Hget, Hend. cbn [connections sent].
    eexists. split; [reflexivity |]. cbn [connections]. split; [reflexivity |].
    unfold getConnection, bind, readConnections. cbn [connections].
    now rewrite Map_get_deleted.
  - intros Hget. split; [| split].
    + unfold getConnection, bind, readConnections. now rewrite Hget.
    + reflexivity.
    + apply available_enumerated.
  - eexists. split; [reflexivity |]. repeat split.
Qed.

End WithOutside.

(** A probe that the driver rejects: the registry of the example is as
    before. *)
Lemma failed_probe_example :
  exists w',
    handleAddConnection
      (mkOutside (fun _ => Throw (mkError "connect ECONNREFUSED")) (fun _ => Return tt)
                 (fun _ => NaN) (fun _ => mkError "") (mkError ""))
      "new" "nowhere" None "shop" "reader" "pw" exampleWorld
    = (Throw (mkError "connect ECONNREFUSED"), w')
    /\ connections w' = connections exampleWorld.
Proof.
  destruct (proj1 (proj2 (proj2 (handleAddConnection_atomic_on_failure
                                   (mkOutside (fun _ => Throw (mkError "connect ECONNREFUSED"))
                                      (fun _ => Return tt) (fun _ => NaN)
                                      (fun _ => mkError "") (mkError ""))
                                   exampleWorld "new" "nowhere" None "shop" "reader" "pw")))
              eq_refl) as [s [_ [_ [_ [_ H]]]]].
  apply H. reflexivity.
Defined.

(** C3 as stated fails: the entry of an add whose probe is rejected is
    seen by a call that runs while the probe is awaited.  The registry is
    empty; the add of [new] is at the await of its probe; [list_connections]
    lists [new]; the probe is rejected and the add throws; the registry is
    empty again. *)
Lemma unprobed_entry_is_listed :
  exists s w1,
    handleAddConnection_start "new" "nowhere" None "shop" "reader" "pw" emptyWorld
    = (Return s, w1)
    /\ callTool agreeable list_connections emptyWorld = (Content (VArr []), emptyWorld)
    /\ callTool agreeable list_connections w1
       = (Content (VArr [ VObj [ ("name", VStr "new"); ("host", VStr "nowhere");
                                 ("port", VNum (Num 5432)); ("database", VStr "shop");
                                 ("user", VStr "reader") ] ]), w1)
    /\ resume s (Throw (mkError "connect ECONNREFUSED")) w1
       = (Throw (mkError "connect ECONNREFUSED"), mkWorld [] (sent w1))
    /\ callTool agreeable list_connections (mkWorld [] (sent w1))
       = (Content (VArr []), mkWorld [] (sent w1)).
Proof. eexists. eexists. split; [reflexivity |]. repeat split. Qed.

End RegistryFacts.

(** ** The password does not reach the responses *)

Module SecrecyFacts.
Import JSString JS Registry Server RegistryFacts.
Local Open Scope js_scope.

Lemma display_keys (m1 m2 : Connections) :
  display m1 = display m2 -> Map_keys m1 = Map_keys m2.
Proof.
  intros H. unfold Map_keys.
  assert (forall m, map fst m = map fst (display m)) as E
      by (intros m; unfold display; rewrite map_map; reflexivity).
  now rewrite (E m1), (E m2), H.
Qed.

Lemma display_get (m1 m2 : Connections) (name : string) :
  display m1 = display m2 ->
  option_map config (Map_get m1 name) = option_map config (Map_get m2 name).
Proof.
  revert m2; induction m1 as [|[k1 e1] m1 IH]; intros [|[k2 e2] m2] H;
    try discriminate; [reflexivity |].
  simpl in H. injection H as <- Hc H. simpl.
  destruct (String.eqb k1 name); [simpl; now rewrite Hc | now apply IH].
Qed.

Lemma display_set (m1 m2 : Connections) (name : string) (e1 e2 : Entry) :
  display m1 = display m2 -> config e1 = config e2 ->
  display (Map_set m1 name e1) = display (Map_set m2 name e2).
Proof.
  intros H He. revert m2 H; induction m1 as [|[k1 e1'] m1 IH]; intros [|[k2 e2'] m2] H;
    try discriminate; simpl.
  - now rewrite He.
  - simpl in H. injection H as <- Hc H.
    destruct (String.eqb k1 name); simpl.
    + rewrite He. f_equal. exact H.
    + rewrite Hc. f_equal. now apply IH.
Qed.

Lemma display_delete (m1 m2 : Connections) (name : string) :
  display m1 = display m2 ->
  display (Map_delete m1 name) = display (Map_delete m2 name).
Proof.
  revert m2; induction m1 as [|[k1 e1] m1 IH]; intros [|[k2 e2] m2] H;
    try discriminate; [reflexivity |].
  simpl in H. injection H as <- Hc H. simpl.
  destruct (String.eqb k1 name); simpl; [now apply IH |].
  rewrite Hc. f_equal. now apply IH.
Qed.

Lemma related_ret {A} (RA : A -> A -> Prop) (a1 a2 : A) :
  RA a1 a2 -> related RA (ret a1) (ret a2).
Proof. intros H w1 w2 Hw. simpl. auto. Qed.

Lemma related_throw {A} (RA : A -> A -> Prop) (e : Error) :
  related RA (throw e) (throw e).
Proof. intros w1 w2 Hw. simpl. auto. Qed.

Lemma related_bind {A B} (RA : A -> A -> Prop) (RB : B -> B -> Prop)
    (m1 m2 : M A) (k1 k2 : A -> M B) :
  related RA m1 m2 ->
  (forall a1 a2, RA a1 a2 -> related RB (k1 a1) (k2 a2)) ->
  related RB (bind m1 k1) (bind m2 k2).
Proof.
  intros Hm Hk w1 w2 Hw. unfold bind. specialize (Hm w1 w2 Hw).
  destruct (m1 w1) as [[a1 | e1] w1'], (m2 w2) as [[a2 | e2] w2']; try contradiction.
  - destruct Hm as [Ha Hw']. exact (Hk a1 a2 Ha w1' w2' Hw').
  - exact Hm.
Qed.

Lemma related_tryCatch {A} (RA : A -> A -> Prop) (m1 m2 : M A) (h1 h2 : Error -> M A) :
  related RA m1 m2 ->
  (forall e, related RA (h1 e) (h2 e)) ->
  related RA (tryCatch m1 h1) (tryCatch m2 h2).
Proof.
  intros Hm Hh w1 w2 Hw. unfold tryCatch. specialize (Hm w1 w2 Hw).
  destruct (m1 w1) as [[a1 | e1] w1'], (m2 w2) as [[a2 | e2] w2']; try contradiction.
  - exact Hm.
  - destruct Hm as [<- Hw']. exact (Hh e1 w1' w2' Hw').
Qed.

Lemma related_settle {A} (m1 m2 : M A) :
  related eq m1 m2 -> related eq (settle m1) (settle m2).
Proof.
  intros Hm w1 w2 Hw. unfold settle. specialize (Hm w1 w2 Hw).
  destruct (m1 w1) as [[a1 | e1] w1'], (m2 w2) as [[a2 | e2] w2']; try contradiction;
    destruct Hm as [<- Hw']; auto.
Qed.

Lemma related_await {A} (c : completion A) : related eq (await c) (await c).
Proof. destruct c; [now apply related_ret | apply related_throw]. Qed.

Lemma related_readConnections :
  related (fun m1 m2 => display m1 = display m2) readConnections readConnections.
Proof. intros w1 w2 Hw. simpl. split; [apply Hw | exact Hw]. Qed.

Lemma related_writeConnections (m1 m2 : Connections) :
  display m1 = display m2 -> related eq (writeConnections m1) (writeConnections m2).
Proof. intros H w1 w2 [_ Hs]. simpl. split; [reflexivity | split; assumption]. Qed.

Section WithOutside.
Variable out : Outside.

Lemma low_sent (w1 w2 : World) (c1 c2 : Call) :
  low w1 w2 ->
  low (mkWorld (connections w1) (sent w1 ++ [c1])) (mkWorld (connections w2) (sent w2 ++ [c2])).
Proof.
  intros [Hd Hs]. split; [exact Hd |]. simpl. rewrite !length_app. simpl. lia.
Qed.

Lemma related_pool_query (p1 p2 : Pool) (sql : string) (params : option (list value)) :
  related eq (pool_query out p1 sql params) (pool_query out p2 sql params).
Proof.
  intros w1 w2 Hw. unfold pool_query. destruct Hw as [Hd Hs]. rewrite Hs.
  destruct (queryAnswer out (length (sent w2))); (split; [reflexivity |]);
    apply low_sent; split; assumption.
Qed.

Lemma related_pool_end (p1 p2 : Pool) :
  related eq (pool_end out p1) (pool_end out p2).
Proof.
  intros w1 w2 Hw. unfold pool_end. destruct Hw as [Hd Hs]. rewrite Hs.
  destruct (endAnswer out (length (sent w2))); (split; [reflexivity |]);
    apply low_sent; split; assumption.
Qed.

Lemma related_getConnection (name : string) :
  related (fun _ _ => True) (getConnection name) (getConnection name).
Proof.
  unfold getConnection. eapply related_bind; [apply related_readConnections |].
  intros m1 m2 Hm. cbv beta. pose proof (display_get m1 m2 name Hm) as Hg.
  destruct (Map_get m1 name), (Map_get m2 name); try discriminate.
  - now apply related_ret.
  - unfold NotFoundError, available. rewrite (display_keys m1 m2 Hm).
    apply related_throw.
Qed.

Lemma related_connections_delete (name : string) :
  related eq (connections_delete name) (connections_delete name).
Proof.
  unfold connections_delete. eapply related_bind; [apply related_readConnections |].
  intros m1 m2 Hm. cbv beta. apply related_writeConnections. now apply display_delete.
Qed.

Lemma related_addConnection (name host : string) (port : Z)
    (database user pw1 pw2 : string) :
  related eq (addConnection name host port database user pw1)
             (addConnection name host port database user pw2).
Proof.
  unfold addConnection. eapply related_bind; [apply related_readConnections |].
  intros m1 m2 Hm. cbv beta zeta. unfold Map_has.
  pose proof (display_get m1 m2 name Hm) as Hg.
  destruct (Map_get m1 name), (Map_get m2 name); try discriminate.
  - apply related_throw.
  - apply related_writeConnections. now apply display_set.
Qed.

Lemma related_handleAddConnection (name host : string) (port : option Z)
    (database user pw1 pw2 : string) :
  related eq (handleAddConnection out name host port database user pw1)
             (handleAddConnection out name host port database user pw2).
Proof.
  unfold handleAddConnection. cbv zeta.
  eapply related_bind; [apply related_addConnection |]. intros _ _ _.
  apply related_tryCatch.
  - eapply related_bind; [apply related_getConnection |]. intros p1 p2 _.
    eapply related_bind; [apply related_pool_query |]. intros _ _ _.
    now apply related_ret.
  - intros e. eapply related_bind; [apply related_connections_delete |].
    intros _ _ _. apply related_throw.
Qed.

Lemma related_handleRemoveConnection (name : string) :
  related eq (handleRemoveConnection out name) (handleRemoveConnection out name).
Proof.
  unfold handleRemoveConnection, removeConnection.
  eapply related_bind; [| intros _ _ _; now apply related_ret].
  eapply related_bind; [apply related_readConnections |].
  intros m1 m2 Hm. cbv beta. pose proof (display_get m1 m2 name Hm) as Hg.
  destruct (Map_get m1 name), (Map_get m2 name); try discriminate.
  - eapply related_bind; [apply related_pool_end |]. intros _ _ _.
    apply related_connections_delete.
  - apply related_throw.
Qed.

Lemma listed_display (m : Connections) :
  map (fun ke : string * Entry =>
         let (name, info) := ke in
         VObj [ ("name", VStr name);
                ("host", VStr (host (config info)));
                ("port", VNum (Num (port (config info))));
                ("database", VStr (database (config info)));
                ("user", VStr (user (config info))) ]) m
  = map (fun kd : string * DisplayConfig =>
           VObj [ ("name", VStr (fst kd));
                  ("host", VStr (host (snd kd)));
                  ("port", VNum (Num (port (snd kd))));
                  ("database", VStr (database (snd kd)));
                  ("user", VStr (user (snd kd))) ]) (display m).
Proof.
  unfold display. rewrite map_map. apply map_ext. now intros [k e].
Qed.

Lemma related_handleListConnections :
  related eq handleListConnections handleListConnections.
Proof.
  unfold handleListConnections. eapply related_bind; [apply related_readConnections |].
  intros m1 m2 Hm. cbv beta. apply related_ret.
  now rewrite !listed_display, Hm.
Qed.

Lemma related_handleQuery (connection sql : string) (params : option (list value))
    (limit : option Z) :
  related eq (handleQuery out connection sql params limit)
             (handleQuery out connection sql params limit).
Proof.
  unfold handleQuery. cbv zeta. destruct (negb (Guard.isReadOnlyQuery sql)).
  - apply related_throw.
  - eapply related_bind; [apply related_getConnection |]. intros p1 p2 _.
    eapply related_bind; [apply related_pool_query |]. intros r1 r2 <-.
    now apply related_ret.
Qed.

Lemma related_compareTable (s1 s2 t1 t2 : Pool) (schema : string) (table : value) :
  related eq (compareTable out s1 t1 schema table) (compareTable out s2 t2 schema table).
Proof.
  unfold compareTable. apply related_tryCatch.
  - eapply related_bind; [apply related_await |]. intros q1 q2 <-. cbv zeta.
    eapply related_bind; [apply related_settle, related_pool_query |]. intros a1 a2 <-.
    eapply related_bind; [apply related_settle, related_pool_query |]. intros b1 b2 <-.
    eapply related_bind; [apply related_await |]. intros c1 c2 <-.
    now apply related_ret.
  - intros e. now apply related_ret.
Qed.

Lemma related_compareLoop (s1 s2 t1 t2 : Pool) (schema : string) (tableList : list value) :
  related eq (compareLoop out s1 t1 schema tableList) (compareLoop out s2 t2 schema tableList).
Proof.
  induction tableList as [|table rest IH]; simpl.
  - now apply related_ret.
  - eapply related_bind; [apply related_compareTable |]. intros c1 c2 <-.
    eapply related_bind; [apply IH |]. intros cs1 cs2 <-.
    now apply related_ret.
Qed.

Lemma related_handleCompareRowCounts (s t : string) (tables : option (list value))
    (schema : option string) :
  related eq (handleCompareRowCounts out s t tables schema)
             (handleCompareRowCounts out s t tables schema).
Proof.
  unfold handleCompareRowCounts. cbv zeta.
  eapply related_bind; [apply related_getConnection |]. intros s1 s2 _.
  eapply related_bind; [apply related_getConnection |]. intros t1 t2 _.
  eapply related_bind with (RA := eq).
  - destruct (Nat.eqb _ 0).
    + eapply related_bind; [apply related_pool_query |]. intros r1 r2 <-.
      now apply related_ret.
    + now apply related_ret.
  - intros l1 l2 <-.
    eapply related_bind; [apply related_compareLoop |]. intros c1 c2 <-.
    now apply related_ret.
Qed.

Lemma related_dispatch (c1 c2 : ToolCall) :
  forgetPassword c1 = forgetPassword c2 ->
  related eq (dispatch out c1) (dispatch out c2).
Proof.
  destruct c1, c2; simpl; intros H; try discriminate; inversion H; subst.
  - apply related_handleAddConnection.
  - apply related_handleRemoveConnection.
  - apply related_handleListConnections.
  - apply related_handleQuery.
  - apply related_handleCompareRowCounts.
Qed.

Lemma serve_low (calls1 calls2 : list ToolCall) :
  map forgetPassword calls1 = map forgetPassword calls2 ->
  forall w1 w2, low w1 w2 ->
    fst (serve out calls1 w1) = fst (serve out calls2 w2).
Proof.
  revert calls2; induction calls1 as [|c1 calls1 IH]; intros [|c2 calls2] H w1 w2 Hw;
    try discriminate; [reflexivity |].
  simpl in H. injection H as Hc H. simpl. unfold callTool.
  pose proof (related_dispatch c1 c2 Hc w1 w2 Hw) as Hr.
  destruct (dispatch out c1 w1) as [[v1 | e1] w1'],
           (dispatch out c2 w2) as [[v2 | e2] w2']; try contradiction;
    destruct Hr as [<- Hw']; specialize (IH calls2 H w1' w2' Hw');
    destruct (serve out calls1 w1'), (serve out calls2 w2'); simpl in *; now rewrite IH.
Qed.

(** C5.  The password reaches no response.  Two runs of tool calls from
    the empty registry that differ only in the passwords given to
    [add_connection], the driver answering alike, produce the same
    responses, call by call.  What [handleListConnections] returns has one
    object per entry with exactly the keys [name], [host], [port],
    [database], [user].  A successful [handleAddConnection] returns the
    object of the source, in which the password does not occur, and leaves
    under [name] an entry whose [config] is the host, port, database and
    user. *)
Theorem password_reaches_no_response :
  (forall calls1 calls2,
      map forgetPassword calls1 = map forgetPassword calls2 ->
      fst (serve out calls1 emptyWorld) = fst (serve out calls2 emptyWorld))
  /\ (forall w, exists items,
        handleListConnections w = (Return (VArr items), w)
        /\ length items = length (connections w)
        /\ Forall (fun item => keys item = ["name"; "host"; "port"; "database"; "user"])
             items)
  /\ (forall w name host port database user password response w',
        handleAddConnection out name host port database user password w
        = (Return response, w') ->
        response
        = VObj [ ("success", VBool true);
                 ("message", VStr ("Connection '" ++ name ++ "' added successfully"));
                 ("connection",
                   VObj [ ("name", VStr name); ("host", VStr host);
                          ("port", VNum (Num (orDefault 5432%Z port)));
                          ("database", VStr database); ("user", VStr user) ]) ]
        /\ option_map config (Map_get (connections w') name)
           = Some (mkDisplay host (orDefault 5432%Z port) database user)).
Proof.
  split; [| split].
  - intros calls1 calls2 H. apply serve_low; [exact H |]. now split.
  - intros w. eexists. split; [reflexivity |]. split; [apply length_map |].
    apply Forall_forall. intros item Hin. apply in_map_iff in Hin as [[k e] [<- _]].
    reflexivity.
  - intros w name host port database user password response w'.
    unfold handleAddConnection, addConnection, bind, readConnections, tryCatch.
    cbv zeta. destruct (Map_has (connections w) name) eqn:Hhas; [discriminate |].
    apply Map_get_has in Hhas. rewrite (Map_set_absent _ _ _ Hhas).
    unfold writeConnections, getConnection, bind, readConnections. cbn [connections sent].
    rewrite (Map_get_added _ _ _ Hhas).
    unfold ret, pool_query, connections_delete, bind, readConnections,
      writeConnections, throw. cbn [connections sent Registry.pool].
    destruct (queryAnswer out (length (sent w))) as [r | e]; [| discriminate].
    intros H. injection H as <- <-. split; [reflexivity |].
    cbn [connections]. now rewrite (Map_get_added _ _ _ Hhas).
Qed.

End WithOutside.

(** Two runs that add a connection and list the registry, with two
    passwords. *)
Lemma password_example :
  fst (serve exampleDriver
         [ add_connection "a" "db.example" None "shop" "reader" "s3cret"; list_connections ]
         emptyWorld)
  = fst (serve exampleDriver
           [ add_connection "a" "db.example" None "shop" "reader" "hunter2"; list_connections ]
           emptyWorld).
Proof.
  apply (proj1 (password_reaches_no_response exampleDriver)). reflexivity.
Defined.

End SecrecyFacts.

(** ** Comparing row counts *)

Module CompareFacts.
Import JSString JS Registry Server.

Section WithOutside.
Variable out : Outside.

Lemma compareTable_text (sourceDb targetDb : Pool) (schema table : string) (w : World) :
  compareTable out sourceDb targetDb schema (VStr table) w
  = (Return (comparisonOf out (VStr table)
               (queryAnswer out (length (sent w)))
               (queryAnswer out (S (length (sent w))))),
     mkWorld (connections w)
       (sent w ++ requestsFor sourceDb targetDb schema [table])).
Proof.
  unfold compareTable, tryCatch, bind, settle, pool_query, comparisonOf.
  cbn [escapeIdentifierOf await ret connections sent].
  rewrite length_app. cbn [length]. rewrite Nat.add_1_r.
  unfold requestsFor, countQueryFor. cbn [flat_map]. rewrite <- app_assoc.
  cbn [app].
  destruct (firstCount out (queryAnswer out (length (sent w)))) as [sc | e];
    cbn [await ret throw]; [| reflexivity].
  destruct (firstCount out (queryAnswer out (S (length (sent w))))) as [tc | e];
    reflexivity.
Qed.

Lemma requestsFor_cons (sourceDb targetDb : Pool) (schema table : string)
    (rest : list string) :
  requestsFor sourceDb targetDb schema (table :: rest)
  = (requestsFor sourceDb targetDb schema [table]
     ++ requestsFor sourceDb targetDb schema rest)%list.
Proof. reflexivity. Qed.

(** The loop over tables given by name: every table gets its record, from
    the answers to its own two requests. *)
Lemma compareLoop_text (sourceDb targetDb : Pool) (schema : string) (names : list string) :
  forall w,
    compareLoop out sourceDb targetDb schema (map VStr names) w
    = (Return (comparisonsFrom out (length (sent w)) names),
       mkWorld (connections w)
         (sent w ++ requestsFor sourceDb targetDb schema names)).
Proof.
  induction names as [|table rest IH]; intros w.
  - simpl. unfold ret. rewrite app_nil_r. now destruct w.
  - cbn [map compareLoop]. unfold bind at 1. rewrite compareTable_text.
    unfold bind at 1. rewrite IH. cbn [connections sent ret comparisonsFrom].
    rewrite length_app. unfold ret.
    replace (length (sent w) + length (requestsFor sourceDb targetDb schema [table]))
      with (S (S (length (sent w)))) by (simpl; lia).
    rewrite (requestsFor_cons sourceDb targetDb schema table rest), app_assoc.
    reflexivity.
Qed.

(** Whatever the tables are, the loop returns, with a record per table. *)
Lemma compareLoop_returns (sourceDb targetDb : Pool) (schema : string)
    (tableList : list value) :
  forall w, exists comparisons w',
    compareLoop out sourceDb targetDb schema tableList w = (Return comparisons, w')
    /\ length comparisons = length tableList
    /\ connections w' = connections w.
Proof.
  induction tableList as [|table rest IH]; intros w.
  - exists [], w. now simpl.
  - cbn [compareLoop]. unfold bind at 1.
    assert (exists c w1, compareTable out sourceDb targetDb schema table w = (Return c, w1)
                         /\ connections w1 = connections w) as [c [w1 [E1 C1]]].
    { unfold compareTable, tryCatch, bind, settle, pool_query.
      destruct (escapeIdentifierOf out table) as [q | e]; cbn [await ret throw].
      - cbn [connections sent].
        destruct (firstCount out (queryAnswer out (length (sent w)))) as [sc | e];
          cbn [await ret throw]; eexists; eexists; split; reflexivity.
      - eexists; eexists; split; reflexivity. }
    rewrite E1. destruct (IH w1) as [cs [w2 [E2 [L2 C2]]]].
    unfold bind at 1. rewrite E2. exists (c :: cs), w2. simpl.
    split; [reflexivity |]. split; [now rewrite L2 | congruence].
Qed.



End WithOutside.


End CompareFacts.

(** ** The query tool *)

Module QueryFacts.
Import JSString JS Registry Guard Server StringFacts.
Import Laws.

Lemma digitValue_range (c : ascii) (d : Z) :
  digitValue c = Some d -> (0 <= d <= 9)%Z.
Proof.
  unfold digitValue. cbv zeta.
  destruct (N.leb_spec 48 (N_of_ascii c)) as [L1 | L1],
           (N.leb_spec (N_of_ascii c) 57) as [L2 | L2];
    cbn [andb]; try discriminate.
  intros E. injection E as <-. lia.
Qed.

Lemma digitValue_inj (c1 c2 : ascii) (d : Z) :
  digitValue c1 = Some d -> digitValue c2 = Some d -> c1 = c2.
Proof.
  unfold digitValue. cbv zeta.
  destruct (N.leb 48 (N_of_ascii c1) && N.leb (N_of_ascii c1) 57)%bool; [| discriminate].
  destruct (N.leb 48 (N_of_ascii c2) && N.leb (N_of_ascii c2) 57)%bool; [| discriminate].
  intros H1 H2. injection H1 as H1. injection H2 as H2.
  assert (N_of_ascii c1 = N_of_ascii c2) as E by lia.
  rewrite <- (ascii_N_embedding c1), <- (ascii_N_embedding c2). now rewrite E.
Qed.

Lemma readDigits_value (s : string) :
  forall acc v,
    readDigits acc s = Some v ->
    exists r, (0 <= r < 10 ^ Z.of_nat (String.length s))%Z
              /\ v = (acc * 10 ^ Z.of_nat (String.length s) + r)%Z
              /\ forall acc', readDigits acc' s
                              = Some (acc' * 10 ^ Z.of_nat (String.length s) + r)%Z.
Proof.
  induction s as [|c s IH]; intros acc v H.
  - simpl in H. injection H as <-. exists 0%Z. cbn [String.length readDigits].
    change (10 ^ Z.of_nat 0)%Z with 1%Z. split; [lia |]. split; [lia |].
    intros acc'. f_equal. lia.
  - cbn [readDigits] in H. destruct (digitValue c) as [d |] eqn:Ed; [| discriminate].
    pose proof (digitValue_range _ _ Ed) as Hd.
    destruct (IH _ _ H) as [r [Hr [Hv Hall]]].
    cbn [String.length]. rewrite Nat2Z.inj_succ, Z.pow_succ_r by lia.
    set (p := (10 ^ Z.of_nat (String.length s))%Z) in *.
    exists (d * p + r)%Z. split; [nia |]. split; [lia |].
    intros acc'. cbn [readDigits]. rewrite Ed, Hall. f_equal. lia.
Qed.

Lemma readDigits_inj (a : string) :
  forall b v,
    String.length a = String.length b ->
    readDigits 0 a = Some v -> readDigits 0 b = Some v -> a = b.
Proof.
  induction a as [|c a IH]; intros [|c' b] v L Ha Hb; try discriminate; [reflexivity |].
  cbn [String.length] in L. injection L as L.
  cbn [readDigits] in Ha, Hb.
  destruct (digitValue c) as [d |] eqn:Ed; [| discriminate].
  destruct (digitValue c') as [d' |] eqn:Ed'; [| discriminate].
  pose proof (digitValue_range _ _ Ed) as Hd. pose proof (digitValue_range _ _ Ed') as Hd'.
  destruct (readDigits_value _ _ _ Ha) as [r [Hr [Hv Hall]]].
  destruct (readDigits_value _ _ _ Hb) as [r' [Hr' [Hv' Hall']]].
  rewrite <- L in Hr', Hv', Hall'.
  set (p := (10 ^ Z.of_nat (String.length a))%Z) in *.
  assert (d * p + r = d' * p + r')%Z as Heq by lia.
  assert (d = d') as Hdd.
  { destruct (Z.lt_trichotomy d d') as [Hlt | [He | Hgt]]; [exfalso | exact He | exfalso].
    - assert ((d + 1) * p <= d' * p)%Z by (apply Z.mul_le_mono_nonneg_r; lia). lia.
    - assert ((d' + 1) * p <= d * p)%Z by (apply Z.mul_le_mono_nonneg_r; lia). lia. }
  subst d'. assert (r = r') as Hrr by lia. subst r'.
  f_equal.
  - exact (digitValue_inj _ _ _ Ed Ed').
  - apply (IH b r L).
    + rewrite Hall. f_equal; lia.
    + rewrite Hall'. f_equal; lia.
Qed.

(** A numeral that is read has a leading digit that is not 0, or is the numeral 0. *)
Lemma readNumeral_canonical (s : string) (k : Z) :
  readNumeral s = Some k ->
  (s = "0" /\ k = 0%Z)
  \/ (readDigits 0 s = Some k
      /\ (10 ^ Z.of_nat (String.length s - 1) <= k < 10 ^ Z.of_nat (String.length s))%Z
      /\ 1 <= String.length s).
Proof.
  destruct s as [|c s]; [discriminate |]. unfold readNumeral.
  destruct (digitValue c) as [d |] eqn:Ed.
  - pose proof (digitValue_range _ _ Ed) as Hd.
    assert (d = 0%Z -> c = "0"%char) as Hzero.
    { intros ->. apply (digitValue_inj _ _ 0%Z Ed). reflexivity. }
    assert (d <> 0%Z -> readDigits 0 (String c s) = Some k ->
            (readDigits 0 (String c s) = Some k
             /\ (10 ^ Z.of_nat (String.length (String c s) - 1) <= k
                 < 10 ^ Z.of_nat (String.length (String c s)))%Z
             /\ 1 <= String.length (String c s))) as Hpos.
    { intros Hne H. split; [exact H |]. split; [| simpl; lia].
      cbn [readDigits] in H. rewrite Ed in H.
      destruct (readDigits_value _ _ _ H) as [r [Hr [Hv _]]].
      cbn [String.length]. rewrite Nat.sub_succ, Nat.sub_0_r.
      rewrite Nat2Z.inj_succ, Z.pow_succ_r by lia.
      set (p := (10 ^ Z.of_nat (String.length s))%Z) in *. nia. }
    destruct d as [| d | d]; [| | lia].
    + destruct s; [| discriminate]. intros H. injection H as <-.
      left. now rewrite (Hzero eq_refl).
    + intros H. right. apply Hpos; [lia | exact H].
  - intros H. cbn [readDigits] in H. rewrite Ed in H. discriminate.
Qed.

Lemma readNumeral_inj (a b : string) (k : Z) :
  readNumeral a = Some k -> readNumeral b = Some k -> a = b.
Proof.
  intros Ha Hb.
  destruct (readNumeral_canonical _ _ Ha) as [[-> Ka] | [Ra [Ba La]]],
           (readNumeral_canonical _ _ Hb) as [[-> Kb] | [Rb [Bb Lb]]].
  - reflexivity.
  - subst k. assert (0 < 10 ^ Z.of_nat (String.length b - 1))%Z
      by (apply Z.pow_pos_nonneg; lia). lia.
  - subst k. assert (0 < 10 ^ Z.of_nat (String.length a - 1))%Z
      by (apply Z.pow_pos_nonneg; lia). lia.
  - apply (readDigits_inj a b k); [| exact Ra | exact Rb].
    destruct (Nat.lt_trichotomy (String.length a) (String.length b)) as [H | [H | H]];
      [| exact H |].
    + assert (10 ^ Z.of_nat (String.length a) <= 10 ^ Z.of_nat (String.length b - 1))%Z
        by (apply Z.pow_le_mono_r; lia). lia.
    + assert (10 ^ Z.of_nat (String.length b) <= 10 ^ Z.of_nat (String.length a - 1))%Z
        by (apply Z.pow_le_mono_r; lia). lia.
Qed.

(** The decimal text of the row caps is read back as the cap. *)
Lemma ofInteger_read (k : Z) :
  (1 <= k <= 1000)%Z -> readNumeral (ofInteger k) = Some k.
Proof.
  intros H.
  assert (forallb (fun n => match readNumeral (ofInteger (Z.of_nat n)) with
                            | Some v => Z.eqb v (Z.of_nat n)
                            | None => false
                            end) (seq 1 1000) = true) as A by (vm_compute; reflexivity).
  rewrite forallb_forall in A. specialize (A (Z.to_nat k)).
  rewrite Z2Nat.id in A by lia.
  assert (In (Z.to_nat k) (seq 1 1000)) as I by (apply in_seq; lia).
  specialize (A I). destruct (readNumeral (ofInteger k)) as [v |]; [| discriminate].
  apply Z.eqb_eq in A. now subst.
Qed.

Lemma append_same (a b : string) : a = a ++ b -> b = "".
Proof.
  intros H. apply (f_equal String.length) in H. rewrite length_append in H.
  destruct b; [reflexivity | simpl in H; lia].
Qed.

Section WithOutside.
Variable out : Outside.

(** What [handleQuery] sends for a permitted statement on a registered
    connection. *)
Lemma handleQuery_sent (w : World) (connection sql : string)
    (params : option (list value)) (limit : option Z) (db : Pool) :
  isReadOnlyQuery sql = true ->
  getConnection connection w = (Return db, w) ->
  sent (snd (handleQuery out connection sql params limit w))
  = (sent w ++
     [ Query db
         (if includes (toLowerCase (trim sql)) "limit"
          then trim sql
          else trim sql ++ " LIMIT " ++ ofInteger (rowCap (orDefault 100%Z limit)))
         (Some (orDefault [] params)) ])%list.
Proof.
  intros Hg Hc. unfold handleQuery. cbv zeta. rewrite Hg. cbn [negb].
  unfold bind at 1. rewrite Hc. unfold bind, pool_query, rowCap.
  destruct (includes (toLowerCase (trim sql)) "limit"); cbn [negb];
    destruct (queryAnswer out (length (sent w))); reflexivity.
Qed.

(** C10.  For a permitted statement on a registered connection the text
    sent is the trimmed statement followed by [ LIMIT ] and the decimal
    numeral of [k = min (max (1, n), 1000)], for the caller's limit [n]
    (100 when none is given), if and only if the lower-cased trimmed
    statement does not contain [limit]; [k] lies between 1 and 1000 and has
    one numeral.  When the statement does contain [limit], anywhere, the
    text sent is the trimmed statement and no row cap is appended, whatever
    [n]. *)
Theorem handleQuery_appends_limit
    (w : World) (connection sql : string) (params : option (list value))
    (limit : option Z) (db : Pool) :
  isReadOnlyQuery sql = true ->
  getConnection connection w = (Return db, w) ->
  exists executed,
    sent (snd (handleQuery out connection sql params limit w))
    = (sent w ++ [Query db executed (Some (orDefault [] params))])%list
    /\ ((exists numeral,
           executed = trim sql ++ " LIMIT " ++ numeral
           /\ readNumeral numeral = Some (rowCap (orDefault 100%Z limit)))
        <-> ~ contains (toLowerCase (trim sql)) "limit")
    /\ (1 <= rowCap (orDefault 100%Z limit) <= 1000)%Z
    /\ (forall a b,
          readNumeral a = Some (rowCap (orDefault 100%Z limit)) ->
          readNumeral b = Some (rowCap (orDefault 100%Z limit)) -> a = b)
    /\ (contains (toLowerCase (trim sql)) "limit" -> executed = trim sql).
Proof.
  intros Hg Hc. eexists. split; [apply (handleQuery_sent w _ _ _ _ db Hg Hc) |].
  assert (1 <= rowCap (orDefault 100%Z limit) <= 1000)%Z as Hk by (unfold rowCap; lia).
  split; [| split; [exact Hk | split; [intros a b; apply readNumeral_inj |]]].
  - destruct (includes (toLowerCase (trim sql)) "limit") eqn:E.
    + pose proof (proj1 (includes_spec _ _) E) as Hin.
      split; [| intros Hn; now destruct Hn].
      intros [numeral [H _]]. apply append_same in H. discriminate.
    + split.
      * intros _ Hin. apply includes_spec in Hin. congruence.
      * intros _. exists (ofInteger (rowCap (orDefault 100%Z limit))).
        split; [reflexivity | now apply ofInteger_read].
  - destruct (includes (toLowerCase (trim sql)) "limit") eqn:E; [reflexivity |].
    intros Hin. apply includes_spec in Hin. congruence.
Qed.

(** C2, as the code has it.  For a permitted statement on a registered
    connection the text sent is the statement without its leading and
    trailing white space, every other code unit and its letter case as
    given, followed by nothing or by the row cap [ LIMIT k]: lower-casing
    serves the comparisons only. *)
Theorem handleQuery_sends_trimmed_statement
    (w : World) (connection sql : string) (params : option (list value))
    (limit : option Z) (db : Pool) :
  isReadOnlyQuery sql = true ->
  getConnection connection w = (Return db, w) ->
  exists ws1 ws2 suffix,
    sql = ws1 ++ trim sql ++ ws2
    /\ allWhiteSpace ws1 /\ allWhiteSpace ws2
    /\ sent (snd (handleQuery out connection sql params limit w))
       = (sent w ++ [Query db (trim sql ++ suffix) (Some (orDefault [] params))])%list
    /\ (suffix = ""
        \/ suffix = " LIMIT " ++ ofInteger (rowCap (orDefault 100%Z limit))).
Proof.
  intros Hg Hc. destruct (trim_split sql) as [ws1 [ws2 [Hs [H1 H2]]]].
  exists ws1, ws2.
  exists (if includes (toLowerCase (trim sql)) "limit"
          then "" else " LIMIT " ++ ofInteger (rowCap (orDefault 100%Z limit))).
  split; [exact Hs |]. split; [exact H1 |]. split; [exact H2 |].
  rewrite (handleQuery_sent w _ _ _ _ db Hg Hc).
  destruct (includes (toLowerCase (trim sql)) "limit").
  - rewrite append_empty_r. split; [reflexivity | now left].
  - split; [reflexivity | now right].
Qed.

End WithOutside.

(** A limit of 5000 is sent as the row cap 1000; with a column named
    [limit_date] no row cap is appended, whatever the limit. *)
Lemma limit_date_example :
  (exists executed,
     sent (snd (handleQuery exampleDriver "src" "SELECT * FROM t" None (Some 5000%Z)
                  exampleWorld))
     = [Query (examplePool "old-db" "s3cret") executed (Some [])]
     /\ executed = "SELECT * FROM t LIMIT 1000")
  /\ (exists executed,
        sent (snd (handleQuery exampleDriver "src" "select limit_date from t" None
                     (Some 5%Z) exampleWorld))
        = [Query (examplePool "old-db" "s3cret") executed (Some [])]
        /\ executed = "select limit_date from t").
Proof.
  split.
  - destruct (handleQuery_appends_limit exampleDriver exampleWorld "src"
                "SELECT * FROM t" None (Some 5000%Z) (examplePool "old-db" "s3cret")
                eq_refl eq_refl) as [executed [S [I [_ [U _]]]]].
    exists executed. split; [exact S |].
    assert (~ contains (toLowerCase (trim "SELECT * FROM t")) "limit") as N.
    { intros Hin. apply includes_spec in Hin. discriminate. }
    destruct (proj2 I N) as [numeral [E R]].
    rewrite E, (U numeral "1000" R eq_refl). reflexivity.
  - destruct (handleQuery_appends_limit exampleDriver exampleWorld "src"
                "select limit_date from t" None (Some 5%Z)
                (examplePool "old-db" "s3cret") eq_refl eq_refl)
      as [executed [S [_ [_ [_ C]]]]].
    exists executed. split; [exact S |].
    rewrite C; [reflexivity |]. apply includes_spec. reflexivity.
Defined.

Lemma trimmed_statement_example :
  exists ws1 ws2 suffix,
    "  SELECT Id FROM Orders " = ws1 ++ trim "  SELECT Id FROM Orders " ++ ws2
    /\ allWhiteSpace ws1 /\ allWhiteSpace ws2
    /\ sent (snd (handleQuery exampleDriver "src" "  SELECT Id FROM Orders " None None
                    exampleWorld))
       = (sent exampleWorld
          ++ [Query (examplePool "old-db" "s3cret")
                (trim "  SELECT Id FROM Orders " ++ suffix) (Some [])])%list
    /\ (suffix = "" \/ suffix = " LIMIT " ++ ofInteger (rowCap 100)).
Proof.
  apply (handleQuery_sends_trimmed_statement exampleDriver exampleWorld "src"
           "  SELECT Id FROM Orders " None None (examplePool "old-db" "s3cret"));
    reflexivity.
Defined.

(** C2 as stated fails: permitted statements for which the text sent is not
    the statement as given, because a row cap is appended and because the
    surrounding white space is dropped. *)
Lemma sent_text_is_not_the_input :
  isReadOnlyQuery "SELECT 1" = true
  /\ sent (snd (handleQuery exampleDriver "src" "SELECT 1" None None exampleWorld))
     = [Query (examplePool "old-db" "s3cret") "SELECT 1 LIMIT 100" (Some [])]
  /\ "SELECT 1 LIMIT 100" <> "SELECT 1"
  /\ isReadOnlyQuery " select 1 limit 1 " = true
  /\ sent (snd (handleQuery exampleDriver "src" " select 1 limit 1 " None None exampleWorld))
     = [Query (examplePool "old-db" "s3cret") "select 1 limit 1" (Some [])]
  /\ "select 1 limit 1" <> " select 1 limit 1 ".
Proof. repeat split; try reflexivity; discriminate. Qed.

Example limit_date_sent :
  sent (snd (handleQuery exampleDriver "src" "select limit_date from t" None (Some 5%Z)
               exampleWorld))
  = [Query (examplePool "old-db" "s3cret") "select limit_date from t" (Some [])].
Proof. reflexivity. Qed.

Example limit_clamped :
  sent (snd (handleQuery exampleDriver "src" "SELECT * FROM t" None (Some 5000%Z)
               exampleWorld))
  = [Query (examplePool "old-db" "s3cret") "SELECT * FROM t LIMIT 1000" (Some [])].
Proof. reflexivity. Qed.

End QueryFacts.

(** ** The spreadsheet reader *)

Module SpreadsheetFacts.
Import JSString JS Spreadsheet.

Lemma Array_includes_In (l : list string) (x : string) :
  Array_includes l x = true <-> In x l.
Proof.
  unfold Array_includes. rewrite existsb_exists. split.
  - intros [y [Hin E]]. apply String.eqb_eq in E. now subst.
  - intros Hin. exists x. split; [exact Hin | apply String.eqb_refl].
Qed.

Section WithOutside.
Variable WorkSheet : Type.
Variable out : Outside WorkSheet.

Lemma validateFilePath_Return (filePath r : string) :
  validateFilePath WorkSheet out filePath = Return r <->
  r = resolve out filePath
  /\ existsSync out (resolve out filePath) = true
  /\ In (toLowerCase (extname out (resolve out filePath))) supportedExtensions.
Proof.
  unfold validateFilePath. cbv zeta.
  destruct (existsSync out (resolve out filePath)); cbn [negb].
  - destruct (Array_includes supportedExtensions _) eqn:E; cbn [negb].
    + apply Array_includes_In in E. split.
      * intros H. injection H as <-. auto.
      * intros [-> _]. reflexivity.
    + split; [discriminate |]. intros [_ [_ H]].
      apply Array_includes_In in H. congruence.
  - split; [discriminate |]. intros [_ [H _]]. discriminate.
Qed.

(** Every tool hands to the parser the paths [mayParse] allows, and no
    other. *)
Lemma tool_parses (filePath : string) (k : string -> T (WorkBook WorkSheet)) 
    (rest : WorkBook WorkSheet -> T value) (parsed : list string) :
  (forall r p, snd (k r p) = (p ++ [r])%list) ->
  (forall b p, snd (rest b p) = p) ->
  snd (tool (andThen (lift (validateFilePath WorkSheet out filePath))
               (fun resolvedPath => andThen (k resolvedPath) rest)) parsed)
  = (parsed ++ mayParse out filePath)%list.
Proof.
  intros Hk Hrest. unfold tool, andThen, lift, mayParse.
  destruct (validateFilePath WorkSheet out filePath) as [r | e].
  - specialize (Hk r parsed). destruct (k r parsed) as [[b | e] p]; simpl in Hk; subst p.
    + specialize (Hrest b (parsed ++ [r])%list).
      destruct (rest b (parsed ++ [r])%list) as [[v | e] p]; simpl in Hrest; now subst p.
    + reflexivity.
  - simpl. now rewrite app_nil_r.
Qed.

Lemma lift_keeps {A} (c : completion A) (p : list string) : snd (lift c p) = p.
Proof. reflexivity. Qed.

Lemma andThen_keeps {A B} (m : T A) (k : A -> T B) :
  (forall p, snd (m p) = p) -> (forall a p, snd (k a p) = p) ->
  forall p, snd (andThen m k p) = p.
Proof.
  intros Hm Hk p. unfold andThen. specialize (Hm p).
  destruct (m p) as [[a | e] p']; simpl in Hm; subst p'; [apply Hk | reflexivity].
Qed.

(** C8.  [validateFilePath] throws the file-not-found error when the
    resolved path does not exist, throws the unsupported-format error when
    it exists and its extension, lower-cased, is none of [.xlsx], [.xls],
    [.csv], [.ods], and returns the resolved path exactly when both checks
    pass; each of the four tools hands to the parser the resolved path when
    the validation passes and nothing otherwise. *)
Theorem validateFilePath_guards_the_parser (filePath : string) :
  (existsSync out (resolve out filePath) = false ->
     validateFilePath WorkSheet out filePath
     = Throw (FileNotFoundError (resolve out filePath)))
  /\ (existsSync out (resolve out filePath) = true ->
      ~ In (toLowerCase (extname out (resolve out filePath))) supportedExtensions ->
      validateFilePath WorkSheet out filePath
      = Throw (UnsupportedFormatError (toLowerCase (extname out (resolve out filePath)))))
  /\ (forall r,
        validateFilePath WorkSheet out filePath = Return r <->
        r = resolve out filePath
        /\ existsSync out (resolve out filePath) = true
        /\ In (toLowerCase (extname out (resolve out filePath))) supportedExtensions)
  /\ (forall parsed sheetName useHeader range,
        snd (read_spreadsheet WorkSheet out filePath sheetName useHeader parsed)
        = (parsed ++ mayParse out filePath)%list
        /\ snd (list_sheets WorkSheet out filePath parsed)
           = (parsed ++ mayParse out filePath)%list
        /\ snd (get_cell_range WorkSheet out filePath sheetName range parsed)
           = (parsed ++ mayParse out filePath)%list
        /\ snd (get_sheet_info WorkSheet out filePath sheetName parsed)
           = (parsed ++ mayParse out filePath)%list).
Proof.
  split; [| split; [| split]].
  - intros H. unfold validateFilePath. cbv zeta. now rewrite H.
  - intros H Hn. unfold validateFilePath. cbv zeta. rewrite H. cbn [negb].
    destruct (Array_includes supportedExtensions _) eqn:E; [| reflexivity].
    apply Array_includes_In in E. contradiction.
  - apply validateFilePath_Return.
  - intros parsed sheetName useHeader range.
    repeat split; apply tool_parses; try reflexivity; intros b p;
      repeat (apply andThen_keeps; [intros; apply lift_keeps |]; intros);
      try apply lift_keeps.
    destruct a0 as [[[rc cc] sc] ec]. apply lift_keeps.
Qed.

End WithOutside.

(** The file of the example passes both checks, its extension in upper
    case as it is; a missing file does not reach the parser. *)
Lemma validateFilePath_example :
  validateFilePath unit exampleOutside "Report.XLSX" = Return "/data/Report.XLSX"
  /\ snd (list_sheets unit exampleOutside "Report.XLSX" []) = ["/data/Report.XLSX"]
  /\ list_sheets unit exampleOutside "missing.xlsx" []
     = (Server.IsError "Error: File not found: /data/missing.xlsx", []).
Proof.
  destruct (validateFilePath_guards_the_parser unit exampleOutside "Report.XLSX")
    as [_ [_ [H _]]].
  split; [apply H; repeat split; simpl; auto |]. split; reflexivity.
Defined.

End SpreadsheetFacts.

(** ** The registry over a run of tool calls *)

Module RunFacts.
Import JSString JS Registry Server Tools Laws RegistryFacts.
Local Open Scope js_scope.

Lemma frame_ret {A} (a : A) : frame (ret a).
Proof. now intros w. Qed.

Lemma frame_throw {A} (e : Error) : frame (@throw A e).
Proof. now intros w. Qed.

Lemma frame_bind {A B} (m : M A) (k : A -> M B) :
  frame m -> (forall a, frame (k a)) -> frame (bind m k).
Proof.
  intros Hm Hk w. unfold bind. specialize (Hm w).
  destruct (m w) as [[a | e] w']; simpl in *; [| exact Hm].
  now rewrite (Hk a w').
Qed.

Lemma frame_tryCatch {A} (m : M A) (h : Error -> M A) :
  frame m -> (forall e, frame (h e)) -> frame (tryCatch m h).
Proof.
  intros Hm Hh w. unfold tryCatch. specialize (Hm w).
  destruct (m w) as [[a | e] w']; simpl in *; [exact Hm |].
  now rewrite (Hh e w').
Qed.

Lemma frame_settle {A} (m : M A) : frame m -> frame (settle m).
Proof.
  intros Hm w. unfold settle. specialize (Hm w). now destruct (m w).
Qed.

Lemma frame_await {A} (c : completion A) : frame (await c).
Proof. destruct c; [apply frame_ret | apply frame_throw]. Qed.

Lemma frame_readConnections : frame readConnections.
Proof. now intros w. Qed.

Lemma frame_getConnection (name : string) : frame (getConnection name).
Proof.
  unfold getConnection. apply frame_bind; [apply frame_readConnections |].
  intros m. destruct (Map_get m name); [apply frame_ret | apply frame_throw].
Qed.

Lemma frame_pool_query (out : Outside) (p : Pool) (sql : string)
    (params : option (list value)) :
  frame (pool_query out p sql params).
Proof. now intros w. Qed.

Lemma frame_pool_end (out : Outside) (p : Pool) : frame (pool_end out p).
Proof. now intros w. Qed.

Ltac frame_step :=
  first [ apply frame_ret | apply frame_throw | apply frame_await
        | apply frame_getConnection | apply frame_pool_query | apply frame_pool_end
        | apply frame_readConnections
        | apply frame_settle
        | apply frame_tryCatch; [| intros ?]
        | apply frame_bind; [| intros ?] ].

Section WithOutside.
Variable out : Outside.

Lemma frame_handleListConnections : frame handleListConnections.
Proof. unfold handleListConnections. repeat frame_step. Qed.

Lemma frame_handleQuery (connection sql : string) (params : option (list value))
    (limit : option Z) :
  frame (handleQuery out connection sql params limit).
Proof.
  unfold handleQuery. cbv zeta. destruct (negb _); repeat frame_step.
Qed.

Lemma frame_compareTable (s t : Pool) (schema : string) (table : value) :
  frame (compareTable out s t schema table).
Proof. unfold compareTable. repeat frame_step. Qed.

Lemma frame_compareLoop (s t : Pool) (schema : string) (tableList : list value) :
  frame (compareLoop out s t schema tableList).
Proof.
  induction tableList as [|table rest IH]; simpl; [apply frame_ret |].
  apply frame_bind; [apply frame_compareTable |]. intros c.
  apply frame_bind; [exact IH |]. intros cs. apply frame_ret.
Qed.

Lemma frame_handleCompareRowCounts (s t : string) (tables : option (list value))
    (schema : option string) :
  frame (handleCompareRowCounts out s t tables schema).
Proof.
  unfold handleCompareRowCounts. cbv zeta.
  apply frame_bind; [apply frame_getConnection |]. intros sdb.
  apply frame_bind; [apply frame_getConnection |]. intros tdb.
  apply frame_bind; [destruct (Nat.eqb _ 0); repeat frame_step |]. intros l.
  apply frame_bind; [apply frame_compareLoop |]. intros cs. apply frame_ret.
Qed.

Lemma handleAddConnection_step (name host : string) (port : option Z)
    (database user password : string) (w : World) :
  step (connections w)
       (connections (snd (handleAddConnection out name host port database user password w))).
Proof.
  unfold handleAddConnection, addConnection, bind, readConnections, tryCatch.
  cbv zeta. destruct (Map_has (connections w) name) eqn:Hhas; [now left |].
  apply Map_get_has in Hhas. rewrite (Map_set_absent _ _ _ Hhas).
  unfold writeConnections, getConnection, bind, readConnections. cbn [connections sent].
  rewrite (Map_get_added _ _ _ Hhas).
  unfold ret, pool_query, connections_delete, bind, readConnections,
    writeConnections, throw. cbn [connections sent Registry.pool].
  destruct (queryAnswer out (length (sent w))) as [r | e]; cbn [snd connections sent].
  - right. left. eexists. eexists. split; [exact Hhas | reflexivity].
  - left. now apply Map_delete_added.
Qed.

Lemma handleRemoveConnection_step (name : string) (w : World) :
  step (connections w) (connections (snd (handleRemoveConnection out name w))).
Proof.
  unfold handleRemoveConnection, removeConnection, bind, readConnections, pool_end,
    connections_delete, writeConnections.
  destruct (Map_get (connections w) name); [| now left].
  destruct (endAnswer out (length (sent w))); cbn.
  - right. right. now exists name.
  - now left.
Qed.

Lemma dispatch_step (c : ToolCall) (w : World) :
  step (connections w) (connections (snd (dispatch out c w))).
Proof.
  destruct c; simpl.
  - apply handleAddConnection_step.
  - apply handleRemoveConnection_step.
  - left. apply frame_handleListConnections.
  - left. apply frame_handleQuery.
  - left. apply frame_handleCompareRowCounts.
Qed.

Lemma Map_keys_app (m1 m2 : Connections) :
  Map_keys (m1 ++ m2)%list = (Map_keys m1 ++ Map_keys m2)%list.
Proof. apply map_app. Qed.

Lemma Map_get_None_keys (m : Connections) (name : string) :
  Map_get m name = None <-> ~ In name (Map_keys m).
Proof.
  induction m as [|[k e] m IH]; simpl; [tauto |].
  destruct (String.eqb k name) eqn:E.
  - apply String.eqb_eq in E. split; [discriminate | intros H; exfalso; apply H; now left].
  - apply String.eqb_neq in E. rewrite IH. tauto.
Qed.

Lemma Map_keys_delete (m : Connections) (name : string) :
  Map_keys (Map_delete m name)
  = filter (fun k => negb (String.eqb k name)) (Map_keys m).
Proof.
  induction m as [|[k e] m IH]; simpl; [reflexivity |].
  destruct (String.eqb k name); simpl; now rewrite IH.
Qed.

Lemma NoDup_snoc (l : list string) (x : string) :
  NoDup l -> ~ In x l -> NoDup (l ++ [x]).
Proof.
  induction l as [|k ks IH]; simpl; intros H Hn.
  - constructor; [intros [] | constructor].
  - inversion H as [|? ? Hk Hks]; subst. constructor.
    + rewrite in_app_iff. intros [Hin | [<- | []]]; [contradiction |].
      apply Hn. now left.
    + apply IH; [exact Hks |]. intros Hin. apply Hn. now right.
Qed.

Lemma step_unique (m m' : Connections) : step m m' -> unique m -> unique m'.
Proof.
  unfold unique. intros [-> | [[name [e [Hn ->]]] | [name ->]]] H.
  - exact H.
  - rewrite Map_keys_app. simpl. apply NoDup_snoc; [exact H |].
    now apply Map_get_None_keys.
  - rewrite Map_keys_delete. now apply NoDup_filter.
Qed.

(** Over every run of tool calls, from a registry with unique names, the
    names stay unique. *)
Theorem serve_keeps_names_unique (calls : list ToolCall) :
  forall w, unique (connections w) -> unique (connections (snd (serve out calls w))).
Proof.
  induction calls as [|c rest IH]; intros w H; [exact H |].
  simpl. unfold callTool. pose proof (dispatch_step c w) as Hs.
  destruct (dispatch out c w) as [[v | e] w1]; simpl in Hs;
    pose proof (step_unique _ _ Hs H) as H1; specialize (IH w1 H1);
    destruct (serve out rest w1) as [rs w2]; exact IH.
Qed.

End WithOutside.

(** A run that adds the same name twice and removes it. *)
Lemma serve_example_unique :
  unique (connections (snd (serve agreeable
    [ add_connection "a" "h" None "d" "u" "p"; add_connection "a" "h2" None "d" "u" "p";
      add_connection "b" "h" None "d" "u" "p"; remove_connection "a" ]
    emptyWorld))).
Proof.
  apply (serve_keeps_names_unique agreeable _ emptyWorld). constructor.
Defined.

End RunFacts.

(** ** Adding, removing and looking up *)

Module LookupFacts.
Import JSString JS Registry Guard Server Tools Laws RegistryFacts RunFacts.
Local Open Scope js_scope.

Lemma getConnection_absent (name : string) (w : World) :
  Map_get (connections w) name = None ->
  getConnection name w = (Throw (NotFoundError name (connections w)), w).
Proof. intros H. unfold getConnection, bind, readConnections. now rewrite H. Qed.

Lemma getConnection_present (name : string) (conn : Entry) (w : World) :
  Map_get (connections w) name = Some conn ->
  getConnection name w = (Return (pool conn), w).
Proof. intros H. unfold getConnection, bind, readConnections. now rewrite H. Qed.

Section WithOutside.
Variable out : Outside.

Lemma frame_handleCompareSchemas (first : bool) (s t table : string)
    (schema : option string) :
  frame (handleCompareSchemas out first s t table schema).
Proof.
  unfold handleCompareSchemas. cbv zeta.
  do 5 (apply frame_bind; [repeat frame_step |]; intros ?).
  destruct (checkSource _ _). apply frame_ret.
Qed.

(** The tools that read leave the registry as it is, whatever the driver
    answers, and listing the connections sends nothing to the driver. *)
Theorem reading_tools_leave_the_registry (w : World) :
  (connections (snd (handleListConnections w)) = connections w
   /\ sent (snd (handleListConnections w)) = sent w)
  /\ (forall connection sql params limit,
        connections (snd (handleQuery out connection sql params limit w)) = connections w)
  /\ (forall s t tables schema,
        connections (snd (handleCompareRowCounts out s t tables schema w)) = connections w)
  /\ (forall first s t table schema,
        connections (snd (handleCompareSchemas out first s t table schema w))
        = connections w)
  /\ (forall connection table schema limit,
        connections (snd (handleListSchemas out connection w)) = connections w
        /\ connections (snd (handleListTables out connection schema w)) = connections w
        /\ connections (snd (handleDescribeTable out connection table schema w))
           = connections w
        /\ connections (snd (handleGetTableSample out connection table schema limit w))
           = connections w
        /\ connections (snd (handleGetTableCount out connection table schema w))
           = connections w
        /\ connections (snd (handleGetIndexes out connection table schema w))
           = connections w
        /\ connections (snd (handleGetForeignKeys out connection table schema w))
           = connections w).
Proof.
  split; [split; reflexivity |].
  split; [intros; apply frame_handleQuery |].
  split; [intros; apply frame_handleCompareRowCounts |].
  split; [intros; apply frame_handleCompareSchemas |].
  intros connection table schema limit.
  repeat split;
    match goal with
    | |- connections (snd (?h w)) = connections w =>
        enough (frame h) as F by exact (F w)
    end;
    unfold handleListSchemas, handleListTables, handleDescribeTable, handleGetTableSample,
      handleGetTableCount, handleGetIndexes, handleGetForeignKeys; cbv zeta;
    repeat frame_step.
Qed.

(** A name that is not registered: every tool that is given it answers
    with the not-found error and sends nothing, the registry and the log of
    requests being as before.  A comparison whose target is missing does
    not query its source either. *)
Theorem tools_on_a_missing_connection (w : World) (name : string) :
  Map_get (connections w) name = None ->
  let notFound := (@Throw value (NotFoundError name (connections w)), w) in
  (forall sql params limit,
      isReadOnlyQuery sql = true ->
      handleQuery out name sql params limit w = notFound)
  /\ (forall table schema limit,
        handleListSchemas out name w = notFound
        /\ handleListTables out name schema w = notFound
        /\ handleDescribeTable out name table schema w = notFound
        /\ handleGetTableSample out name table schema limit w = notFound
        /\ handleGetTableCount out name table schema w = notFound
        /\ handleGetIndexes out name table schema w = notFound
        /\ handleGetForeignKeys out name table schema w = notFound)
  /\ (forall other tables table schema first,
        handleCompareRowCounts out name other tables schema w = notFound
        /\ handleCompareSchemas out first name other table schema w = notFound)
  /\ (forall source conn tables table schema first,
        Map_get (connections w) source = Some conn ->
        handleCompareRowCounts out source name tables schema w = notFound
        /\ handleCompareSchemas out first source name table schema w = notFound).
Proof.
  intros H. cbv zeta. pose proof (getConnection_absent name w H) as G.
  split; [| split; [| split]].
  - intros sql params limit Hg. unfold handleQuery. cbv zeta. rewrite Hg. cbn [negb].
    unfold bind. now rewrite G.
  - intros table schema limit.
    unfold handleListSchemas, handleListTables, handleDescribeTable, handleGetTableSample,
      handleGetTableCount, handleGetIndexes, handleGetForeignKeys. cbv zeta.
    unfold bind. rewrite G. repeat split.
  - intros other tables table schema first.
    unfold handleCompareRowCounts, handleCompareSchemas. cbv zeta.
    unfold bind. rewrite G. split; reflexivity.
  - intros source conn tables table schema first Hs.
    pose proof (getConnection_present source conn w Hs) as G'.
    unfold handleCompareRowCounts, handleCompareSchemas. cbv zeta.
    unfold bind. rewrite G', G. split; reflexivity.
Qed.

(** A successful add: the name was free and the probe is answered.  The
    entry goes last in the registry; looking the name up gives the pool
    built from the five parameters and the three fixed limits; the only
    request sent is the probe; the listing is the one before followed by
    the new entry. *)
Theorem add_then_lookup_and_list
    (w : World) (name host : string) (port : option Z) (database user password : string)
    (r : QueryResult) (items : list value) :
  Map_has (connections w) name = false ->
  queryAnswer out (length (sent w)) = Return r ->
  fst (handleListConnections w) = Return (VArr items) ->
  let thePool :=
    newPool (mkPoolConfig host (orDefault 5432%Z port) database user password
               5 30000 5000) in
  exists response w',
    handleAddConnection out name host port database user password w = (Return response, w')
    /\ Map_keys (connections w') = (Map_keys (connections w) ++ [name])%list
    /\ getConnection name w' = (Return thePool, w')
    /\ sent w' = (sent w ++ [Query thePool "SELECT 1" None])%list
    /\ fst (handleListConnections w')
       = Return (VArr (items ++
                       [ VObj [ ("name", VStr name); ("host", VStr host);
                                ("port", VNum (Num (orDefault 5432%Z port)));
                                ("database", VStr database); ("user", VStr user) ] ])).
Proof.
  intros Hhas Hq Hl. cbv zeta.
  unfold handleAddConnection, addConnection, bind, readConnections, tryCatch.
  cbv zeta. rewrite Hhas.
  apply Map_get_has in Hhas. rewrite (Map_set_absent _ _ _ Hhas).
  unfold writeConnections, getConnection, bind, readConnections. cbn [connections sent].
  rewrite (Map_get_added _ _ _ Hhas).
  unfold ret, pool_query. cbn [connections sent Registry.pool]. rewrite Hq.
  eexists. eexists. split; [reflexivity |]. cbn [connections sent].
  rewrite (Map_get_added _ _ _ Hhas). cbn [Registry.pool].
  split; [now rewrite Map_keys_app |]. split; [reflexivity |]. split; [reflexivity |].
  unfold handleListConnections, bind, readConnections, ret in *. cbn [fst connections] in *.
  injection Hl as <-. now rewrite map_app.
Qed.

(** A remove that fails changes nothing in the registry.  For a name that
    is not registered it throws its own not-found error and sends nothing;
    when the pool refuses to end, the driver's error is thrown and the
    entry is still there, so the name still resolves to the pool. *)
Theorem failed_remove_keeps_the_registry (w : World) (name : string) :
  (Map_get (connections w) name = None ->
     removeConnection out name w = (Throw (RemoveNotFoundError name), w))
  /\ (forall conn e,
        Map_get (connections w) name = Some conn ->
        endAnswer out (length (sent w)) = Throw e ->
        exists w',
          removeConnection out name w = (Throw e, w')
          /\ connections w' = connections w
          /\ sent w' = (sent w ++ [End (pool conn)])%list
          /\ getConnection name w' = (Return (pool conn), w')).
Proof.
  split.
  - intros H. unfold removeConnection, bind, readConnections. now rewrite H.
  - intros conn e H He.
    unfold removeConnection, bind, readConnections, pool_end. rewrite H, He.
    eexists. split; [reflexivity |]. cbn [connections sent].
    split; [reflexivity |]. split; [reflexivity |].
    apply getConnection_present. exact H.
Qed.

Lemma Map_get_delete_other (m : Connections) (name other : string) :
  other <> name -> Map_get (Map_delete m name) other = Map_get m other.
Proof.
  intros Hne. induction m as [|[k e] m IH]; simpl; [reflexivity |].
  destruct (String.eqb k name) eqn:E; simpl.
  - apply String.eqb_eq in E. subst k.
    destruct (String.eqb name other) eqn:E'; [| exact IH].
    apply String.eqb_eq in E'. congruence.
  - now rewrite IH.
Qed.

(** A successful remove takes the name out and nothing else: the other
    names keep their entries and their order, and the name is free for a
    new add. *)
Theorem remove_takes_one_name_out (w : World) (name : string) (conn : Entry) :
  Map_get (connections w) name = Some conn ->
  endAnswer out (length (sent w)) = Return tt ->
  exists response w',
    handleRemoveConnection out name w = (Return response, w')
    /\ Map_keys (connections w')
       = filter (fun k => negb (String.eqb k name)) (Map_keys (connections w))
    /\ (forall other, other <> name ->
          Map_get (connections w') other = Map_get (connections w) other)
    /\ Map_has (connections w') name = false
    /\ sent w' = (sent w ++ [End (pool conn)])%list.
Proof.
  intros H He. unfold handleRemoveConnection, removeConnection, bind, readConnections,
    pool_end, connections_delete, writeConnections. rewrite H, He.
  cbn [connections sent ret]. eexists. eexists. split; [reflexivity |].
  cbn [connections sent]. split; [apply Map_keys_delete |].
  split; [intros other Hne; now apply Map_get_delete_other |].
  split; [apply Map_get_has, Map_get_deleted | reflexivity].
Qed.

End WithOutside.

Lemma missing_connection_example :
  (forall sql params limit,
      isReadOnlyQuery sql = true ->
      handleQuery agreeable "gone" sql params limit exampleWorld
      = (Throw (NotFoundError "gone" (connections exampleWorld)), exampleWorld))
  /\ message (NotFoundError "gone" (connections exampleWorld))
     = "Connection 'gone' not found. Available connections: src, tgt".
Proof.
  split; [| reflexivity].
  apply (tools_on_a_missing_connection agreeable exampleWorld "gone"). reflexivity.
Defined.

Lemma add_example :
  exists response w',
    handleAddConnection agreeable "new" "db.example" (Some 6543%Z) "shop" "reader" "pw"
      exampleWorld = (Return response, w')
    /\ Map_keys (connections w') = ["src"; "tgt"; "new"]
    /\ getConnection "new" w'
       = (Return (newPool (mkPoolConfig "db.example" 6543 "shop" "reader" "pw"
                             5 30000 5000)), w')
    /\ sent w'
       = [Query (newPool (mkPoolConfig "db.example" 6543 "shop" "reader" "pw"
                            5 30000 5000)) "SELECT 1" None]
    /\ fst (handleListConnections w')
       = Return (VArr
           [ VObj [ ("name", VStr "src"); ("host", VStr "old-db");
                    ("port", VNum (Num 5432)); ("database", VStr "shop");
                    ("user", VStr "reader") ];
             VObj [ ("name", VStr "tgt"); ("host", VStr "new-db");
                    ("port", VNum (Num 5432)); ("database", VStr "shop");
                    ("user", VStr "reader") ];
             VObj [ ("name", VStr "new"); ("host", VStr "db.example");
                    ("port", VNum (Num 6543)); ("database", VStr "shop");
                    ("user", VStr "reader") ] ]).
Proof.
  apply (add_then_lookup_and_list agreeable exampleWorld "new" "db.example" (Some 6543%Z)
           "shop" "reader" "pw" (mkResult (VNum (Num 0)) [])
           [ VObj [ ("name", VStr "src"); ("host", VStr "old-db");
                    ("port", VNum (Num 5432)); ("database", VStr "shop");
                    ("user", VStr "reader") ];
             VObj [ ("name", VStr "tgt"); ("host", VStr "new-db");
                    ("port", VNum (Num 5432)); ("database", VStr "shop");
                    ("user", VStr "reader") ] ]);
    reflexivity.
Defined.

Lemma failed_remove_example :
  removeConnection agreeable "gone" exampleWorld
  = (Throw (RemoveNotFoundError "gone"), exampleWorld).
Proof.
  apply (proj1 (failed_remove_keeps_the_registry agreeable exampleWorld "gone")).
  reflexivity.
Defined.

Lemma remove_example :
  exists response w',
    handleRemoveConnection agreeable "src" exampleWorld = (Return response, w')
    /\ Map_keys (connections w')
       = filter (fun k => negb (String.eqb k "src")) (Map_keys (connections exampleWorld))
    /\ (forall other, other <> "src" ->
          Map_get (connections w') other = Map_get (connections exampleWorld) other)
    /\ Map_has (connections w') "src" = false
    /\ sent w' = (sent exampleWorld ++ [End (examplePool "old-db" "s3cret")])%list.
Proof.
  apply (remove_takes_one_name_out agreeable exampleWorld "src"
           (mkEntry (examplePool "old-db" "s3cret") (mkDisplay "old-db" 5432 "shop" "reader")));
    reflexivity.
Defined.

End LookupFacts.

(** ** More on the guard and on quoting *)

Module GuardMore.
Import JSString RegExp JS Registry Guard Server Tools StringFacts RegExpFacts GuardFacts.
Local Open Scope js_scope.

Lemma toLowerCase_empty (s : string) :
  String.eqb (toLowerCase s) "" = String.eqb s "".
Proof. now destruct s. Qed.

Lemma trimStart_toLowerCase (s : string) :
  trimStart (toLowerCase s) = toLowerCase (trimStart s).
Proof.
  induction s as [|c s IH]; [reflexivity |]. cbn [toLowerCase trimStart].
  rewrite isWhiteSpace_lowerChar. destruct (isWhiteSpace c); [exact IH | reflexivity].
Qed.

Lemma trimEnd_toLowerCase (s : string) :
  trimEnd (toLowerCase s) = toLowerCase (trimEnd s).
Proof.
  induction s as [|c s IH]; [reflexivity |]. cbn [toLowerCase].
  rewrite !trimEnd_cons, IH, isWhiteSpace_lowerChar, toLowerCase_empty.
  now destruct (_ && _)%bool.
Qed.

Lemma trim_toLowerCase (s : string) : trim (toLowerCase s) = toLowerCase (trim s).
Proof. unfold trim. now rewrite trimStart_toLowerCase, trimEnd_toLowerCase. Qed.

Lemma allWhiteSpace_cons (c : ascii) (ws : string) :
  allWhiteSpace (String c ws) -> isWhiteSpace c = true /\ allWhiteSpace ws.
Proof.
  intros H. split; [apply H; now left |]. intros d Hd. apply H. now right.
Qed.

Lemma trimStart_space (ws x : string) :
  allWhiteSpace ws -> trimStart (ws ++ x) = trimStart x.
Proof.
  induction ws as [|c ws IH]; intros H; [reflexivity |].
  apply allWhiteSpace_cons in H as [Hc H]. simpl. rewrite Hc. now apply IH.
Qed.

Lemma trimEnd_space (ws : string) : allWhiteSpace ws -> trimEnd ws = "".
Proof.
  induction ws as [|c ws IH]; intros H; [reflexivity |].
  apply allWhiteSpace_cons in H as [Hc H]. rewrite trimEnd_cons, (IH H), Hc. reflexivity.
Qed.

Lemma trimEnd_append_space (x ws : string) :
  allWhiteSpace ws -> trimEnd (x ++ ws) = trimEnd x.
Proof.
  intros H. induction x as [|c x IH]; [now apply trimEnd_space |].
  cbn [append]. now rewrite !trimEnd_cons, IH.
Qed.

Lemma trim_append_space (x ws : string) :
  allWhiteSpace ws -> trim (x ++ ws) = trim x.
Proof.
  intros H. unfold trim. induction x as [|c x IH].
  - simpl. rewrite <- (append_empty_r ws), (trimStart_space ws "" H). reflexivity.
  - cbn [append trimStart]. destruct (isWhiteSpace c); [exact IH |].
    change (String c (x ++ ws)) with (String c x ++ ws). now apply trimEnd_append_space.
Qed.

(** The verdict of the guard depends on the statement up to letter case and
    up to white space around it. *)
Theorem guard_ignores_case_and_outer_space :
  (forall s t, toLowerCase s = toLowerCase t -> isReadOnlyQuery s = isReadOnlyQuery t)
  /\ (forall ws1 ws2 s,
        allWhiteSpace ws1 -> allWhiteSpace ws2 ->
        isReadOnlyQuery (ws1 ++ s ++ ws2) = isReadOnlyQuery s).
Proof.
  split.
  - intros s t H. unfold isReadOnlyQuery. cbv zeta.
    now rewrite <- !trim_toLowerCase, H.
  - intros ws1 ws2 s H1 H2. unfold isReadOnlyQuery. cbv zeta.
    assert (trim (ws1 ++ s ++ ws2) = trim s) as ->; [| reflexivity].
    unfold trim at 1. rewrite (trimStart_space ws1 _ H1).
    exact (trim_append_space s ws2 H2).
Qed.

Lemma guard_case_example :
  isReadOnlyQuery "Select Id From Orders" = isReadOnlyQuery "SELECT ID FROM ORDERS".
Proof.
  apply (proj1 guard_ignores_case_and_outer_space). reflexivity.
Defined.

(** A statement that fails either condition of the guard never reaches the
    registry or the driver: [handleQuery] throws the read-only error and
    the state is the one before, whether the connection exists or not. *)
Theorem rejected_statements_are_not_sent (out : Outside) (sql : string) :
  (~ startsWithPermitted (toLowerCase (trim sql))
   \/ exists kw, In kw forbiddenKeywords /\ wholeWordIn kw sql) ->
  forall connection params limit w,
    handleQuery out connection sql params limit w = (Throw NotReadOnlyError, w).
Proof.
  intros H connection params limit w. unfold handleQuery. cbv zeta.
  destruct (isReadOnlyQuery sql) eqn:E; [| reflexivity].
  apply isReadOnlyQuery_iff in E as [Hp Hn].
  destruct H as [H | [kw [Hin Hocc]]]; [contradiction | now apply Hn in Hocc].
Qed.

Lemma stacked_drop_example :
  handleQuery agreeable "src" "select 1; DROP table t" None None exampleWorld
  = (Throw NotReadOnlyError, exampleWorld).
Proof.
  apply (rejected_statements_are_not_sent agreeable "select 1; DROP table t").
  right. exists "drop". split; [simpl; auto |].
  exists "select 1; ", "DROP", " table t". repeat split.
Defined.

Lemma escapeIdentifier_quoted (s : string) : escapeIdentifier s = quoted s.
Proof.
  unfold escapeIdentifier, quoted, replaceAll. cbn [ignoreCase source].
  now rewrite replaceAll_dquote.
Qed.

Lemma lexQuotedBody_doubleQuotes (s rest : string) :
  startsWith rest (String dquote "") = false ->
  lexQuotedBody (doubleQuotes s ++ String dquote rest) = Some (s, rest).
Proof.
  intros Hr. induction s as [|c s IH].
  - cbn [doubleQuotes append lexQuotedBody]. rewrite Ascii.eqb_refl.
    destruct rest as [|d rest]; [reflexivity |]. cbn [startsWith] in Hr.
    rewrite andb_true_r, Ascii.eqb_sym in Hr. now rewrite Hr.
  - cbn [doubleQuotes]. destruct (Ascii.eqb c dquote) eqn:E.
    + apply Ascii.eqb_eq in E. subst c. cbn [append lexQuotedBody].
      rewrite Ascii.eqb_refl, IH. reflexivity.
    + cbn [append lexQuotedBody]. now rewrite E, IH.
Qed.

Lemma lexQuoted_escapeIdentifier (s rest : string) :
  startsWith rest (String dquote "") = false ->
  lexQuoted (escapeIdentifier s ++ rest) = Some (s, rest).
Proof.
  intros Hr. rewrite escapeIdentifier_quoted. unfold quoted. cbn [append lexQuoted].
  rewrite Ascii.eqb_refl, append_assoc. cbn [append].
  now apply lexQuotedBody_doubleQuotes.
Qed.

Lemma lexQualified_escapeIdentifier (schema table rest : string) :
  startsWith rest (String dquote "") = false ->
  lexQualified (escapeIdentifier schema ++ "." ++ escapeIdentifier table ++ rest)
  = Some (schema, table, rest).
Proof.
  intros Hr. unfold lexQualified.
  rewrite (lexQuoted_escapeIdentifier schema) by reflexivity. cbn [append].
  now rewrite (lexQuoted_escapeIdentifier table rest Hr).
Qed.

(** Whatever the identifier holds, a reader of SQL takes its escaped form
    as one quoted identifier, gets the identifier back and goes on with the
    text that follows; so two identifiers never escape to the same text. *)
Theorem escaped_identifier_is_read_back_whole :
  (forall s rest,
      startsWith rest (String dquote "") = false ->
      lexQuoted (escapeIdentifier s ++ rest) = Some (s, rest))
  /\ (forall a b, escapeIdentifier a = escapeIdentifier b -> a = b).
Proof.
  split; [exact lexQuoted_escapeIdentifier |].
  intros a b H.
  pose proof (lexQuoted_escapeIdentifier a "" eq_refl) as Ha.
  pose proof (lexQuoted_escapeIdentifier b "" eq_refl) as Hb.
  rewrite H, Hb in Ha. now injection Ha.
Qed.

(** An identifier that tries to close its quote and start a statement. *)
Lemma injection_example :
  lexQuoted (escapeIdentifier ("t" ++ String dquote "; DROP TABLE x; --") ++ " LIMIT $1")
  = Some ("t" ++ String dquote "; DROP TABLE x; --", " LIMIT $1").
Proof.
  apply (proj1 escaped_identifier_is_read_back_whole). reflexivity.
Defined.

Section WithOutside.
Variable out : Outside.

(** The sample and count tools put the schema and the table into their
    statement as two quoted identifiers and nothing else: read back, the
    text after [FROM] is the schema, a dot, the table, and then the fixed
    rest.  The sample sends its limit as the parameter, between 1 and 100,
    the caller's own when it lies there. *)
Theorem table_tools_quote_their_identifiers
    (w : World) (connection table : string) (schema : option string)
    (limit : option Z) (db : Pool) :
  getConnection connection w = (Return db, w) ->
  exists sampleName countName,
    sent (snd (handleGetTableSample out connection table schema limit w))
    = (sent w ++ [Query db ("SELECT * FROM " ++ sampleName)
                    (Some [VNum (Num (sampleLimit limit))])])%list
    /\ lexQualified sampleName = Some (orDefault "public" schema, table, " LIMIT $1")
    /\ sent (snd (handleGetTableCount out connection table schema w))
       = (sent w ++ [Query db ("SELECT COUNT(*) as count FROM " ++ countName) None])%list
    /\ lexQualified countName = Some (orDefault "public" schema, table, "")
    /\ (1 <= sampleLimit limit <= 100)%Z
    /\ (forall n, limit = Some n -> (1 <= n <= 100)%Z -> sampleLimit limit = n).
Proof.
  intros Hc.
  exists (escapeIdentifier (orDefault "public" schema) ++ "." ++ escapeIdentifier table
          ++ " LIMIT $1"),
         (escapeIdentifier (orDefault "public" schema) ++ "." ++ escapeIdentifier table ++ "").
  split; [| split; [| split; [| split; [| split]]]].
  - unfold handleGetTableSample. cbv zeta. unfold bind at 1. rewrite Hc.
    unfold bind, pool_query. cbn [connections sent].
    destruct (queryAnswer out (length (sent w))); reflexivity.
  - now apply lexQualified_escapeIdentifier.
  - unfold handleGetTableCount. cbv zeta. unfold bind at 1. rewrite Hc.
    unfold bind at 1. unfold pool_query at 1. cbn [connections sent].
    rewrite append_empty_r.
    destruct (queryAnswer out (length (sent w))) as [r | e]; [| reflexivity].
    unfold bind. destruct (firstCount out (Return r)); reflexivity.
  - now apply lexQualified_escapeIdentifier.
  - unfold sampleLimit. lia.
  - intros n -> Hn. unfold sampleLimit. simpl. lia.
Qed.

(** The introspection tools send statements that do not depend on their
    arguments: the schema and the table travel as parameters, in the order
    of the placeholders of each statement. *)
Theorem introspection_tools_pass_names_as_parameters
    (w : World) (connection table : string) (schema : option string) (db : Pool) :
  getConnection connection w = (Return db, w) ->
  sent (snd (handleListSchemas out connection w))
  = (sent w ++ [Query db listSchemasSql None])%list
  /\ sent (snd (handleListTables out connection schema w))
     = (sent w ++ [Query db listTablesSql (Some [VStr (orDefault "public" schema)])])%list
  /\ sent (snd (handleDescribeTable out connection table schema w))
     = (sent w ++ [Query db describeTableSql
                     (Some [VStr (orDefault "public" schema); VStr table])])%list
  /\ sent (snd (handleGetIndexes out connection table schema w))
     = (sent w ++ [Query db getIndexesSql
                     (Some [VStr table; VStr (orDefault "public" schema)])])%list
  /\ sent (snd (handleGetForeignKeys out connection table schema w))
     = (sent w ++ [Query db getForeignKeysSql
                     (Some [VStr (orDefault "public" schema); VStr table])])%list
  /\ includes listTablesSql "table_schema = $1" = true
  /\ includes describeTableSql "c.table_schema = $1 AND c.table_name = $2" = true
  /\ includes getIndexesSql "t.relname = $1 AND n.nspname = $2" = true
  /\ includes getForeignKeysSql "tc.table_schema = $1" = true
  /\ includes getForeignKeysSql "tc.table_name = $2" = true.
Proof.
  intros Hc.
  unfold handleListSchemas, handleListTables, handleDescribeTable, handleGetIndexes,
    handleGetForeignKeys. cbv zeta.
  repeat split; try reflexivity;
    unfold bind at 1; rewrite Hc; unfold bind, pool_query; cbn [connections sent];
    destruct (queryAnswer out (length (sent w))); reflexivity.
Qed.

End WithOutside.

Lemma table_tools_example :
  exists sampleName countName,
    sent (snd (handleGetTableSample agreeable "src" "orders" None (Some 5000%Z) exampleWorld))
    = (sent exampleWorld
       ++ [Query (examplePool "old-db" "s3cret") ("SELECT * FROM " ++ sampleName)
             (Some [VNum (Num (sampleLimit (Some 5000%Z)))])])%list
    /\ lexQualified sampleName = Some ("public", "orders", " LIMIT $1")
    /\ sent (snd (handleGetTableCount agreeable "src" "orders" None exampleWorld))
       = (sent exampleWorld
          ++ [Query (examplePool "old-db" "s3cret")
                ("SELECT COUNT(*) as count FROM " ++ countName) None])%list
    /\ lexQualified countName = Some ("public", "orders", "")
    /\ (1 <= sampleLimit (Some 5000%Z) <= 100)%Z
    /\ (forall n, Some 5000%Z = Some n -> (1 <= n <= 100)%Z -> sampleLimit (Some 5000%Z) = n).
Proof.
  apply (table_tools_quote_their_identifiers agreeable exampleWorld "src" "orders" None
           (Some 5000%Z) (examplePool "old-db" "s3cret")).
  reflexivity.
Defined.

Lemma introspection_example :
  sent (snd (handleGetIndexes agreeable "src" "orders" None exampleWorld))
  = [Query (examplePool "old-db" "s3cret") getIndexesSql
       (Some [VStr "orders"; VStr "public"])].
Proof.
  apply (proj1 (proj2 (proj2 (proj2
           (introspection_tools_pass_names_as_parameters agreeable exampleWorld "src"
              "orders" None (examplePool "old-db" "s3cret") eq_refl))))).
Defined.

End GuardMore.

(** ** More on comparing row counts *)

Module CompareMore.
Import JSString JS Registry Guard Server Tools Laws CompareFacts LookupFacts.
Local Open Scope js_scope.

Section WithOutside.
Variable out : Outside.

Lemma compareTable_countedOnce (s t : Pool) (schema : string) (table : value) (w : World) :
  forall c w', compareTable out s t schema table w = (Return c, w') -> countedOnce c.
Proof.
  intros c w'. unfold compareTable, tryCatch, bind, settle, pool_query.
  destruct (escapeIdentifierOf out table) as [q | e]; cbn [await ret throw].
  - cbn [connections sent].
    destruct (firstCount out (queryAnswer out (length (sent w)))) as [sc | e];
      cbn [await ret throw].
    + intros H. injection H as <- _.
      match goal with
      | |- context [firstCount out ?a] => destruct (firstCount out a) as [tc | e]
      end; [destruct (strictEq sc tc) |]; (split; [reflexivity | discriminate]).
    + intros H. injection H as <- _. split; [reflexivity | intros _; reflexivity].
  - intros H. injection H as <- _. split; [reflexivity | intros _; reflexivity].
Qed.

Lemma compareLoop_countedOnce (s t : Pool) (schema : string) (tableList : list value) :
  forall w cs w',
    compareLoop out s t schema tableList w = (Return cs, w') -> Forall countedOnce cs.
Proof.
  induction tableList as [|table rest IH]; intros w cs w'.
  - simpl. unfold ret. intros H. injection H as <- _. constructor.
  - cbn [compareLoop]. unfold bind at 1.
    destruct (compareTable out s t schema table w) as [[c | e] w1] eqn:E1; [| discriminate].
    unfold bind at 1.
    destruct (compareLoop out s t schema rest w1) as [[cs1 | e] w2] eqn:E2; [| discriminate].
    unfold ret. intros H. injection H as <- _. constructor.
    + exact (compareTable_countedOnce _ _ _ _ _ _ _ E1).
    + exact (IH _ _ _ E2).
Qed.

Lemma countedOnce_totals (cs : list value) :
  Forall countedOnce cs ->
  length (filter (matchIs true) cs) + length (filter (matchIs false) cs)
  + length (filter isErrorEntry cs) = length cs
  /\ length (filter hasError cs) <= length (filter isErrorEntry cs).
Proof.
  induction 1 as [|c cs [Hc He] _ [IH1 IH2]]; [split; reflexivity |].
  simpl. destruct (matchIs true c), (matchIs false c), (isErrorEntry c),
    (hasError c); simpl in *; try discriminate; try (specialize (He eq_refl));
    try discriminate; split; lia.
Qed.

(** What the handler tests on a record is what the record says: its
    verdict, or its message. *)
Lemma compareTable_kinds (s t : Pool) (schema : string) (table : value) (w : World) :
  forall c w', compareTable out s t schema table w = (Return c, w') ->
    matchIs true c = hasVerdict true c
    /\ matchIs false c = hasVerdict false c
    /\ hasError c = errorWithText c
    /\ (if hasVerdict true c then 1 else 0) + (if hasVerdict false c then 1 else 0)
       + (if errorWithText c then 1 else 0) + (if errorWithoutText c then 1 else 0) = 1.
Proof.
  intros c w'. unfold compareTable, tryCatch, bind, settle, pool_query.
  assert (forall text,
            let c := VObj [ ("table", table); ("error", VStr text) ] in
            matchIs true c = hasVerdict true c
            /\ matchIs false c = hasVerdict false c
            /\ hasError c = errorWithText c
            /\ (if hasVerdict true c then 1 else 0) + (if hasVerdict false c then 1 else 0)
               + (if errorWithText c then 1 else 0)
               + (if errorWithoutText c then 1 else 0) = 1) as Herr.
  { intros text. cbv zeta. unfold hasError, errorWithText, errorWithoutText. cbn.
    destruct (String.eqb text ""); repeat split. }
  destruct (escapeIdentifierOf out table) as [q | e]; cbn [await ret throw].
  - cbn [connections sent].
    destruct (firstCount out (queryAnswer out (length (sent w)))) as [sc | e];
      cbn [await ret throw].
    + intros H. injection H as <- _.
      match goal with
      | |- context [firstCount out ?a] => destruct (firstCount out a) as [tc | e]
      end; [destruct (strictEq sc tc) |]; cbn; repeat split.
    + intros H. injection H as <- _. apply Herr.
  - intros H. injection H as <- _. apply Herr.
Qed.

Lemma compareLoop_kinds (s t : Pool) (schema : string) (tableList : list value) :
  forall w cs w',
    compareLoop out s t schema tableList w = (Return cs, w') ->
    length (filter (matchIs true) cs) = length (filter (hasVerdict true) cs)
    /\ length (filter (matchIs false) cs) = length (filter (hasVerdict false) cs)
    /\ length (filter hasError cs) = length (filter errorWithText cs)
    /\ length (filter (hasVerdict true) cs) + length (filter (hasVerdict false) cs)
       + length (filter errorWithText cs) + length (filter errorWithoutText cs)
       = length cs.
Proof.
  induction tableList as [|table rest IH]; intros w cs w'.
  - simpl. unfold ret. intros H. injection H as <- _. repeat split.
  - cbn [compareLoop]. unfold bind at 1.
    destruct (compareTable out s t schema table w) as [[c | e] w1] eqn:E1; [| discriminate].
    unfold bind at 1.
    destruct (compareLoop out s t schema rest w1) as [[cs1 | e] w2] eqn:E2; [| discriminate].
    unfold ret. intros H. injection H as <- _.
    destruct (compareTable_kinds _ _ _ _ _ _ _ E1) as [K1 [K2 [K3 K4]]].
    destruct (IH _ _ _ E2) as [I1 [I2 [I3 I4]]].
    cbn [filter]. rewrite K1, K2, K3.
    destruct (hasVerdict true c), (hasVerdict false c), (errorWithText c),
      (errorWithoutText c); cbn [length] in *; try discriminate; repeat split; lia.
Qed.

(** The totals of the summary.  [matching] and [mismatching] count the
    records that say so, and [errors] counts the error entries whose
    message is not empty.  Every record is matching, mismatching or an
    error entry, one of the three: the totals add up to the number of
    tables less the error entries whose message is empty. *)
Theorem compare_summary_adds_up
    (w : World) (s t : string) (tables : option (list value)) (schema : option string)
    (response : value) (w' : World) :
  handleCompareRowCounts out s t tables schema w = (Return response, w') ->
  exists comparisons matching mismatching errors,
    fieldOf "comparisons" response = VArr comparisons
    /\ fieldOf "summary" response
       = VObj [ ("total_tables", VNum (Num (Z.of_nat (length comparisons))));
                ("matching", VNum (Num (Z.of_nat matching)));
                ("mismatching", VNum (Num (Z.of_nat mismatching)));
                ("errors", VNum (Num (Z.of_nat errors))) ]
    /\ matching = length (filter (hasVerdict true) comparisons)
    /\ mismatching = length (filter (hasVerdict false) comparisons)
    /\ errors = length (filter errorWithText comparisons)
    /\ matching + mismatching + errors + length (filter errorWithoutText comparisons)
       = length comparisons
    /\ matching + mismatching + length (filter isErrorEntry comparisons)
       = length comparisons
    /\ errors <= length (filter isErrorEntry comparisons)
    /\ matching + mismatching + errors <= length comparisons.
Proof.
  unfold handleCompareRowCounts. cbv zeta. unfold bind at 1.
  destruct (getConnection s w) as [[sdb | e] w1]; [| discriminate].
  unfold bind at 1. destruct (getConnection t w1) as [[tdb | e] w2]; [| discriminate].
  unfold bind at 1.
  match goal with
  | |- context [match ?m w2 with _ => _ end] => destruct (m w2) as [[tl | e] w3]
  end; [| discriminate].
  unfold bind at 1.
  destruct (compareLoop out sdb tdb (orDefault "public" schema) tl w3)
    as [[cs | e] w4] eqn:E; [| discriminate].
  unfold ret. intros H. injection H as <- _.
  pose proof (countedOnce_totals cs (compareLoop_countedOnce _ _ _ _ _ _ _ E)) as [T1 T2].
  destruct (compareLoop_kinds _ _ _ _ _ _ _ E) as [K1 [K2 [K3 K4]]].
  exists cs, (length (filter (matchIs true) cs)), (length (filter (matchIs false) cs)),
    (length (filter hasError cs)).
  split; [reflexivity |]. split; [reflexivity |]. split; [exact K1 |].
  split; [exact K2 |]. split; [exact K3 |]. split; [lia |]. split; [exact T1 |].
  split; [exact T2 | lia].
Qed.

(** With no table given the tables are those the source lists.  The
    listing is one request to the source, with the schema as its parameter;
    when it is rejected the whole comparison throws its error and nothing
    is compared; when it is answered there is one record per row of the
    answer. *)
Theorem compare_without_tables_lists_the_source
    (w : World) (s t : string) (sourceDb targetDb : Pool)
    (tables : option (list value)) (schema : option string) :
  getConnection s w = (Return sourceDb, w) ->
  getConnection t w = (Return targetDb, w) ->
  Nat.eqb (length (orDefault [] tables)) 0 = true ->
  (forall e,
      queryAnswer out (length (sent w)) = Throw e ->
      handleCompareRowCounts out s t tables schema w
      = (Throw e,
         mkWorld (connections w)
           (sent w ++ [Query sourceDb listingSql
                         (Some [VStr (orDefault "public" schema)])])))
  /\ (forall r,
        queryAnswer out (length (sent w)) = Return r ->
        exists response comparisons w',
          handleCompareRowCounts out s t tables schema w = (Return response, w')
          /\ fieldOf "comparisons" response = VArr comparisons
          /\ length comparisons = length (rows r)
          /\ (forall names,
                map (field "table_name") (rows r) = map VStr names ->
                sent w'
                = (sent w
                   ++ Query sourceDb listingSql (Some [VStr (orDefault "public" schema)])
                      :: requestsFor sourceDb targetDb (orDefault "public" schema) names)%list)).
Proof.
  intros Hs Ht Hn. unfold handleCompareRowCounts. cbv zeta. rewrite Hn.
  split.
  - intros e He. unfold bind at 1. rewrite Hs. unfold bind at 1. rewrite Ht.
    unfold bind, pool_query. now rewrite He.
  - intros r Hr. unfold bind at 1. rewrite Hs. unfold bind at 1. rewrite Ht.
    unfold bind at 1. unfold bind at 1. unfold pool_query at 1.
    rewrite Hr. cbn [ret]. unfold bind at 1.
    match goal with
    | |- context [compareLoop out sourceDb targetDb ?sc ?tl ?w0] =>
        destruct (compareLoop_returns out sourceDb targetDb sc tl w0)
          as [cs [w' [E [L C]]]]
    end.
    rewrite E. cbn [ret].
    eexists. exists cs, w'. split; [reflexivity |]. split; [reflexivity |].
    split; [now rewrite L, length_map |].
    intros names Hnames. rewrite Hnames, compareLoop_text in E.
    injection E as _ <-. cbn [sent]. now rewrite <- app_assoc.
Qed.

End WithOutside.

(** The tables [a] and [b] of the example: the source count of [a] is
    rejected without a message, and [b] matches.  There is one error entry
    and the summary says no error. *)
Lemma compare_summary_example :
  (exists response w',
     handleCompareRowCounts silentDriver "src" "tgt" (Some [VStr "a"; VStr "b"]) None
       exampleWorld
     = (Return response, w')
     /\ exists comparisons matching mismatching errors,
          fieldOf "comparisons" response = VArr comparisons
          /\ fieldOf "summary" response
             = VObj [ ("total_tables", VNum (Num (Z.of_nat (length comparisons))));
                      ("matching", VNum (Num (Z.of_nat matching)));
                      ("mismatching", VNum (Num (Z.of_nat mismatching)));
                      ("errors", VNum (Num (Z.of_nat errors))) ]
          /\ matching = length (filter (hasVerdict true) comparisons)
          /\ mismatching = length (filter (hasVerdict false) comparisons)
          /\ errors = length (filter errorWithText comparisons)
          /\ matching + mismatching + errors
             + length (filter errorWithoutText comparisons)
             = length comparisons
          /\ matching + mismatching + length (filter isErrorEntry comparisons)
             = length comparisons
          /\ errors <= length (filter isErrorEntry comparisons)
          /\ matching + mismatching + errors <= length comparisons)
  /\ (match fst (handleCompareRowCounts silentDriver "src" "tgt"
                   (Some [VStr "a"; VStr "b"]) None exampleWorld) with
      | Return response =>
          (fieldOf "summary" response, fieldOf "comparisons" response)
      | Throw _ => (VUndefined, VUndefined)
      end)
     = (VObj [ ("total_tables", VNum (Num 2)); ("matching", VNum (Num 1));
               ("mismatching", VNum (Num 0)); ("errors", VNum (Num 0)) ],
        VArr [ VObj [ ("table", VStr "a"); ("error", VStr "") ];
               VObj [ ("table", VStr "b"); ("source_count", VNum (Num 3));
                      ("target_count", VNum (Num 3)); ("difference", VNum (Num 0));
                      ("match", VBool true) ] ]).
Proof.
  split; [| vm_compute; reflexivity].
  eexists. eexists. split; [reflexivity |].
  eapply (compare_summary_adds_up silentDriver exampleWorld "src" "tgt"
            (Some [VStr "a"; VStr "b"]) None).
  reflexivity.
Defined.

Lemma compare_listing_example :
  handleCompareRowCounts
    (mkOutside (fun _ => Throw (mkError "permission denied")) (fun _ => Return tt)
               (fun _ => NaN) (fun _ => mkError "") (mkError ""))
    "src" "tgt" None None exampleWorld
  = (Throw (mkError "permission denied"),
     mkWorld (connections exampleWorld)
       [Query (examplePool "old-db" "s3cret") listingSql (Some [VStr "public"])]).
Proof.
  apply (proj1 (compare_without_tables_lists_the_source _ exampleWorld "src" "tgt"
                  (examplePool "old-db" "s3cret") (examplePool "new-db" "hunter2")
                  None None eq_refl eq_refl eq_refl)).
  reflexivity.
Defined.

End CompareMore.

(** ** Comparing schemas *)

Module SchemaFacts.
Import JSString JS Registry Guard Server Tools Laws LookupFacts.
Local Open Scope js_scope.

Lemma strictEq_sym (a b : number) : strictEq a b = strictEq b a.
Proof.
  destruct a as [x | | s], b as [y | | t]; simpl; try reflexivity.
  - apply Z.eqb_sym.
  - now destruct s, t.
Qed.

Lemma strictEqual_sym (a b : value) : strictEqual a b = strictEqual b a.
Proof.
  destruct a, b; simpl; try reflexivity.
  - now destruct b, b0.
  - apply strictEq_sym.
  - apply String.eqb_sym.
Qed.

Lemma sameValueZero_sym (a b : value) : sameValueZero a b = sameValueZero b a.
Proof.
  destruct a as [| | |[x| |s]| | |], b as [| | |[y| |t]| | |]; simpl; try reflexivity.
  - now destruct b, b0.
  - apply Z.eqb_sym.
  - now destruct s, t.
  - apply String.eqb_sym.
Qed.

Lemma sameValueZero_eq (a b : value) : sameValueZero a b = true -> a = b.
Proof.
  destruct a as [| | |[x| |s]| | |], b as [| | |[y| |t]| | |]; simpl; try discriminate;
    try reflexivity; intros H.
  - destruct b, b0; try discriminate; reflexivity.
  - apply Z.eqb_eq in H. now subst.
  - destruct s, t; try discriminate; reflexivity.
  - apply String.eqb_eq in H. now subst.
Qed.

Lemma columnDiffs_sym (a b : Row) : length (columnDiffs a b) = length (columnDiffs b a).
Proof.
  unfold columnDiffs.
  rewrite (strictEqual_sym (field "data_type" a)),
          (strictEqual_sym (field "is_nullable" a)),
          (strictEqual_sym (field "character_maximum_length" a)).
  repeat (destruct (negb _); simpl); reflexivity.
Qed.

Lemma ColumnMap_get_In (m : ColumnMap) (k : value) (row : Row) :
  ColumnMap_get m k = Some row -> In (k, row) m /\ sameValueZero k k = true.
Proof.
  induction m as [|[k' r'] m IH]; simpl; [discriminate |].
  destruct (sameValueZero k' k) eqn:E.
  - intros H. injection H as ->. apply sameValueZero_eq in E as E'. subst k'.
    split; [now left | exact E].
  - intros H. destruct (IH H) as [Hin Hk]. split; [now right | exact Hk].
Qed.

Lemma distinct_found (m : ColumnMap) :
  distinct m ->
  forall k row, In (k, row) m -> sameValueZero k k = true -> ColumnMap_get m k = Some row.
Proof.
  induction m as [|[k' r'] m IH]; simpl; intros D k row Hin Hk; [contradiction |].
  destruct D as [D1 D2]. destruct Hin as [Heq | Hin].
  - injection Heq as -> ->. now rewrite Hk.
  - rewrite (D1 k row Hin). now apply IH.
Qed.

Lemma ColumnMap_set_In (m : ColumnMap) (k : value) (r : Row) (k2 : value) (r2 : Row) :
  In (k2, r2) (ColumnMap_set m k r) ->
  (exists r3, In (k2, r3) m) \/ k2 = k.
Proof.
  induction m as [|[k' r'] m IH]; simpl.
  - intros [H | []]. injection H as <- _. now right.
  - destruct (sameValueZero k' k) eqn:E; simpl.
    + intros [H | H].
      * injection H as <- _. left. exists r'. now left.
      * left. exists r2. now right.
    + intros [H | H].
      * injection H as <- <-. left. exists r'. now left.
      * destruct (IH H) as [[r3 H3] | ->]; [left; exists r3; now right | now right].
Qed.

Lemma distinct_set (m : ColumnMap) (k : value) (r : Row) :
  distinct m -> distinct (ColumnMap_set m k r).
Proof.
  induction m as [|[k' r'] m IH]; simpl; intros D.
  - split; [intros ? ? [] | exact I].
  - destruct D as [D1 D2]. destruct (sameValueZero k' k) eqn:E; simpl.
    + split; assumption.
    + split; [| now apply IH]. intros k2 r2 Hin.
      destruct (ColumnMap_set_In _ _ _ _ _ Hin) as [[r3 H3] | ->];
        [exact (D1 k2 r3 H3) | exact E].
Qed.

Lemma columnsOf_from (P : value -> Row -> Prop) (rows : list Row) :
  (forall r, In r rows -> P (field "column_name" r) r) ->
  forall m,
    distinct m -> (forall k row, In (k, row) m -> P k row) ->
    let m' := fold_left (fun m r => ColumnMap_set m (field "column_name" r) r) rows m in
    distinct m' /\ (forall k row, In (k, row) m' -> P k row).
Proof.
  induction rows as [|r rows IH]; intros HP m D Hm; [split; assumption |].
  simpl. apply IH.
  - intros r0 H0. apply HP. now right.
  - now apply distinct_set.
  - intros k row Hin.
    assert (forall m0, (forall k row, In (k, row) m0 -> P k row) ->
            In (k, row) (ColumnMap_set m0 (field "column_name" r) r) -> P k row) as Hset.
    { clear - HP. induction m0 as [|[k' r'] m0 IHm]; simpl; intros Hm0.
      - intros [H | []]. injection H as <- <-. apply HP. now left.
      - destruct (sameValueZero k' (field "column_name" r)) eqn:E; simpl.
        + intros [H | H].
          * injection H as <- <-. apply sameValueZero_eq in E. rewrite E.
            apply HP. now left.
          * apply Hm0. now right.
        + intros [H | H].
          * injection H as <- <-. apply Hm0. now left.
          * apply IHm; [| exact H]. intros k0 row0 H0. apply Hm0. now right. }
    now apply (Hset m).
Qed.

Lemma columnsOf_distinct (rows : list Row) : distinct (columnsOf rows).
Proof.
  unfold columnsOf.
  apply (columnsOf_from (fun _ _ => True) rows); [auto | exact I | auto].
Qed.

Lemma fst_checkSource (t entries : ColumnMap) :
  fst (checkSource t entries)
  = filter (fun k => negb (ColumnMap_has t k)) (map fst entries).
Proof.
  induction entries as [|[k sr] entries IH]; [reflexivity |].
  cbn [checkSource map fst filter]. unfold ColumnMap_has.
  destruct (checkSource t entries) as [o d]. simpl in IH.
  destruct (ColumnMap_get t k); cbn [negb].
  - destruct (Nat.ltb 0 _); exact IH.
  - simpl. now rewrite IH.
Qed.

Lemma snd_checkSource_nil (t entries : ColumnMap) :
  snd (checkSource t entries) = [] <->
  (forall k sr tr, In (k, sr) entries -> ColumnMap_get t k = Some tr ->
                   length (columnDiffs sr tr) = 0).
Proof.
  induction entries as [|[k sr] entries IH].
  - split; [intros _ ? ? ? [] | reflexivity].
  - cbn [checkSource]. destruct (checkSource t entries) as [o d]. simpl in IH.
    destruct (ColumnMap_get t k) as [tr |] eqn:G.
    + destruct (Nat.ltb 0 (length (columnDiffs sr tr))) eqn:L; simpl.
      * split; [discriminate |]. intros H. specialize (H k sr tr (or_introl eq_refl) G).
        rewrite H in L. discriminate.
      * rewrite IH. apply Nat.ltb_ge in L. split.
        -- intros H k2 sr2 tr2 [Heq | Hin] G2.
           ++ injection Heq as <- <-. rewrite G in G2. injection G2 as <-. lia.
           ++ now apply (H k2 sr2 tr2).
        -- intros H k2 sr2 tr2 Hin. apply H. now right.
    + simpl. rewrite IH. split.
      * intros H k2 sr2 tr2 [Heq | Hin] G2.
        -- injection Heq as <- <-. congruence.
        -- now apply (H k2 sr2 tr2).
      * intros H k2 sr2 tr2 Hin. apply H. now right.
Qed.

(** Whether the first loop finds a difference does not depend on which
    side is the source. *)
Lemma differences_swap (a b : list Row) :
  snd (checkSource (columnsOf b) (columnsOf a)) = [] ->
  snd (checkSource (columnsOf a) (columnsOf b)) = [].
Proof.
  rewrite !snd_checkSource_nil. intros H k tr sr Hin G.
  destruct (ColumnMap_get_In _ _ _ G) as [Hin' Hk].
  rewrite columnDiffs_sym. apply (H k sr tr Hin').
  now apply (distinct_found _ (columnsOf_distinct b)).
Qed.

Section WithOutside.
Variable out : Outside.

(** What [handleCompareSchemas] returns when both queries are answered. *)
Lemma handleCompareSchemas_answered
    (w : World) (first : bool) (s t table : string) (schema : option string)
    (sourceDb targetDb : Pool) (a b : QueryResult) :
  getConnection s w = (Return sourceDb, w) ->
  getConnection t w = (Return targetDb, w) ->
  queryAnswer out (length (sent w)) = Return a ->
  queryAnswer out (S (length (sent w))) = Return b ->
  exists response w',
    handleCompareSchemas out first s t table schema w = (Return response, w')
    /\ fieldOf "only_in_source" response
       = VArr (fst (checkSource (columnsOf (rows b)) (columnsOf (rows a))))
    /\ fieldOf "only_in_target" response
       = VArr (checkTarget (columnsOf (rows a)) (columnsOf (rows b)))
    /\ fieldOf "differences" response
       = VArr (snd (checkSource (columnsOf (rows b)) (columnsOf (rows a))))
    /\ fieldOf "is_identical" response
       = VBool (Nat.eqb (length (snd (checkSource (columnsOf (rows b)) (columnsOf (rows a))))) 0
                && Nat.eqb (length (fst (checkSource (columnsOf (rows b)) (columnsOf (rows a))))) 0
                && Nat.eqb (length (checkTarget (columnsOf (rows a)) (columnsOf (rows b)))) 0)
    /\ fieldOf "source_column_count" response
       = VNum (Num (Z.of_nat (length (columnsOf (rows a)))))
    /\ fieldOf "target_column_count" response
       = VNum (Num (Z.of_nat (length (columnsOf (rows b)))))
    /\ sent w'
       = (sent w ++ [ Query sourceDb columnQuery
                        (Some [VStr (orDefault "public" schema); VStr table]);
                      Query targetDb columnQuery
                        (Some [VStr (orDefault "public" schema); VStr table]) ])%list.
Proof.
  intros Hs Ht Ha Hb. unfold handleCompareSchemas. cbv zeta.
  unfold bind at 1. rewrite Hs. unfold bind at 1. rewrite Ht.
  unfold bind at 1. unfold settle at 1. unfold pool_query at 1. rewrite Ha.
  unfold bind at 1. unfold settle at 1. unfold pool_query at 1.
  cbn [connections sent]. rewrite length_app. cbn [length]. rewrite Nat.add_1_r, Hb.
  unfold bind at 1. cbn [promiseAll2 await ret fst snd].
  destruct (checkSource (columnsOf (rows b)) (columnsOf (rows a))) as [o d].
  eexists. eexists. split; [reflexivity |]. cbn [fst snd sent].
  rewrite <- app_assoc. repeat split.
Qed.

(** Comparing in the other direction: the names only in the source become
    those only in the target and back, the two column counts change place,
    and the verdict [is_identical] is the same. *)
Theorem compare_schemas_is_symmetric
    (w1 w2 : World) (first1 first2 : bool) (s t table : string) (schema : option string)
    (s1 t1 s2 t2 : Pool) (a b : QueryResult) :
  getConnection s w1 = (Return s1, w1) ->
  getConnection t w1 = (Return t1, w1) ->
  getConnection t w2 = (Return t2, w2) ->
  getConnection s w2 = (Return s2, w2) ->
  queryAnswer out (length (sent w1)) = Return a ->
  queryAnswer out (S (length (sent w1))) = Return b ->
  queryAnswer out (length (sent w2)) = Return b ->
  queryAnswer out (S (length (sent w2))) = Return a ->
  exists forth back w1' w2',
    handleCompareSchemas out first1 s t table schema w1 = (Return forth, w1')
    /\ handleCompareSchemas out first2 t s table schema w2 = (Return back, w2')
    /\ fieldOf "only_in_source" forth = fieldOf "only_in_target" back
    /\ fieldOf "only_in_target" forth = fieldOf "only_in_source" back
    /\ fieldOf "source_column_count" forth = fieldOf "target_column_count" back
    /\ fieldOf "target_column_count" forth = fieldOf "source_column_count" back
    /\ fieldOf "is_identical" forth = fieldOf "is_identical" back.
Proof.
  intros Hs1 Ht1 Ht2 Hs2 Ha1 Hb1 Hb2 Ha2.
  destruct (handleCompareSchemas_answered w1 first1 s t table schema s1 t1 a b
              Hs1 Ht1 Ha1 Hb1)
    as [forth [w1' [E1 [Fs [Ft [Fd [Fi [Fcs [Fct _]]]]]]]]].
  destruct (handleCompareSchemas_answered w2 first2 t s table schema t2 s2 b a
              Ht2 Hs2 Hb2 Ha2)
    as [back [w2' [E2 [Bs [Bt [Bd [Bi [Bcs [Bct _]]]]]]]]].
  exists forth, back, w1', w2'. split; [exact E1 |]. split; [exact E2 |].
  rewrite Fs, Ft, Fcs, Fct, Fi, Bs, Bt, Bcs, Bct, Bi.
  rewrite !fst_checkSource. unfold checkTarget.
  repeat (split; [reflexivity |]). f_equal.
  set (oa := filter (fun k => negb (ColumnMap_has (columnsOf (rows b)) k))
               (map fst (columnsOf (rows a)))).
  set (ob := filter (fun k => negb (ColumnMap_has (columnsOf (rows a)) k))
               (map fst (columnsOf (rows b)))).
  assert (Nat.eqb (length (snd (checkSource (columnsOf (rows b)) (columnsOf (rows a))))) 0
          = Nat.eqb (length (snd (checkSource (columnsOf (rows a)) (columnsOf (rows b))))) 0)
    as ->.
  { destruct (snd (checkSource (columnsOf (rows b)) (columnsOf (rows a)))) eqn:X;
      destruct (snd (checkSource (columnsOf (rows a)) (columnsOf (rows b)))) eqn:Y;
      try reflexivity.
    - apply differences_swap in X. congruence.
    - apply differences_swap in Y. congruence. }
  rewrite <- !andb_assoc. f_equal. apply andb_comm.
Qed.

(** A schema compared with itself: when both sides give the same rows, and
    the rows are plain, the verdict is [is_identical], with no name on
    either side only and no difference. *)
Theorem compare_schemas_same_rows
    (w : World) (first : bool) (s t table : string) (schema : option string)
    (sourceDb targetDb : Pool) (a : QueryResult) :
  getConnection s w = (Return sourceDb, w) ->
  getConnection t w = (Return targetDb, w) ->
  queryAnswer out (length (sent w)) = Return a ->
  queryAnswer out (S (length (sent w))) = Return a ->
  forallb plainColumn (rows a) = true ->
  exists response w',
    handleCompareSchemas out first s t table schema w = (Return response, w')
    /\ fieldOf "is_identical" response = VBool true
    /\ fieldOf "only_in_source" response = VArr []
    /\ fieldOf "only_in_target" response = VArr []
    /\ fieldOf "differences" response = VArr [].
Proof.
  intros Hs Ht Ha Hb Hp.
  destruct (handleCompareSchemas_answered w first s t table schema sourceDb targetDb a a
              Hs Ht Ha Hb)
    as [response [w' [E [Fs [Ft [Fd [Fi _]]]]]]].
  exists response, w'. split; [exact E |]. rewrite Fi, Fs, Ft, Fd.
  set (m := columnsOf (rows a)).
  assert (distinct m /\ forall k row, In (k, row) m ->
            k = field "column_name" row /\ plainColumn row = true) as [D Hm].
  { unfold m, columnsOf.
    apply (columnsOf_from (fun k row => k = field "column_name" row /\ plainColumn row = true));
      [| exact I | intros ? ? []].
    intros r Hin. split; [reflexivity |].
    rewrite forallb_forall in Hp. now apply Hp. }
  assert (forall k row, In (k, row) m ->
            ColumnMap_get m k = Some row /\ length (columnDiffs row row) = 0) as Hf.
  { intros k row Hin. destruct (Hm k row Hin) as [-> Hpl].
    unfold plainColumn in Hpl. rewrite !andb_true_iff in Hpl.
    destruct Hpl as [[[Hk H1] H2] H3]. split.
    - now apply (distinct_found m D).
    - unfold columnDiffs. now rewrite H1, H2, H3. }
  assert (snd (checkSource m m) = []) as Hd.
  { apply snd_checkSource_nil. intros k sr tr Hin G.
    destruct (Hf k sr Hin) as [G' L]. rewrite G' in G. now injection G as <-. }
  assert (filter (fun k => negb (ColumnMap_has m k)) (map fst m) = []) as Ho.
  { assert (forall l, (forall k row, In (k, row) l -> In (k, row) m) ->
              filter (fun k => negb (ColumnMap_has m k)) (map fst l) = []) as G.
    { induction l as [|[k row] l IH]; intros Hl; [reflexivity |]. simpl.
      unfold ColumnMap_has at 1.
      rewrite (proj1 (Hf k row (Hl k row (or_introl eq_refl)))). simpl.
      apply IH. intros k0 row0 H0. apply Hl. now right. }
    apply G. auto. }
  rewrite fst_checkSource, Hd. unfold checkTarget. rewrite Ho. repeat split.
Qed.

End WithOutside.

(** Two columns on both sides. *)
Lemma compare_schemas_same_example :
  exists response w',
    handleCompareSchemas
      (mkOutside
         (fun _ => Return (mkResult (VNum (Num 2))
            [ [ ("column_name", VStr "id"); ("data_type", VStr "integer");
                ("character_maximum_length", VNull); ("is_nullable", VStr "NO") ];
              [ ("column_name", VStr "name"); ("data_type", VStr "character varying");
                ("character_maximum_length", VNum (Num 80)); ("is_nullable", VStr "YES") ] ]))
         (fun _ => Return tt) (fun _ => NaN) (fun _ => mkError "") (mkError ""))
      true "src" "tgt" "orders" None exampleWorld = (Return response, w')
    /\ fieldOf "is_identical" response = VBool true
    /\ fieldOf "only_in_source" response = VArr []
    /\ fieldOf "only_in_target" response = VArr []
    /\ fieldOf "differences" response = VArr [].
Proof.
  eapply (compare_schemas_same_rows _ exampleWorld true "src" "tgt" "orders" None);
    reflexivity.
Defined.

Lemma compare_schemas_swap_example :
  exists forth back w1' w2',
    handleCompareSchemas columnsDriver true "src" "tgt" "orders" None exampleWorld
    = (Return forth, w1')
    /\ handleCompareSchemas columnsDriver false "tgt" "src" "orders" None
         (mkWorld (connections exampleWorld) [End (examplePool "old-db" "s3cret")])
       = (Return back, w2')
    /\ fieldOf "only_in_source" forth = fieldOf "only_in_target" back
    /\ fieldOf "only_in_target" forth = fieldOf "only_in_source" back
    /\ fieldOf "source_column_count" forth = fieldOf "target_column_count" back
    /\ fieldOf "target_column_count" forth = fieldOf "source_column_count" back
    /\ fieldOf "is_identical" forth = fieldOf "is_identical" back.
Proof.
  eapply (compare_schemas_is_symmetric columnsDriver exampleWorld
            (mkWorld (connections exampleWorld) [End (examplePool "old-db" "s3cret")])
            true false "src" "tgt" "orders" None);
    reflexivity.
Defined.

End SchemaFacts.

(** ** Sheets and ranges *)

Module SheetFacts.
Import JSString JS Server Spreadsheet SpreadsheetFacts.

Lemma length_upTo (lo hi : Z) : length (upTo lo hi) = Z.to_nat (hi - lo + 1).
Proof. unfold upTo. now rewrite length_map, length_seq. Qed.

Lemma nth_upTo (lo hi : Z) (i : nat) (d : Z) :
  i < Z.to_nat (hi - lo + 1) -> nth i (upTo lo hi) d = (lo + Z.of_nat i)%Z.
Proof.
  intros H. unfold upTo. set (f := fun i => (lo + Z.of_nat i)%Z).
  rewrite (nth_indep _ d (f 0)) by now rewrite length_map, length_seq.
  rewrite map_nth, seq_nth by exact H. reflexivity.
Qed.

Section WithOutside.
Variable WorkSheet : Type.
Variable out : Outside WorkSheet.

(** Which sheet a tool reads.  Without a name, or with the empty name, it
    is the first sheet of the workbook; a name of the workbook gives that
    sheet; any other name, and any request on a workbook without sheets,
    throws the error that lists the sheets there are. *)
Theorem getWorksheet_picks_the_sheet (workbook : WorkBook WorkSheet) :
  (forall first others sheetName,
      SheetNames workbook = first :: others ->
      sheetName = None \/ sheetName = Some "" ->
      getWorksheet WorkSheet workbook sheetName = Return (Sheets workbook first))
  /\ (forall name,
        name <> "" -> In name (SheetNames workbook) ->
        getWorksheet WorkSheet workbook (Some name) = Return (Sheets workbook name))
  /\ (forall name,
        name <> "" -> ~ In name (SheetNames workbook) ->
        getWorksheet WorkSheet workbook (Some name)
        = Throw (SheetNotFoundError name (SheetNames workbook)))
  /\ (SheetNames workbook = [] ->
      forall sheetName, exists e,
        getWorksheet WorkSheet workbook sheetName = Throw e
        /\ startsWith (message e) "Sheet " = true).
Proof.
  unfold getWorksheet, targetSheetOf. cbv zeta. split; [| split; [| split]].
  - intros first others sheetName Hn [-> | ->]; simpl; rewrite Hn; simpl;
      rewrite String.eqb_refl; reflexivity.
  - intros name Hne Hin. simpl. apply String.eqb_neq in Hne. rewrite Hne.
    apply Array_includes_In in Hin. now rewrite Hin.
  - intros name Hne Hin. simpl. apply String.eqb_neq in Hne. rewrite Hne.
    destruct (Array_includes (SheetNames workbook) name) eqn:E; [| reflexivity].
    apply Array_includes_In in E. contradiction.
  - intros Hn sheetName. rewrite Hn. simpl. eexists. split; reflexivity.
Qed.

(** The data of [get_cell_range]: one row per row of the range and one
    cell per column of the range, none when the range ends before it
    starts; each cell holds the value of the sheet at that address, [null]
    where the sheet has no cell. *)
Theorem get_cell_range_is_the_grid
    (filePath : string) (sheetName : option string) (range : string)
    (parsed : list string) (resolvedPath : string) (workbook : WorkBook WorkSheet)
    (worksheet : WorkSheet) (rangeObj : Range) :
  validateFilePath WorkSheet out filePath = Return resolvedPath ->
  readFile out resolvedPath = Return workbook ->
  getWorksheet WorkSheet workbook sheetName = Return worksheet ->
  decode_range out range = Return rangeObj ->
  exists data,
    fst (get_cell_range WorkSheet out filePath sheetName range parsed)
    = Content (VObj [ ("range", VStr range); ("data", VArr data) ])
    /\ length data = Z.to_nat (e_r rangeObj - s_r rangeObj + 1)
    /\ (forall i, i < length data ->
          exists cells,
            nth i data VUndefined = VArr cells
            /\ length cells = Z.to_nat (e_c rangeObj - s_c rangeObj + 1)
            /\ (forall j, j < length cells ->
                  nth j cells VUndefined
                  = cellOr_null WorkSheet out worksheet
                      (s_r rangeObj + Z.of_nat i) (s_c rangeObj + Z.of_nat j))).
Proof.
  intros Hv Hr Hw Hd. unfold get_cell_range, tool, andThen, lift, XLSX_readFile.
  rewrite Hv, Hr, Hw, Hd. eexists. split; [reflexivity |].
  split; [now rewrite length_map, length_upTo |].
  intros i Hi. rewrite length_map, length_upTo in Hi.
  eexists. split.
  - set (f := fun row => VArr (map (cellOr_null WorkSheet out worksheet row)
                                 (upTo (s_c rangeObj) (e_c rangeObj)))).
    rewrite (nth_indep _ VUndefined (f 0%Z)) by now rewrite length_map, length_upTo.
    rewrite map_nth. reflexivity.
  - split; [now rewrite length_map, length_upTo |].
    intros j Hj. rewrite length_map, length_upTo in Hj.
    set (g := cellOr_null WorkSheet out worksheet
                (nth i (upTo (s_r rangeObj) (e_r rangeObj)) 0%Z)).
    rewrite (nth_indep _ VUndefined (g 0%Z)) by now rewrite length_map, length_upTo.
    rewrite map_nth. unfold g. now rewrite !nth_upTo.
Qed.

End WithOutside.

Lemma getWorksheet_example :
  getWorksheet unit (mkWorkBook unit ["Data"; ""] (fun _ => tt)) (Some "")
  = Return (Sheets (mkWorkBook unit ["Data"; ""] (fun _ => tt)) "Data").
Proof.
  apply (proj1 (getWorksheet_picks_the_sheet unit (mkWorkBook unit ["Data"; ""] (fun _ => tt)))
           "Data" [""] (Some "")); [reflexivity | now right].
Defined.

Lemma get_cell_range_example :
  exists data,
    fst (get_cell_range unit Samples.gridOutside "a.csv" None "A1:C2" [])
    = Content (VObj [ ("range", VStr "A1:C2"); ("data", VArr data) ])
    /\ length data = Z.to_nat (1 - 0 + 1)
    /\ (forall i, i < length data ->
          exists cells,
            nth i data VUndefined = VArr cells
            /\ length cells = Z.to_nat (2 - 0 + 1)
            /\ (forall j, j < length cells ->
                  nth j cells VUndefined
                  = cellOr_null unit Samples.gridOutside tt
                      (0 + Z.of_nat i) (0 + Z.of_nat j))).
Proof.
  apply (get_cell_range_is_the_grid unit Samples.gridOutside "a.csv" None "A1:C2" [] "a.csv"
           (mkWorkBook unit ["Sheet1"] (fun _ => tt)) tt (mkRange 0 0 1 2));
    reflexivity.
Defined.

End SheetFacts.

(** ** Shutting down, and the port of a new connection *)

Module ShutdownFacts.
Import JSString JS Registry Server Tools Laws RegistryFacts.
Local Open Scope js_scope.

Section WithOutside.
Variable out : Outside.

Lemma endAll_all (entries : Connections) :
  forall w,
    (forall i, i < length entries -> endAnswer out (length (sent w) + i) = Return tt) ->
    endAll out entries w
    = (Return tt,
       mkWorld (connections w)
         (sent w ++ map (fun ke => End (pool (snd ke))) entries)).
Proof.
  induction entries as [|[k conn] rest IH]; intros w H.
  - simpl. unfold ret. rewrite app_nil_r. now destruct w.
  - cbn [endAll]. unfold bind, pool_end.
    pose proof (H 0 ltac:(simpl; lia)) as H0. rewrite Nat.add_0_r in H0. rewrite H0.
    rewrite IH.
    + cbn [connections sent map snd]. now rewrite <- app_assoc.
    + intros i Hi. cbn [sent]. rewrite length_app. cbn [length].
      rewrite <- Nat.add_assoc. apply H. simpl. lia.
Qed.

Lemma endAll_stops (entries : Connections) :
  forall w k e,
    k < length entries ->
    (forall i, i < k -> endAnswer out (length (sent w) + i) = Return tt) ->
    endAnswer out (length (sent w) + k) = Throw e ->
    endAll out entries w
    = (Throw e,
       mkWorld (connections w)
         (sent w ++ map (fun ke => End (pool (snd ke))) (firstn (S k) entries))).
Proof.
  induction entries as [|[name conn] rest IH]; intros w k e Hk Hi He;
    [simpl in Hk; lia |].
  cbn [endAll]. unfold bind, pool_end. destruct k as [|k].
  - rewrite Nat.add_0_r in He. rewrite He. reflexivity.
  - pose proof (Hi 0 ltac:(lia)) as H0. rewrite Nat.add_0_r in H0. rewrite H0.
    rewrite (IH _ k e).
    + cbn [connections sent firstn map snd]. rewrite <- app_assoc. reflexivity.
    + simpl in Hk. lia.
    + intros i Hlt. cbn [sent]. rewrite length_app. cbn [length].
      rewrite <- Nat.add_assoc. apply Hi. lia.
    + cbn [sent]. rewrite length_app. cbn [length].
      rewrite <- Nat.add_assoc. exact He.
Qed.

(** On [SIGINT] every registered pool is ended once, in the order of the
    registry, when each end resolves; the first end that is rejected stops
    the loop, and the pools after it are never ended. *)
Theorem onSIGINT_ends_the_pools_in_order (w : World) :
  ((forall i, i < length (connections w) ->
      endAnswer out (length (sent w) + i) = Return tt) ->
   onSIGINT out w
   = (Return tt,
      mkWorld (connections w)
        (sent w ++ map (fun ke => End (pool (snd ke))) (connections w))))
  /\ (forall k e,
        k < length (connections w) ->
        (forall i, i < k -> endAnswer out (length (sent w) + i) = Return tt) ->
        endAnswer out (length (sent w) + k) = Throw e ->
        onSIGINT out w
        = (Throw e,
           mkWorld (connections w)
             (sent w ++ map (fun ke => End (pool (snd ke)))
                          (firstn (S k) (connections w))))).
Proof.
  unfold onSIGINT, bind, readConnections. split.
  - intros H. now apply endAll_all.
  - intros k e Hk Hi He. now apply endAll_stops.
Qed.

(** The port of a connection added through the dispatcher is the one
    given, and 5432 when none or 0 is given: port 0 is never registered. *)
Theorem added_port_is_never_zero
    (w w' : World) (name host : string) (port : option Z)
    (database user password : string) (response : value) :
  callTool out (add_connection name host port database user password) w
  = (Content response, w') ->
  option_map (fun e => Registry.port (config e)) (Map_get (connections w') name)
  = Some (portOr5432 port)
  /\ portOr5432 port <> 0%Z
  /\ (forall p, port = Some p -> p <> 0%Z -> portOr5432 port = p).
Proof.
  intros H. split; [| split].
  - revert H. unfold callTool, dispatch, handleAddConnection, addConnection, bind,
      readConnections, tryCatch. cbv zeta.
    destruct (Map_has (connections w) name) eqn:Hhas; [discriminate |].
    apply Map_get_has in Hhas. rewrite (Map_set_absent _ _ _ Hhas).
    unfold writeConnections, getConnection, bind, readConnections. cbn [connections sent].
    rewrite (Map_get_added _ _ _ Hhas).
    unfold ret, pool_query, connections_delete, bind, readConnections,
      writeConnections, throw. cbn [connections sent Registry.pool].
    destruct (queryAnswer out (length (sent w))) as [r | e]; [| discriminate].
    intros H. injection H as _ <-. cbn [connections].
    now rewrite (Map_get_added _ _ _ Hhas).
  - unfold portOr5432. destruct port as [p |]; [| discriminate].
    destruct (Z.eqb p 0) eqn:E; [discriminate | now apply Z.eqb_neq].
  - intros p -> Hp. unfold portOr5432. apply Z.eqb_neq in Hp. now rewrite Hp.
Qed.

End WithOutside.

Lemma onSIGINT_example :
  onSIGINT agreeable exampleWorld
  = (Return tt,
     mkWorld (connections exampleWorld)
       [End (examplePool "old-db" "s3cret"); End (examplePool "new-db" "hunter2")]).
Proof.
  apply (proj1 (onSIGINT_ends_the_pools_in_order agreeable exampleWorld)). reflexivity.
Defined.

Lemma added_port_example :
  option_map (fun e => Registry.port (config e))
    (Map_get
       (connections
          (snd (callTool agreeable (add_connection "z" "h" (Some 0%Z) "d" "u" "p")
                  emptyWorld))) "z")
  = Some (portOr5432 (Some 0%Z))
  /\ portOr5432 (Some 0%Z) = 5432%Z.
Proof.
  split; [| reflexivity].
  apply (proj1 (added_port_is_never_zero agreeable emptyWorld
                  (snd (callTool agreeable (add_connection "z" "h" (Some 0%Z) "d" "u" "p")
                          emptyWorld))
                  "z" "h" (Some 0%Z) "d" "u" "p"
                  (VObj [ ("success", VBool true);
                          ("message", VStr "Connection 'z' added successfully");
                          ("connection",
                            VObj [ ("name", VStr "z"); ("host", VStr "h");
                                   ("port", VNum (Num 5432)); ("database", VStr "d");
                                   ("user", VStr "u") ]) ])
                  eq_refl)).
Defined.

End ShutdownFacts.

(** ** More on records, passwords and sheets *)

Module MoreFacts.
Import JSString JS Registry Guard Server Tools Laws Spreadsheet.
Import RegistryFacts SecrecyFacts CompareFacts SpreadsheetFacts SheetFacts.
Local Open Scope js_scope.

Section WithOutside.
Variable out : Registry.Outside.

Lemma record_sameCount (table : value) (sc tc : number) :
  matchIsSameCount
    (VObj [ ("table", table); ("source_count", VNum sc); ("target_count", VNum tc);
            ("difference", VNum (sub tc sc)); ("match", VBool (strictEq sc tc)) ]).
Proof.
  unfold matchIsSameCount, matchIs. cbn [fieldOf field String.eqb Ascii.eqb Bool.eqb].
  split; [| split].
  - destruct (strictEq sc tc) eqn:E.
    + apply NumberFacts.strictEq_same in E as [<- Hn]. split; [| reflexivity].
      intros _. exists sc. auto.
    + split; [discriminate |]. intros [n [Hn [H1 H2]]].
      injection H1 as ->. injection H2 as ->.
      assert (strictEq n n = true) by (apply NumberFacts.strictEq_same; auto).
      congruence.
  - split.
    + intros H. injection H as H. apply NumberFacts.sub_zero in H as [z [-> ->]].
      now exists z.
    + intros [z [H1 H2]]. injection H1 as ->. injection H2 as ->.
      f_equal. apply NumberFacts.sub_zero. now exists z.
  - intros negative H1 H2. injection H1 as ->. injection H2 as ->.
    now rewrite NumberFacts.sub_same_infinity.
Qed.

Lemma record_noMatch (fields : list (string * value)) :
  field "match" fields = VUndefined \/ field "match" fields = VBool false ->
  (forall n, field "target_count" fields <> VNum n) ->
  field "difference" fields <> VNum (Num 0) ->
  matchIsSameCount (VObj fields).
Proof.
  intros Hm Ht Hd. unfold matchIsSameCount, matchIs. cbn [fieldOf].
  split; [| split].
  - split; [destruct Hm as [-> | ->]; discriminate |].
    intros [n [_ [_ H2]]]. now apply Ht in H2.
  - split; [intros H; contradiction |]. intros [z [_ H2]]. now apply Ht in H2.
  - intros negative _ H2. now apply Ht in H2.
Qed.

Lemma compareTable_sameCount (s t : Pool) (schema : string) (table : value) (w : World) :
  forall c w', compareTable out s t schema table w = (Return c, w') ->
               matchIsSameCount c.
Proof.
  intros c w'. unfold compareTable, tryCatch, bind, settle, pool_query.
  destruct (escapeIdentifierOf out table) as [q | e]; cbn [await ret throw].
  - cbn [connections sent].
    destruct (firstCount out (queryAnswer out (length (sent w)))) as [sc | e];
      cbn [await ret throw].
    + intros H. injection H as <- _.
      match goal with
      | |- context [firstCount out ?a] => destruct (firstCount out a) as [tc | e]
      end.
      * apply record_sameCount.
      * apply record_noMatch; [now right | discriminate | discriminate].
    + intros H. injection H as <- _.
      apply record_noMatch; [now left | discriminate | discriminate].
  - intros H. injection H as <- _.
    apply record_noMatch; [now left | discriminate | discriminate].
Qed.

Lemma compareLoop_sameCount (s t : Pool) (schema : string) (tableList : list value) :
  forall w cs w',
    compareLoop out s t schema tableList w = (Return cs, w') ->
    Forall matchIsSameCount cs.
Proof.
  induction tableList as [|table rest IH]; intros w cs w'.
  - simpl. unfold ret. intros H. injection H as <- _. constructor.
  - cbn [compareLoop]. unfold bind at 1.
    destruct (compareTable out s t schema table w) as [[c | e] w1] eqn:E1; [| discriminate].
    unfold bind at 1.
    destruct (compareLoop out s t schema rest w1) as [[cs1 | e] w2] eqn:E2; [| discriminate].
    unfold ret. intros H. injection H as <- _. constructor.
    + exact (compareTable_sameCount _ _ _ _ _ _ _ E1).
    + exact (IH _ _ _ E2).
Qed.

(** In every record of a comparison of row counts, [match] is true exactly
    when both counts are the same number, and [difference] is 0 exactly
    when both are the same finite number: a zero difference is always a
    match, and a match has a zero difference unless both counts are the
    same infinity, where the difference is [NaN].  A failed count on either
    side and a count that is [NaN] never make a match. *)
Theorem compare_match_is_same_count
    (w : World) (s t : string) (tables : option (list value)) (schema : option string)
    (response : value) (w' : World) :
  handleCompareRowCounts out s t tables schema w = (Return response, w') ->
  exists comparisons,
    fieldOf "comparisons" response = VArr comparisons
    /\ Forall matchIsSameCount comparisons.
Proof.
  unfold handleCompareRowCounts. cbv zeta. unfold bind at 1.
  destruct (getConnection s w) as [[sdb | e] w1]; [| discriminate].
  unfold bind at 1. destruct (getConnection t w1) as [[tdb | e] w2]; [| discriminate].
  unfold bind at 1.
  match goal with
  | |- context [match ?m w2 with _ => _ end] => destruct (m w2) as [[tl | e] w3]
  end; [| discriminate].
  unfold bind at 1.
  destruct (compareLoop out sdb tdb (orDefault "public" schema) tl w3)
    as [[cs | e] w4] eqn:E; [| discriminate].
  unfold ret. intros H. injection H as <- _.
  exists cs. split; [reflexivity |]. exact (compareLoop_sameCount _ _ _ _ _ _ _ E).
Qed.

(** The other tools, too, answer the same whatever the passwords are: from
    two states with the same names and display configurations and as many
    requests sent, each of them completes the same way. *)
Theorem other_tools_do_not_depend_on_passwords (w1 w2 : World) :
  low w1 w2 ->
  forall connection other table schema limit first,
    fst (handleListSchemas out connection w1) = fst (handleListSchemas out connection w2)
    /\ fst (handleListTables out connection schema w1)
       = fst (handleListTables out connection schema w2)
    /\ fst (handleDescribeTable out connection table schema w1)
       = fst (handleDescribeTable out connection table schema w2)
    /\ fst (handleGetTableSample out connection table schema limit w1)
       = fst (handleGetTableSample out connection table schema limit w2)
    /\ fst (handleGetTableCount out connection table schema w1)
       = fst (handleGetTableCount out connection table schema w2)
    /\ fst (handleGetIndexes out connection table schema w1)
       = fst (handleGetIndexes out connection table schema w2)
    /\ fst (handleGetForeignKeys out connection table schema w1)
       = fst (handleGetForeignKeys out connection table schema w2)
    /\ fst (handleCompareSchemas out first connection other table schema w1)
       = fst (handleCompareSchemas out first connection other table schema w2).
Proof.
  intros Hw connection other table schema limit first.
  assert (forall (h1 h2 : M value), related eq h1 h2 -> fst (h1 w1) = fst (h2 w2)) as R.
  { intros h1 h2 Hr. specialize (Hr w1 w2 Hw).
    destruct (h1 w1) as [[v1 | e1] w1'], (h2 w2) as [[v2 | e2] w2']; try contradiction;
      destruct Hr as [<- _]; reflexivity. }
  repeat split; apply R;
    unfold handleListSchemas, handleListTables, handleDescribeTable, handleGetTableSample,
      handleGetTableCount, handleGetIndexes, handleGetForeignKeys, handleCompareSchemas;
    cbv zeta;
    repeat first
      [ (eapply related_bind; [apply related_getConnection | intros ? ? _])
      | (eapply related_bind; [apply related_pool_query | intros ? ? <-])
      | (eapply related_bind; [apply related_settle, related_pool_query | intros ? ? <-])
      | (eapply related_bind; [apply related_await | intros ? ? <-])
      | (destruct (checkSource _ _))
      | (apply related_ret; reflexivity) ].
Qed.

End WithOutside.

(** Counts beyond the doubles on both sides: the record says [match], and
    its [difference] is [NaN]. *)
Lemma compare_same_count_example :
  (exists response w',
     handleCompareRowCounts overflowDriver "src" "tgt" (Some [VStr "orders"]) None
       exampleWorld
     = (Return response, w')
     /\ exists comparisons,
          fieldOf "comparisons" response = VArr comparisons
          /\ Forall matchIsSameCount comparisons)
  /\ fieldOf "comparisons"
       (match fst (handleCompareRowCounts overflowDriver "src" "tgt"
                     (Some [VStr "orders"]) None exampleWorld) with
        | Return response => response
        | Throw _ => VUndefined
        end)
     = VArr [ VObj [ ("table", VStr "orders");
                     ("source_count", VNum (Infinity false));
                     ("target_count", VNum (Infinity false));
                     ("difference", VNum NaN);
                     ("match", VBool true) ] ].
Proof.
  split; [| vm_compute; reflexivity].
  eexists. eexists. split; [reflexivity |].
  eapply (compare_match_is_same_count overflowDriver exampleWorld "src" "tgt"
            (Some [VStr "orders"]) None).
  reflexivity.
Defined.

(** The registry of the example with other passwords. *)
Lemma other_passwords_example :
  fst (handleGetTableCount exampleDriver "src" "orders" None exampleWorld)
  = fst (handleGetTableCount exampleDriver "src" "orders" None
           (mkWorld [ ("src", mkEntry (examplePool "old-db" "another")
                                (mkDisplay "old-db" 5432 "shop" "reader"));
                      ("tgt", mkEntry (examplePool "new-db" "yet another")
                                (mkDisplay "new-db" 5432 "shop" "reader")) ] [])).
Proof.
  apply (other_tools_do_not_depend_on_passwords exampleDriver exampleWorld
           (mkWorld [ ("src", mkEntry (examplePool "old-db" "another")
                                (mkDisplay "old-db" 5432 "shop" "reader"));
                      ("tgt", mkEntry (examplePool "new-db" "yet another")
                                (mkDisplay "new-db" 5432 "shop" "reader")) ] [])
           (conj eq_refl eq_refl) "src" "tgt" "orders" None None true).
Defined.

Section Sheets.
Variable WorkSheet : Type.
Variable out : Spreadsheet.Outside WorkSheet.

(** What [get_sheet_info] says of a sheet.  A sheet without used range is
    reported as empty, with no cell and no row.  For a sheet with a used
    range the counts are the end less the start plus one, by rows and by
    columns.  When such a count is not negative it is the number of rows,
    or of cells per row, that [get_cell_range] returns for that range; when
    the range ends before it starts the count is negative, or 0, and
    [get_cell_range] returns no row, or rows without cells. *)
Theorem get_sheet_info_counts_the_grid
    (filePath : string) (sheetName : option string) (parsed : list string)
    (resolvedPath : string) (workbook : WorkBook WorkSheet) (worksheet : WorkSheet) :
  validateFilePath WorkSheet out filePath = Return resolvedPath ->
  readFile out resolvedPath = Return workbook ->
  getWorksheet WorkSheet workbook sheetName = Return worksheet ->
  let totalSheets := VNum (Num (Z.of_nat (length (SheetNames workbook)))) in
  (ref out worksheet = None \/ ref out worksheet = Some "" ->
   fst (get_sheet_info WorkSheet out filePath sheetName parsed)
   = Content (VObj [ ("sheetName", VStr (targetSheetOf WorkSheet workbook sheetName));
                     ("usedRange", VStr "empty"); ("startCell", VStr "N/A");
                     ("endCell", VStr "N/A"); ("rowCount", VNum (Num 0));
                     ("columnCount", VNum (Num 0)); ("totalSheets", totalSheets) ]))
  /\ (forall range rangeObj,
        ref out worksheet = Some range -> range <> "" ->
        decode_range out range = Return rangeObj ->
        exists info data rowCount columnCount,
          fst (get_sheet_info WorkSheet out filePath sheetName parsed) = Content info
          /\ fieldOf "usedRange" info = VStr range
          /\ fieldOf "rowCount" info = VNum (Num rowCount)
          /\ fieldOf "columnCount" info = VNum (Num columnCount)
          /\ rowCount = (e_r rangeObj - s_r rangeObj + 1)%Z
          /\ columnCount = (e_c rangeObj - s_c rangeObj + 1)%Z
          /\ fst (get_cell_range WorkSheet out filePath sheetName range parsed)
             = Content (VObj [ ("range", VStr range); ("data", VArr data) ])
          /\ Z.of_nat (length data) = Z.max 0 rowCount
          /\ Forall (fun row => exists cells,
                       row = VArr cells
                       /\ Z.of_nat (length cells) = Z.max 0 columnCount) data
          /\ ((0 <= rowCount)%Z -> Z.of_nat (length data) = rowCount)
          /\ ((rowCount <= 0)%Z -> data = [])
          /\ ((0 <= columnCount)%Z ->
              Forall (fun row => exists cells,
                        row = VArr cells /\ Z.of_nat (length cells) = columnCount) data)).
Proof.
  intros Hv Hr Hw. cbv zeta. split.
  - intros Href. unfold get_sheet_info, tool, andThen, lift, XLSX_readFile.
    rewrite Hv, Hr, Hw. destruct Href as [-> | ->]; reflexivity.
  - intros range rangeObj Href Hne Hd.
    unfold get_sheet_info, get_cell_range, tool, andThen, lift, XLSX_readFile.
    rewrite Hv, Hr, Hw, Href, Hd. apply String.eqb_neq in Hne. rewrite Hne.
    eexists. eexists. eexists. eexists. split; [reflexivity |].
    split; [cbn; unfold textOr; now rewrite Hne |].
    split; [reflexivity |]. split; [reflexivity |]. split; [reflexivity |].
    split; [reflexivity |]. split; [reflexivity |].
    assert (forall columns,
              Forall (fun row => exists cells,
                        row = VArr cells
                        /\ length cells
                           = Z.to_nat (e_c rangeObj - s_c rangeObj + 1))
                (map (fun row => VArr (map (cellOr_null WorkSheet out worksheet row)
                                         (upTo (s_c rangeObj) (e_c rangeObj))))
                   columns)) as Hcells.
    { intros columns. apply Forall_forall. intros row Hin.
      apply in_map_iff in Hin as [r [<- _]].
      eexists. split; [reflexivity |]. now rewrite length_map, length_upTo. }
    split; [rewrite length_map, length_upTo; lia |].
    split.
    { eapply Forall_impl; [| apply Hcells].
      intros row [cells [-> L]]. exists cells. split; [reflexivity | lia]. }
    split; [intros H; rewrite length_map, length_upTo; lia |].
    split.
    { intros H. unfold upTo.
      replace (Z.to_nat (e_r rangeObj - s_r rangeObj + 1)) with 0 by lia.
      reflexivity. }
    intros H. eapply Forall_impl; [| apply Hcells].
    intros row [cells [-> L]]. exists cells. split; [reflexivity | lia].
Qed.

End Sheets.

(** A sheet whose used range is two rows of three columns: the counts are
    2 and 3, and so are the rows and the cells that [get_cell_range]
    returns. *)
Lemma get_sheet_info_example :
  exists info data rowCount columnCount,
    fst (get_sheet_info unit Samples.usedOutside "a.csv" None []) = Content info
    /\ fieldOf "usedRange" info = VStr "A1:C2"
    /\ fieldOf "rowCount" info = VNum (Num rowCount)
    /\ fieldOf "columnCount" info = VNum (Num columnCount)
    /\ rowCount = 2%Z
    /\ columnCount = 3%Z
    /\ fst (get_cell_range unit Samples.usedOutside "a.csv" None "A1:C2" [])
       = Content (VObj [ ("range", VStr "A1:C2"); ("data", VArr data) ])
    /\ Z.of_nat (length data) = rowCount
    /\ Forall (fun row => exists cells,
                 row = VArr cells /\ Z.of_nat (length cells) = columnCount) data.
Proof.
  destruct (proj2 (get_sheet_info_counts_the_grid unit Samples.usedOutside "a.csv" None []
                     "a.csv" (mkWorkBook unit ["Sheet1"] (fun _ => tt)) tt
                     eq_refl eq_refl eq_refl)
              "A1:C2" (mkRange 0 0 1 2) eq_refl
              (fun H => eq_ind "A1:C2" (fun t => match t with
                                                | EmptyString => False
                                                | String _ _ => True
                                                end) I "" H)
              eq_refl)
    as [info [data [rowCount [columnCount
         [E [U [R [C [Hr [Hc [G [_ [_ [Lr [_ Lc]]]]]]]]]]]]]]].
  exists info, data, rowCount, columnCount.
  split; [exact E |]. split; [exact U |]. split; [exact R |]. split; [exact C |].
  split; [exact Hr |]. split; [exact Hc |]. split; [exact G |].
  split; [apply Lr; rewrite Hr; discriminate | apply Lc; rewrite Hc; discriminate].
Defined.

(** A range that ends before it starts: the row count is negative and
    [get_cell_range] returns no row. *)
Example reversed_range :
  fieldOf "rowCount"
    (match fst (get_sheet_info unit Samples.reversedOutside "a.csv" None []) with
     | Content info => info
     | IsError _ => VUndefined
     end)
  = VNum (Num (-1))
  /\ fst (get_cell_range unit Samples.reversedOutside "a.csv" None "A4:A2" [])
     = Content (VObj [ ("range", VStr "A4:A2"); ("data", VArr []) ]).
Proof. split; reflexivity. Qed.

End MoreFacts.
